(** * page_tree: a paged multiway index from 64-bit keys to fixed-size values

    Shallow embedding of [page_tree.h].  The class keeps its pages in
    memory obtained from two [mmap_alloc] arenas and walks them through
    raw pointers; here memory is an explicit store of pages, a pointer is
    a page address (with an element index where the code does pointer
    arithmetic), and every member function is a computation in a small
    state-and-failure monad over the object. *)

From Stdlib Require Import ZArith Lia Bool.
From stdpp Require Import base list.

Local Open Scope Z_scope.

(** ** Machine integers *)

(** [unsigned] is 32 bits wide, [int] is its two's complement reading. *)
Definition u32 (z : Z) : Z := z mod 2 ^ 32.
Definition s32 (z : Z) : Z := (z + 2 ^ 31) mod 2 ^ 32 - 2 ^ 31.

(** ** Data *)

(** [typedef uint64_t t_idx] *)
Abbreviation t_idx := Z (only parsing).
Definition sizeof_t_idx : Z := 8.

(** A value is [value_malloc_size] bytes that the tree never interprets. *)
Abbreviation value := (list Z) (only parsing).

(** A page address; [void *] is [option addr], [NULL] being [None]. *)
Abbreviation addr := nat (only parsing).

(** [struct t_node { void *ptr; unsigned count; }] *)
Record t_node := mk_node { ptr : option addr; count : Z }.

(** A page starts with [max_entry_per_node] keys; what follows is either
    the value slots (a leaf, from [alloc_leaf_page]) or the child
    descriptors (a node, from [alloc_node_page]).  A cell that was never
    written holds [None]: its content is whatever the arena handed out. *)
Inductive payload :=
| Values (vs : list (option value))
| Subnodes (ns : list (option t_node)).

Record page := mk_page { keys : list (option t_idx); body : payload }.

(** Modelled from the spec: [mmap_alloc] is not part of the sources.  The
    spec describes it as an arena with [alloc(size, alignment)] returning a
    block or a failure and no [free]; the model keeps, per arena, how many
    more blocks it can hand out. *)
Record mmap_alloc := mk_alloc { room : nat }.

(** The object: the members of [class page_tree], and the memory its two
    arenas have handed out so far, indexed by page address. *)
Record page_tree := mk_tree {
  value_malloc_size : Z;
  mm_nodes : mmap_alloc;
  mm_leaves : mmap_alloc;
  tree_root : t_node;
  tree_depth : Z;
  store : list page
}.

(** [max_entry_per_node(4096 / sizeof(t_idx))] *)
Definition max_entry_per_node : Z := 4096 / sizeof_t_idx.

(** A [void *] into the value area of a leaf: the page and the slot. *)
Abbreviation handle := (option nat * Z)%type (only parsing).

(** ** Reading arrays *)

(** [ary[i]] on an array of cells: no result outside the array or on a
    cell that was never written. *)
Definition rd {A} (ary : list (option A)) (i : Z) : option A :=
  if i <? 0 then None else mjoin (ary !! Z.to_nat i).

(** [memmove] of [n] cells from [src + s] to [dst + d]; no result when a
    range leaves its array. *)
Definition memmove {A} (dst : list A) (d : Z) (src : list A) (s n : Z)
  : option (list A) :=
  if (0 <=? d) && (0 <=? s) && (0 <=? n)
     && (d + n <=? Z.of_nat (length dst)) && (s + n <=? Z.of_nat (length src))
  then Some (take (Z.to_nat d) dst
             ++ take (Z.to_nat n) (drop (Z.to_nat s) src)
             ++ drop (Z.to_nat (d + n)) dst)
  else None.

(** [ary[i] = x] *)
Definition wr {A} (ary : list (option A)) (i : Z) (x : A)
  : option (list (option A)) :=
  if (0 <=? i) && (i <? Z.of_nat (length ary))
  then Some (<[Z.to_nat i := Some x]> ary)
  else None.

(** ** binsearch_index *)

(** [while ( mid && ary[ mid - 1 ] == value ) --mid;] *)
Fixpoint binsearch_backup (fuel : nat) (value : t_idx)
    (ary : list (option t_idx)) (mid : Z) : option Z :=
  match fuel with
  | O => None
  | S fuel' =>
      if mid =? 0 then Some mid
      else match rd ary (mid - 1) with
           | None => None
           | Some a =>
               if a =? value
               then binsearch_backup fuel' value ary (u32 (mid - 1))
               else Some mid
           end
  end.

(** The [for (;;)] loop; [fuel] bounds the number of iterations. *)
Fixpoint binsearch_loop (fuel : nat) (value : t_idx)
    (ary : list (option t_idx)) (min max : Z) : option Z :=
  match fuel with
  | O => None
  | S fuel' =>
      let mid := u32 (min + max) / 2 in
      match rd ary mid with
      | None => None
      | Some a =>
          if a >? value then
            if mid =? 0 then Some (-1)
            else if mid =? min then Some (s32 (u32 (mid - 1)))
            else binsearch_loop fuel' value ary min (u32 (mid - 1))
          else if a =? value then
            match binsearch_backup (S (Z.to_nat mid)) value ary mid with
            | Some m => Some (s32 m)
            | None => None
            end
          else
            if mid =? max then Some (s32 mid)
            else binsearch_loop fuel' value ary (u32 (mid + 1)) max
      end
  end.

(** [int binsearch_index( t_idx value, t_idx *ary, unsigned count )];
    [None] when the search reads a cell it must not read or does not
    finish within [count] rounds. *)
Definition binsearch_index (value : t_idx) (ary : list (option t_idx))
    (count : Z) : option Z :=
  if count =? 0 then Some (-1)
  else binsearch_loop (Z.to_nat count) value ary 0 (u32 (count - 1)).

(** ** Computations on the object *)

(** A member function either returns ([Ret]) with the object it leaves
    behind, or is left by [std::bad_alloc] ([Throw], again with the object
    as the exception finds it), or has no defined result ([Undef]: a read
    through a pointer that is [NULL], points outside its array or at a cell
    never written, a page used as the other kind, or an iteration bound of
    the model exceeded). *)
Inductive outcome (A : Type) : Type :=
| Ret (a : A) (t : page_tree)
| Throw (t : page_tree)
| Undef.
Arguments Ret {A} a t.
Arguments Throw {A} t.
Arguments Undef {A}.

Definition M (A : Type) : Type := page_tree -> outcome A.

Definition ret {A} (a : A) : M A := fun t => Ret a t.

Definition bind {A B} (m : M A) (k : A -> M B) : M B :=
  fun t => match m t with
           | Ret a t' => k a t'
           | Throw t' => Throw t'
           | Undef => Undef
           end.

Notation "'let*' x ':=' m 'in' k" := (bind m (fun x => k))
  (at level 10, x pattern, m at level 100, k at level 200,
   format "'[v' 'let*'  x  ':='  m  'in'  '/' k ']'").
Notation "m ;; k" := (bind m (fun _ => k))
  (at level 100, k at level 200, right associativity).

Definition undef {A} : M A := fun _ => Undef.
Definition throw_bad_alloc {A} : M A := fun t => Throw t.
Definition get : M page_tree := fun t => Ret t t.
Definition put (t' : page_tree) : M unit := fun _ => Ret tt t'.

Definition lift {A} (o : option A) : M A :=
  match o with Some a => ret a | None => undef end.

Definition set_store (t : page_tree) (s : list page) : page_tree :=
  mk_tree (value_malloc_size t) (mm_nodes t) (mm_leaves t)
          (tree_root t) (tree_depth t) s.
Definition set_root (t : page_tree) (n : t_node) : page_tree :=
  mk_tree (value_malloc_size t) (mm_nodes t) (mm_leaves t)
          n (tree_depth t) (store t).
Definition set_depth (t : page_tree) (d : Z) : page_tree :=
  mk_tree (value_malloc_size t) (mm_nodes t) (mm_leaves t)
          (tree_root t) d (store t).

(** The page behind a [void *]. *)
Definition page_at (t : page_tree) (p : option addr) : option page :=
  match p with Some a => store t !! a | None => None end.

Definition load_page (p : option addr) : M page :=
  let* t := get in lift (page_at t p).

Definition store_page (p : option addr) (pg : page) : M unit :=
  let* t := get in
  match p with
  | Some a =>
      if decide (a < length (store t))%nat
      then put (set_store t (<[a := pg]> (store t)))
      else undef
  | None => undef
  end.

(** *** Pointers into a page *)

(** [t_idx *node_to_idx( void *node, unsigned i = 0 )] *)
Definition node_to_idx (node : option addr) (i : Z) : option addr * Z :=
  (node, i).

(** [void *node_to_value( void *node, unsigned idx )] *)
Definition node_to_value (node : option addr) (idx : Z) : handle :=
  (node, idx).

(** A [t_node *]: the code holds pointers to [tree_root] and to slots of a
    node page ([node_to_subnode]); the [t_node] locals it also points at
    are passed and returned by value here. *)
Inductive node_ptr :=
| root_ptr
| subnode_ptr (node : option addr) (idx : Z).

(** [t_node *node_to_subnode( void *node, unsigned idx )] *)
Definition node_to_subnode (node : option addr) (idx : Z) : node_ptr :=
  subnode_ptr node idx.

Definition subnodes_of (pg : page) : option (list (option t_node)) :=
  match body pg with Subnodes ns => Some ns | Values _ => None end.
Definition values_of (pg : page) : option (list (option value)) :=
  match body pg with Values vs => Some vs | Subnodes _ => None end.

(** [*p] for a [t_idx *p] *)
Definition load_idx (p : option addr * Z) : M t_idx :=
  let* pg := load_page (fst p) in lift (rd (keys pg) (snd p)).

(** [*p = k] for a [t_idx *p] *)
Definition store_idx (p : option addr * Z) (k : t_idx) : M unit :=
  let* pg := load_page (fst p) in
  let* ks := lift (wr (keys pg) (snd p) k) in
  store_page (fst p) (mk_page ks (body pg)).

(** [*n] for a [t_node *n] *)
Definition load_node (n : node_ptr) : M t_node :=
  match n with
  | root_ptr => let* t := get in ret (tree_root t)
  | subnode_ptr p i =>
      let* pg := load_page p in
      let* ns := lift (subnodes_of pg) in
      lift (rd ns i)
  end.

(** [*n = x] for a [t_node *n] *)
Definition store_node (n : node_ptr) (x : t_node) : M unit :=
  match n with
  | root_ptr => let* t := get in put (set_root t x)
  | subnode_ptr p i =>
      let* pg := load_page p in
      let* ns := lift (subnodes_of pg) in
      let* ns' := lift (wr ns i x) in
      store_page p (mk_page (keys pg) (Subnodes ns'))
  end.

(** *** Allocation *)

Definition fresh_cells {A} : list (option A) :=
  replicate (Z.to_nat max_entry_per_node) None.

Definition set_mm_nodes (t : page_tree) (m : mmap_alloc) (s : list page) :=
  mk_tree (value_malloc_size t) m (mm_leaves t)
          (tree_root t) (tree_depth t) s.
Definition set_mm_leaves (t : page_tree) (m : mmap_alloc) (s : list page) :=
  mk_tree (value_malloc_size t) (mm_nodes t) m
          (tree_root t) (tree_depth t) s.

(** [void *alloc_node_page()]: [mm_nodes.alloc] or [throw std::bad_alloc()] *)
Definition alloc_node_page : M (option addr) :=
  let* t := get in
  match room (mm_nodes t) with
  | O => throw_bad_alloc
  | S r =>
      put (set_mm_nodes t (mk_alloc r)
             (store t ++ [mk_page fresh_cells (Subnodes fresh_cells)])) ;;
      ret (Some (length (store t)))
  end.

(** [void *alloc_leaf_page()]: [mm_leaves.alloc] or [throw std::bad_alloc()] *)
Definition alloc_leaf_page : M (option addr) :=
  let* t := get in
  match room (mm_leaves t) with
  | O => throw_bad_alloc
  | S r =>
      put (set_mm_leaves t (mk_alloc r)
             (store t ++ [mk_page fresh_cells (Values fresh_cells)])) ;;
      ret (Some (length (store t)))
  end.

(** ** find_rec *)

(** [binsearch_index( idx, node_to_idx( ptr ), count )]: the page is only
    read when [count] is not zero. *)
Definition search_page (idx : t_idx) (p : option addr) (cnt : Z) : M Z :=
  if cnt =? 0 then ret (-1)
  else let* pg := load_page p in lift (binsearch_index idx (keys pg) cnt).

(** The [for] loop of [find_rec] over the children whose key is [idx];
    [rec] is the call of [find_rec] one level down. *)
Fixpoint find_run (rec : Z -> option addr -> Z -> M (option handle * Z))
    (fuel : nat) (idx : t_idx) (p : option addr) (cnt : Z) (i sub_idx : Z)
  : M (option handle * Z) :=
  match fuel with
  | O => undef
  | S fuel' =>
      if u32 i <? cnt then
        let* k := load_idx (node_to_idx p i) in
        if k =? idx then
          let* n := load_node (node_to_subnode p i) in
          let* r := rec sub_idx (ptr n) (count n) in
          match fst r with
          | Some h => ret (Some h, snd r)
          | None =>
              if snd r <? 0 then ret (None, snd r)
              else find_run rec fuel' idx p cnt (s32 (i + 1)) (snd r)
          end
        else ret (None, sub_idx)
      else ret (None, sub_idx)
  end.

(** [void *find_rec( t_idx idx, int &sub_idx, void *ptr, unsigned count,
    unsigned depth )]; the result carries the final [sub_idx]. *)
Fixpoint find_rec (depth : nat) (idx : t_idx) (sub_idx : Z)
    (p : option addr) (cnt : Z) : M (option handle * Z) :=
  let* i := search_page idx p cnt in
  if i <? 0 then ret (None, sub_idx)
  else
    let* k := load_idx (node_to_idx p i) in
    if k =? idx then
      match depth with
      | O =>
          if u32 sub_idx <? u32 (cnt - i) then
            let i := s32 (i + sub_idx) in
            let* k' := load_idx (node_to_idx p i) in
            if k' =? idx then ret (Some (node_to_value p i), sub_idx)
            else ret (None, -1)
          else ret (None, s32 (sub_idx - u32 (cnt - i)))
      | S depth' =>
          find_run (fun s q c => find_rec depth' idx s q c)
                   (S (Z.to_nat cnt)) idx p cnt i sub_idx
      end
    else
      match depth with
      | O => ret (None, sub_idx)
      | S depth' =>
          let* n := load_node (node_to_subnode p i) in
          find_rec depth' idx sub_idx (ptr n) (count n)
      end.

(** [void *find( t_idx idx, int sub_idx=0 )] *)
Definition find (idx : t_idx) (sub_idx : Z) : M (option handle) :=
  let* t := get in
  let* r := find_rec (Z.to_nat (tree_depth t)) idx sub_idx
                     (ptr (tree_root t)) (count (tree_root t)) in
  ret (fst r).

(** ** split_node *)

(** [while ( p_idx[ split_idx ] == p_idx[ 0 ] ) ++split_idx;] *)
Fixpoint split_forward (fuel : nat) (ks : list (option t_idx))
    (split_idx : Z) : option Z :=
  match fuel with
  | O => None
  | S fuel' =>
      match rd ks split_idx, rd ks 0 with
      | Some a, Some b =>
          if a =? b then split_forward fuel' ks (u32 (split_idx + 1))
          else Some split_idx
      | _, _ => None
      end
  end.

(** [while ( split_idx > 0 && p_idx[ split_idx ] == p_idx[ split_idx - 1 ] )
    --split_idx;] *)
Fixpoint split_backward (fuel : nat) (ks : list (option t_idx))
    (split_idx : Z) : option Z :=
  match fuel with
  | O => None
  | S fuel' =>
      if split_idx >? 0 then
        match rd ks split_idx, rd ks (split_idx - 1) with
        | Some a, Some b =>
            if a =? b then split_backward fuel' ks (u32 (split_idx - 1))
            else Some split_idx
        | _, _ => None
        end
      else Some split_idx
  end.

(** The first half of [split_node]: where a page with keys [ks] and [cnt]
    entries is cut. *)
Definition split_point (ks : list (option t_idx)) (cnt : Z) : option Z :=
  let split_idx := cnt / 2 in
  match rd ks split_idx, rd ks 0 with
  | Some km, Some k0 =>
      if km =? k0 then
        match rd ks (u32 (cnt - 1)) with
        | Some kl =>
            if negb (kl =? k0)
            then split_forward (S (Z.to_nat cnt)) ks split_idx
            else Some split_idx
        | None => None
        end
      else split_backward (S (Z.to_nat cnt)) ks split_idx
  | _, _ => None
  end.

(** [void split_node( t_node *old_node, t_node *new_node, bool is_leaf )];
    [new_node] is a local of the caller and is returned.  The two counts
    are assigned before the page is allocated. *)
Definition split_node (old_node : node_ptr) (is_leaf : bool) : M t_node :=
  let* old := load_node old_node in
  let* pg := load_page (ptr old) in
  let* split_idx := lift (split_point (keys pg) (count old)) in
  let new_count := u32 (count old - split_idx) in
  store_node old_node (mk_node (ptr old) split_idx) ;;
  let* p := (if is_leaf then alloc_leaf_page else alloc_node_page) in
  let* new_pg := load_page p in
  let* old_pg := load_page (ptr old) in
  (* move indexes *)
  let* ks := lift (memmove (keys new_pg) 0 (keys old_pg) 0 new_count) in
  (* move values *)
  let* bd := lift (
    if is_leaf then
      match body new_pg, body old_pg with
      | Values d, Values s => Values <$> memmove d 0 s split_idx new_count
      | _, _ => None
      end
    else
      match body new_pg, body old_pg with
      | Subnodes d, Subnodes s => Subnodes <$> memmove d 0 s split_idx new_count
      | _, _ => None
      end) in
  store_page p (mk_page ks bd) ;;
  ret (mk_node p new_count).

(** ** insert_rec *)

(** [memmove( node_to_idx( p, i + 1 ), node_to_idx( p, i ), sizeof(t_idx) )] *)
Definition move_idx (p : option addr) (i : Z) : M unit :=
  let* pg := load_page p in
  let* ks := lift (memmove (keys pg) (i + 1) (keys pg) i 1) in
  store_page p (mk_page ks (body pg)).

(** [memmove( node_to_value( p, i + 1 ), node_to_value( p, i ),
    value_malloc_size )] *)
Definition move_value (p : option addr) (i : Z) : M unit :=
  let* pg := load_page p in
  let* vs := lift (values_of pg) in
  let* vs' := lift (memmove vs (i + 1) vs i 1) in
  store_page p (mk_page (keys pg) (Values vs')).

(** [memmove( node_to_subnode( p, i + 1 ), node_to_subnode( p, i ),
    sizeof(t_node) )] *)
Definition move_subnode (p : option addr) (i : Z) : M unit :=
  let* pg := load_page p in
  let* ns := lift (subnodes_of pg) in
  let* ns' := lift (memmove ns (i + 1) ns i 1) in
  store_page p (mk_page (keys pg) (Subnodes ns')).

(** The position computed before an entry is put into a page:
    [i = binsearch_index( idx, p_idx, count ); if ( i < 0 ) i = 0;
     if ( (unsigned)i < count && p_idx[ i ] < idx ) ++i;] *)
Definition insert_pos (idx : t_idx) (p : option addr) (cnt : Z) : M Z :=
  let* i := search_page idx p cnt in
  let i := if i <? 0 then 0 else i in
  if u32 i <? cnt then
    let* k := load_idx (node_to_idx p i) in
    ret (if k <? idx then s32 (i + 1) else i)
  else ret i.

(** [void *insert_rec( t_idx idx, t_node *curnode, t_node *sibling,
    unsigned depth )]; [sibling] points at a local of the caller, which is
    passed in and returned by value next to the result. *)
Fixpoint insert_rec (depth : nat) (idx : t_idx) (curnode : node_ptr)
    (sibling : t_node) : M (handle * t_node) :=
  match depth with
  | O =>
      let* cur := load_node curnode in
      (* leaf is curnode, or sibling after a split *)
      let* choice :=
        (if count cur >=? max_entry_per_node then
           let* sib := split_node curnode true in
           let* k := load_idx (node_to_idx (ptr sib) 0) in
           ret (idx >=? k, sib)
         else ret (false, sibling)) in
      let in_sibling := fst choice in
      let sibling := snd choice in
      let* leaf := (if in_sibling then ret sibling else load_node curnode) in
      let* i := insert_pos idx (ptr leaf) (count leaf) in
      (if u32 i <? count leaf then
         move_idx (ptr leaf) i ;; move_value (ptr leaf) i
       else ret tt) ;;
      store_idx (node_to_idx (ptr leaf) i) idx ;;
      (* leaf->count++ *)
      let leaf' := mk_node (ptr leaf) (u32 (count leaf + 1)) in
      let* sibling :=
        (if in_sibling then ret leaf'
         else store_node curnode leaf' ;; ret sibling) in
      ret (node_to_value (ptr leaf) i, sibling)
  | S depth' =>
      let* cur := load_node curnode in
      let* i := search_page idx (ptr cur) (count cur) in
      let i := if i <? 0 then 0 else i in
      let subnode := node_to_subnode (ptr cur) i in
      let* r := insert_rec depth' idx subnode (mk_node None 0) in
      let ret_ptr := fst r in
      let splitted := snd r in
      (* update self.idx[ i ] *)
      let* sub := load_node subnode in
      let* sub_idx := load_idx (node_to_idx (ptr sub) 0) in
      let* ki := load_idx (node_to_idx (ptr cur) i) in
      (if sub_idx <? ki then store_idx (node_to_idx (ptr cur) i) sub_idx
       else ret tt) ;;
      match ptr splitted with
      | None => ret (ret_ptr, sibling)
      | Some _ =>
          (* new subnode was allocated, insert it *)
          let* newleaf_idx := load_idx (node_to_idx (ptr splitted) 0) in
          let* cur := load_node curnode in
          let* choice :=
            (if count cur >=? max_entry_per_node then
               let* sib := split_node curnode false in
               let* k := load_idx (node_to_idx (ptr sib) 0) in
               ret (k >=? newleaf_idx, sib)
             else ret (false, sibling)) in
          let in_sibling := fst choice in
          let sibling := snd choice in
          let* node := (if in_sibling then ret sibling
                        else load_node curnode) in
          let* i := insert_pos newleaf_idx (ptr node) (count node) in
          (if u32 i <? count node then
             move_idx (ptr node) i ;; move_subnode (ptr node) i
           else ret tt) ;;
          ret (ret_ptr, sibling)
      end
  end.

(** [void *insert( t_idx idx )] *)
Definition insert (idx : t_idx) : M handle :=
  let* t := get in
  let* r := insert_rec (Z.to_nat (tree_depth t)) idx root_ptr
                       (mk_node None 0) in
  (match ptr (snd r) with
   | Some _ =>
       (* increase tree depth *)
       let* t' := get in put (set_depth t' (u32 (tree_depth t' + 1)))
   | None => ret tt
   end) ;;
  ret (fst r).

(** ** Construction *)

(** The object after the member initialisers of
    [page_tree( unsigned value_malloc_size, const std::string &mmap_dir )],
    given the two arenas. *)
Definition page_tree_members (value_malloc_size : Z)
    (mm_nodes mm_leaves : mmap_alloc) : page_tree :=
  mk_tree value_malloc_size mm_nodes mm_leaves (mk_node None 0) 0 [].

(** The constructor body. *)
Definition page_tree_body : M unit :=
  let* p := alloc_leaf_page in
  let* t := get in
  put (set_depth (set_root t (mk_node p 0)) 0).

(** ** What the caller does with a returned pointer *)

(** Writing the payload through the pointer [insert] or [find] returned. *)
Definition write_value (h : handle) (v : value) : M unit :=
  let* pg := load_page (fst h) in
  let* vs := lift (values_of pg) in
  let* vs' := lift (wr vs (snd h) v) in
  store_page (fst h) (mk_page (keys pg) (Values vs')).

(** Reading the payload through such a pointer. *)
Definition read_value (h : handle) : M value :=
  let* pg := load_page (fst h) in
  let* vs := lift (values_of pg) in
  lift (rd vs (snd h)).

(** ** Sequences of calls *)

(** [insert] called once per key, in order; the returned pointers. *)
Fixpoint insert_all (ks : list t_idx) : M (list handle) :=
  match ks with
  | [] => ret []
  | k :: ks' =>
      let* h := insert k in
      let* hs := insert_all ks' in
      ret (h :: hs)
  end.

(** The object a successful constructor leaves: one empty leaf page as
    root, [nodes] and [leaves] blocks still to be had from the arenas. *)
Definition empty_tree (vsize : Z) (nodes leaves : nat) : page_tree :=
  mk_tree vsize (mk_alloc nodes) (mk_alloc leaves)
          (mk_node (Some 0%nat) 0) 0
          [mk_page fresh_cells (Values fresh_cells)].

(** ** The tree as a sorted multimap *)

(** An entry: a key and the pointer to its value slot. *)
Abbreviation entry := (Z * (option nat * Z))%type (only parsing).

(** The first [cnt] cells of an array, when all of them were written. *)
Definition prefix {A} (cells : list (option A)) (cnt : Z) : option (list A) :=
  if (0 <=? cnt) && (cnt <=? Z.of_nat (length cells))
  then mapM id (take (Z.to_nat cnt) cells)
  else None.

Fixpoint sortedb (ks : list t_idx) : bool :=
  match ks with
  | a :: (b :: _) as rest => (a <=? b) && sortedb rest
  | _ => true
  end.

Definition first_key (E : list entry) : option t_idx := fst <$> head E.
Definition last_key (E : list entry) : option t_idx := fst <$> last E.

(** The key of child [i] in a node page is the first (least) key below
    that child. *)
Fixpoint fenced (ks : list t_idx) (Es : list (list entry)) : bool :=
  match ks, Es with
  | [], [] => true
  | k :: ks', E :: Es' =>
      match first_key E with
      | Some f => (f =? k) && fenced ks' Es'
      | None => false
      end
  | _, _ => false
  end.

(** Consecutive children are in order, and a run of equal keys is not
    torn: a child may end with the key its right neighbour starts with
    only if it holds nothing but that key. *)
Fixpoint chained (Es : list (list entry)) : bool :=
  match Es with
  | E1 :: (E2 :: _) as rest =>
      match last_key E1, first_key E1, first_key E2 with
      | Some l, Some f1, Some f2 =>
          (l <=? f2) && implb (l =? f2) (f1 =? f2) && chained rest
      | _, _, _ => false
      end
  | _ => true
  end.

(** The entries below the descriptor [n] of a page [depth] levels above
    the leaves, in storage order, each one the key with the leaf page and
    the slot number that hold it; [None] unless the data-model invariants
    hold there: the pages exist and are of the right kind, at most
    [max_entry_per_node] entries each, all of them written, the keys in
    storage order non-decreasing, node keys equal to the least key of
    their child, and runs not torn. *)
Fixpoint entries_of (t : page_tree) (depth : nat) (n : t_node)
  : option (list entry) :=
  match page_at t (ptr n) with
  | None => None
  | Some pg =>
      if count n <=? max_entry_per_node then
        match prefix (keys pg) (count n) with
        | None => None
        | Some ks =>
            match depth with
            | O =>
                match values_of pg with
                | None => None
                | Some _ =>
                    if sortedb ks
                    then Some (imap (fun i k =>
                                 (k, (ptr n, Z.of_nat i))) ks)
                    else None
                end
            | S depth' =>
                match subnodes_of pg with
                | None => None
                | Some ns =>
                    match prefix ns (count n) with
                    | None => None
                    | Some cs =>
                        match mapM (entries_of t depth') cs with
                        | None => None
                        | Some Es =>
                            if fenced ks Es && chained Es
                               && sortedb (fst <$> concat Es)
                            then Some (concat Es)
                            else None
                        end
                    end
                end
            end
        end
      else None
  end.

(** All entries of the tree in storage order, when it is well formed. *)
Definition stored (t : page_tree) : option (list entry) :=
  if 0 <=? tree_depth t
  then entries_of t (Z.to_nat (tree_depth t)) (tree_root t)
  else None.

(** The value slots stored under [idx], in storage order. *)
Definition hits (idx : t_idx) (E : list entry) : list handle :=
  snd <$> filter (fun e : entry => fst e = idx) E.

(** ** Properties of key arrays *)

(** The first [cnt] cells are written and non-decreasing. *)
Definition sorted_upto (ary : list (option t_idx)) (cnt : Z) : Prop :=
  forall i j, 0 <= i <= j -> j < cnt ->
    exists a b, rd ary i = Some a /\ rd ary j = Some b /\ a <= b.

(** The cells below [hi] fall into keys smaller than [v] (below [p]),
    keys equal to [v] (from [p] to [q]) and larger keys. *)
Definition split3 (ary : list (option t_idx)) (v : t_idx) (p q hi : Z)
  : Prop :=
  0 <= p <= q /\ q <= hi /\
  (forall j, 0 <= j < p -> exists a, rd ary j = Some a /\ a < v) /\
  (forall j, p <= j < q -> rd ary j = Some v) /\
  (forall j, q <= j < hi -> exists a, rd ary j = Some a /\ v < a).

(** The result of the search as the spec words it: the position of the
    first occurrence of the largest key [<= value], [-1] if there is
    none. *)
Definition largest_le (value : t_idx) (ks : list t_idx) : option t_idx :=
  foldr (fun k acc =>
           if k <=? value
           then Some (match acc with Some m => Z.max k m | None => k end)
           else acc) None ks.

Fixpoint first_occurrence (k : t_idx) (ks : list t_idx) (i : Z) : Z :=
  match ks with
  | [] => -1
  | a :: rest => if a =? k then i else first_occurrence k rest (i + 1)
  end.

Definition first_of_largest_le (value : t_idx) (ks : list t_idx) : Z :=
  match largest_le value ks with
  | Some m => first_occurrence m ks 0
  | None => -1
  end.

(** ** Properties of computations *)

(** A computation that only reads: whenever it returns, the object is as
    it was, and it is never left by an exception. *)
Definition reads {A} (m : M A) : Prop :=
  forall t, match m t with
            | Ret _ t' => t' = t
            | Throw _ => False
            | Undef => True
            end.

(** A computation that leaves [tree_depth] alone, however it ends. *)
Definition keeps_depth {A} (m : M A) : Prop :=
  forall t, match m t with
            | Ret _ t' => tree_depth t' = tree_depth t
            | Throw t' => tree_depth t' = tree_depth t
            | Undef => True
            end.

(** ** Auxiliary definitions *)

(** The array after the cell at [i] was copied over the cell at [i + 1]. *)
Definition shift1 {A} (l : list A) (i : nat) : list A :=
  take (S i) l ++ take 1 (drop i l) ++ drop (S (S i)) l.

(** The root leaf page [pg] (values [vs], [c] entries) after [idx] was
    put at position [p] the way [insert_rec] does it. *)
Definition leaf_put (pg : page) (vs : list (option value)) (idx : t_idx)
    (p c : Z) : page :=
  if p <? c
  then mk_page (<[Z.to_nat p := Some idx]> (shift1 (keys pg) (Z.to_nat p)))
               (Values (shift1 vs (Z.to_nat p)))
  else mk_page (<[Z.to_nat p := Some idx]> (keys pg)) (Values vs).

(** The page an arena hands out: a leaf page from [mm_leaves], a node
    page from [mm_nodes]. *)
Definition fresh_page (is_leaf : bool) : page :=
  if is_leaf then mk_page fresh_cells (Values fresh_cells)
  else mk_page fresh_cells (Subnodes fresh_cells).

(** The page [pg] is of the kind [split_node] is told ([is_leaf]), with
    room for [max_entry_per_node] entries. *)
Definition page_of_kind (is_leaf : bool) (pg : page) : Prop :=
  Z.of_nat (length (keys pg)) = max_entry_per_node /\
  match body pg with
  | Values vs => is_leaf = true /\ Z.of_nat (length vs) = max_entry_per_node
  | Subnodes ns => is_leaf = false /\ Z.of_nat (length ns) = max_entry_per_node
  end.

(** The arena [split_node] allocates from. *)
Definition arena_for (is_leaf : bool) (t : page_tree) : mmap_alloc :=
  if is_leaf then mm_leaves t else mm_nodes t.

(** ** Results of computations that only read *)

(** Run on [t], the computation [m] leaves [t] as it is and its result
    satisfies [Q]; it is not left by an exception. *)
Definition reads_to {A} (t : page_tree) (m : M A) (Q : A -> Prop) : Prop :=
  match m t with
  | Ret a t' => t' = t /\ Q a
  | Throw _ => False
  | Undef => True
  end.

(** The slot the pointer [h] designates holds the key [idx]. *)
Definition key_at (t : page_tree) (h : handle) (idx : t_idx) : Prop :=
  exists pg, page_at t (fst h) = Some pg /\ rd (keys pg) (snd h) = Some idx.

(** ** A root leaf and its keys *)

(** The keys grow strictly. *)
Fixpoint increasingb (ks : list t_idx) : bool :=
  match ks with
  | a :: (b :: _) as rest => (a <? b) && increasingb rest
  | _ => true
  end.

(** The root of [t] is the leaf page at [a], a page of
    [max_entry_per_node] cells whose entries have the keys [ks], in this
    order. *)
Definition leaf_holds (t : page_tree) (a : addr) (ks : list t_idx) : Prop :=
  tree_depth t = 0 /\
  tree_root t = mk_node (Some a) (Z.of_nat (length ks)) /\
  exists pg, store t !! a = Some pg /\ page_of_kind true pg /\
             prefix (keys pg) (Z.of_nat (length ks)) = Some ks.

(** ** Pages taken from the arenas *)

(** From [t] to [t'] at most [n] pages were taken from the arenas and
    none was given back: every page the store gained is a block an arena
    lost, and [value_malloc_size] is as it was. *)
Definition takes_pages (n : nat) (t t' : page_tree) : Prop :=
  value_malloc_size t' = value_malloc_size t /\
  (room (mm_nodes t') <= room (mm_nodes t))%nat /\
  (room (mm_leaves t') <= room (mm_leaves t))%nat /\
  (length (store t') + room (mm_nodes t') + room (mm_leaves t')
   = length (store t) + room (mm_nodes t) + room (mm_leaves t))%nat /\
  (length (store t') <= length (store t) + n)%nat.

(** A computation that takes at most [n] pages, however it ends. *)
Definition allocates {A} (n : nat) (m : M A) : Prop :=
  forall t, match m t with
            | Ret _ t' => takes_pages n t t'
            | Throw t' => takes_pages n t t'
            | Undef => True
            end.

(** ** The root pointer *)

(** Started with the root pointer [rp], the computation [m] ends with the
    root pointer [rp], however it ends, and a result satisfies [Q]. *)
Definition root_at {A} (rp : option addr) (m : M A) (Q : A -> Prop) : Prop :=
  forall t, ptr (tree_root t) = rp ->
    match m t with
    | Ret a t' => ptr (tree_root t') = rp /\ Q a
    | Throw t' => ptr (tree_root t') = rp
    | Undef => True
    end.

(** ** Concrete trees and runs *)

(** An array of [max_entry_per_node] cells of which the first ones hold [l]. *)
Definition cells {A} (l : list A) : list (option A) :=
  (Some <$> l) ++ replicate (Z.to_nat max_entry_per_node - length l) None.

(** The keys 1, 2, ..., n. *)
Definition ascending (n : nat) : list t_idx := Z.of_nat <$> seq 1 n.

(** 512 keys in order with every key from 2 to 256 twice:
    1, 2, 2, 3, 3, ..., 256, 256, 257. *)
Definition doubled_keys : list t_idx :=
  1 :: flat_map (fun k => [k; k]) (Z.of_nat <$> seq 2 255) ++ [257].

(** A tree of depth 1: a root node page with one child, a full leaf with
    the keys 1 to 512. *)
Definition one_full_leaf : page_tree :=
  mk_tree 1 (mk_alloc 4) (mk_alloc 4) (mk_node (Some 0%nat) 1) 1
    [ mk_page (cells [1]) (Subnodes (cells [mk_node (Some 1%nat) 512]));
      mk_page (cells (ascending 512))
              (Values (cells (replicate 512 [0]))) ].

(** A tree of depth 1 with three leaves [1,3], [5,5,5,5] and [5,5,7];
    the key 5 fills the second leaf and runs on into the third. *)
Definition three_leaves : page_tree :=
  mk_tree 1 (mk_alloc 4) (mk_alloc 4) (mk_node (Some 0%nat) 3) 1
    [ mk_page (cells [1; 5; 5])
              (Subnodes (cells [mk_node (Some 1%nat) 2;
                                mk_node (Some 2%nat) 4;
                                mk_node (Some 3%nat) 3]));
      mk_page (cells [1; 3]) (Values (cells [[10]; [30]]));
      mk_page (cells [5; 5; 5; 5]) (Values (cells [[50]; [51]; [52]; [53]]));
      mk_page (cells [5; 5; 7]) (Values (cells [[54]; [55]; [70]])) ].

(** Three values of four bytes. *)
Definition val_A : value := [65; 65; 65; 65].
Definition val_B : value := [66; 66; 66; 66].
Definition val_C : value := [67; 67; 67; 67].

(** The start of scenario 1 of the spec: the keys 5, 3, 5 are inserted and
    the values A, B, C written through the pointers returned. *)
Definition insert_5_3_5 : M (handle * handle * handle) :=
  let* h0 := insert 5 in
  write_value h0 val_A ;;
  let* h1 := insert 3 in
  write_value h1 val_B ;;
  let* h2 := insert 5 in
  write_value h2 val_C ;;
  ret (h0, h1, h2).

(** A tree whose root is a leaf with the keys 3 and 5. *)
Definition leaf_3_5 : page_tree :=
  mk_tree 4 (mk_alloc 0) (mk_alloc 0) (mk_node (Some 0%nat) 2) 0
    [ mk_page (cells [3; 5]) (Values (cells [val_B; val_A])) ].

(** A tree whose root is a full leaf with the keys 1 to 512; the leaf
    arena has [leaves] blocks left. *)
Definition full_leaf (leaves : nat) : page_tree :=
  mk_tree 4 (mk_alloc 0) (mk_alloc leaves) (mk_node (Some 0%nat) 512) 0
    [ mk_page (cells (ascending 512)) (Values (cells (replicate 512 val_A))) ].


(** ** The trees a program can build, and the pages of a tree *)





(** * Proofs *)

(** ** Machine integers *)

Lemma u32_small z : 0 <= z < 2 ^ 32 -> u32 z = z.
Proof. intros H. unfold u32. apply Z.mod_small. lia. Qed.

Lemma s32_small z : - 2 ^ 31 <= z < 2 ^ 31 -> s32 z = z.
Proof. intros H. unfold s32. rewrite Z.mod_small; lia. Qed.

Lemma max_entry_per_node_eq : max_entry_per_node = 512.
Proof. reflexivity. Qed.

(** ** Arrays of cells *)

Lemma rd_nat {A} (ary : list (option A)) i :
  0 <= i -> rd ary i = mjoin (ary !! Z.to_nat i).
Proof. unfold rd. destruct (Z.ltb_spec i 0); [lia|done]. Qed.

Lemma wr_Some {A} (ary : list (option A)) i x :
  0 <= i < Z.of_nat (length ary) ->
  wr ary i x = Some (<[Z.to_nat i := Some x]> ary).
Proof.
  intros H. unfold wr.
  destruct (Z.leb_spec 0 i); [|lia]. destruct (Z.ltb_spec i (Z.of_nat (length ary))); [done|lia].
Qed.

Lemma rd_insert_eq {A} (ary : list (option A)) i x :
  0 <= i < Z.of_nat (length ary) ->
  rd (<[Z.to_nat i := Some x]> ary) i = Some x.
Proof.
  intros H. rewrite rd_nat by lia. rewrite list_lookup_insert_eq by lia. done.
Qed.

Lemma rd_insert_ne {A} (ary : list (option A)) i j x :
  0 <= i -> i <> j ->
  rd (<[Z.to_nat i := Some x]> ary) j = rd ary j.
Proof.
  intros Hi Hne. unfold rd. destruct (Z.ltb_spec j 0); [done|].
  rewrite list_lookup_insert_ne by lia. done.
Qed.

Lemma memmove_one {A} (l : list A) i :
  0 <= i -> i + 2 <= Z.of_nat (length l) ->
  memmove l (i + 1) l i 1 = Some (shift1 l (Z.to_nat i)).
Proof.
  intros H0 H1. unfold memmove.
  repeat match goal with |- context [?a <=? ?b] => destruct (Z.leb_spec a b); [|lia] end.
  simpl. unfold shift1. do 3 f_equal.
  - f_equal. lia.
  - f_equal. lia.
Qed.

Lemma shift1_lookup {A} (l : list A) i j :
  (S i < length l)%nat ->
  shift1 l i !! j = if decide (j = S i) then l !! i else l !! j.
Proof.
  intros Hlen. unfold shift1.
  destruct (decide (j < S i)%nat) as [Hlt|Hge].
  - rewrite lookup_app_l by (rewrite length_take; lia).
    rewrite lookup_take_lt by lia. destruct (decide (j = S i)); [lia|done].
  - rewrite lookup_app_r by (rewrite length_take; lia).
    rewrite length_take, Nat.min_l by lia.
    destruct (decide (j = S i)) as [->|Hne].
    + replace (S i - S i)%nat with 0%nat by lia.
      rewrite lookup_app_l by (rewrite length_take, length_drop; lia).
      rewrite lookup_take_lt by lia. rewrite lookup_drop. f_equal. lia.
    + rewrite lookup_app_r by (rewrite length_take, length_drop; lia).
      rewrite length_take, length_drop, Nat.min_l by lia.
      rewrite lookup_drop. f_equal. lia.
Qed.

Lemma shift1_length {A} (l : list A) i :
  (S i < length l)%nat -> length (shift1 l i) = length l.
Proof.
  intros H. unfold shift1. rewrite !length_app, !length_take, !length_drop. lia.
Qed.

Lemma rd_shift1 {A} (ary : list (option A)) i j :
  0 <= i -> i + 2 <= Z.of_nat (length ary) ->
  rd (shift1 ary (Z.to_nat i)) j = if decide (j = i + 1) then rd ary i else rd ary j.
Proof.
  intros H0 H1. unfold rd at 1. destruct (Z.ltb_spec j 0).
  - destruct (decide (j = i + 1)); [lia|]. unfold rd. destruct (Z.ltb_spec j 0); [done|lia].
  - rewrite shift1_lookup by lia.
    destruct (decide (Z.to_nat j = S (Z.to_nat i))), (decide (j = i + 1)); try lia.
    + rewrite rd_nat by lia. done.
    + rewrite rd_nat by lia. done.
Qed.

Lemma memmove_Some {A} (dst : list A) d (src : list A) s n :
  0 <= d -> 0 <= s -> 0 <= n ->
  d + n <= Z.of_nat (length dst) -> s + n <= Z.of_nat (length src) ->
  is_Some (memmove dst d src s n).
Proof.
  intros. unfold memmove.
  repeat match goal with |- context [?a <=? ?b] => destruct (Z.leb_spec a b); [|lia] end.
  simpl. eauto.
Qed.

Lemma fresh_cells_length {A} :
  Z.of_nat (length (@fresh_cells A)) = max_entry_per_node.
Proof. unfold fresh_cells. rewrite length_replicate. reflexivity. Qed.

Lemma prefix_spec {A} (ary : list (option A)) cnt l :
  prefix ary cnt = Some l ->
  Z.of_nat (length l) = cnt /\ cnt <= Z.of_nat (length ary) /\
  forall j, 0 <= j < cnt -> rd ary j = l !! Z.to_nat j.
Proof.
  unfold prefix. destruct (Z.leb_spec 0 cnt) as [H0|]; [|done].
  destruct (Z.leb_spec cnt (Z.of_nat (length ary))) as [H1|]; [|done]. simpl.
  intros H%mapM_Some. pose proof (Forall2_length _ _ _ H) as Hlen.
  rewrite length_take in Hlen. split; [lia|]. split; [lia|].
  intros j Hj. rewrite rd_nat by lia.
  destruct (l !! Z.to_nat j) as [y|] eqn:Hy.
  - destruct (Forall2_lookup_r _ _ _ _ _ H Hy) as (x & Hx & Hxy). simpl in Hxy. subst x.
    rewrite lookup_take_lt in Hx by lia. by rewrite Hx.
  - apply lookup_ge_None in Hy. lia.
Qed.

Lemma prefix_defined {A} (ary : list (option A)) cnt l :
  prefix ary cnt = Some l -> forall j, 0 <= j < cnt -> exists k, rd ary j = Some k.
Proof.
  intros (Hlen & _ & Hrd)%prefix_spec j Hj. rewrite Hrd by done.
  apply lookup_lt_is_Some_2. lia.
Qed.

Lemma sortedb_head a ks b :
  sortedb (a :: ks) = true -> b ∈ ks -> a <= b.
Proof.
  revert a. induction ks as [|c ks IH]; intros a Hs Hb; [by apply elem_of_nil in Hb|].
  simpl in Hs. apply andb_true_iff in Hs as [Hac Hs]. apply Z.leb_le in Hac.
  apply elem_of_cons in Hb as [->|Hb]; [done|]. specialize (IH c Hs Hb). lia.
Qed.

Lemma sortedb_tail a ks : sortedb (a :: ks) = true -> sortedb ks = true.
Proof. destruct ks; [done|]. simpl. by intros [_ ?]%andb_true_iff. Qed.

Lemma sortedb_lookup ks i j a b :
  sortedb ks = true -> (i <= j)%nat -> ks !! i = Some a -> ks !! j = Some b -> a <= b.
Proof.
  revert i j. induction ks as [|c ks IH]; intros i j Hs Hij Ha Hb; [done|].
  destruct i as [|i], j as [|j]; simpl in *; simplify_eq; try lia.
  - eapply sortedb_head; [done|]. by eapply list_elem_of_lookup_2.
  - eapply (IH i j); eauto using sortedb_tail. lia.
Qed.

Lemma sorted_upto_weaken ary cnt cnt' :
  cnt' <= cnt -> sorted_upto ary cnt -> sorted_upto ary cnt'.
Proof. intros Hle H i j Hij Hj. apply H; lia. Qed.

Lemma sorted_upto_rd ary cnt i :
  sorted_upto ary cnt -> 0 <= i < cnt -> exists a, rd ary i = Some a.
Proof. intros H Hi. destruct (H i i) as (a & _ & -> & _); [lia..|]. eauto. Qed.

Lemma sorted_upto_le ary cnt i j a b :
  sorted_upto ary cnt -> 0 <= i <= j -> j < cnt ->
  rd ary i = Some a -> rd ary j = Some b -> a <= b.
Proof.
  intros H Hij Hj Ha Hb. destruct (H i j) as (a' & b' & Ha' & Hb' & Hle); [lia..|].
  congruence.
Qed.

Lemma sorted_upto_prefix ary cnt ks :
  prefix ary cnt = Some ks -> sortedb ks = true -> sorted_upto ary cnt.
Proof.
  intros (Hlen & _ & Hrd)%prefix_spec Hs i j Hij Hj.
  rewrite !Hrd by lia.
  destruct (lookup_lt_is_Some_2 ks (Z.to_nat i)) as [a Ha]; [lia|].
  destruct (lookup_lt_is_Some_2 ks (Z.to_nat j)) as [b Hb]; [lia|].
  exists a, b. split; [done|]. split; [done|].
  eapply (sortedb_lookup ks (Z.to_nat i) (Z.to_nat j)); eauto. lia.
Qed.

Lemma sorted_upto_adjacent ary cnt :
  (forall j, 0 <= j < cnt -> exists a, rd ary j = Some a) ->
  (forall j a b, 0 <= j -> j + 1 < cnt ->
     rd ary j = Some a -> rd ary (j + 1) = Some b -> a <= b) ->
  sorted_upto ary cnt.
Proof.
  intros Hdef Hadj i j Hij Hj.
  destruct (Hdef i) as [a Ha]; [lia|]. exists a.
  replace j with (i + Z.of_nat (Z.to_nat (j - i))) in * by lia.
  induction (Z.to_nat (j - i)) as [|m IH].
  - exists a. rewrite Z.add_0_r. split; [done|]. split; [done|lia].
  - destruct IH as (b & _ & Hb & Hab); [lia|lia|].
    destruct (Hdef (i + Z.of_nat (S m))) as [b' Hb']; [lia|].
    exists b'. split; [done|]. split; [done|].
    assert (b <= b'); [|lia].
    eapply (Hadj (i + Z.of_nat m)); [lia|lia|done|].
    rewrite <- Hb'. f_equal. lia.
Qed.

(** ** The binary search *)

Section Binsearch.
Variables (ary : list (option t_idx)) (v : t_idx) (p q hi : Z).
Hypothesis Hsplit : split3 ary v p q hi.

Lemma split3_lt j : 0 <= j < p -> exists a, rd ary j = Some a /\ a < v.
Proof. destruct Hsplit as (_ & _ & H & _). apply H. Qed.

Lemma split3_eq j : p <= j < q -> rd ary j = Some v.
Proof. destruct Hsplit as (_ & _ & _ & H & _). apply H. Qed.

Lemma split3_gt j : q <= j < hi -> exists a, rd ary j = Some a /\ v < a.
Proof. destruct Hsplit as (_ & _ & _ & _ & H). apply H. Qed.

Lemma split3_bounds : 0 <= p <= q /\ q <= hi.
Proof. destruct Hsplit as (? & ? & _). auto. Qed.

Lemma binsearch_backup_split3 fuel mid :
  p <= mid < q -> mid < 2 ^ 32 -> (Z.to_nat (mid - p) < fuel)%nat ->
  binsearch_backup fuel v ary mid = Some p.
Proof.
  pose proof split3_bounds as Hb.
  revert mid. induction fuel as [|fuel IH]; intros mid Hmid Hlt Hfuel; [lia|].
  simpl. destruct (Z.eqb_spec mid 0) as [->|Hne].
  - f_equal. lia.
  - destruct (Z.eq_dec mid p) as [->|Hmp].
    + destruct (split3_lt (p - 1)) as (a & -> & Ha); [lia|].
      destruct (Z.eqb_spec a v); [lia|done].
    + rewrite (split3_eq (mid - 1)) by lia.
      rewrite Z.eqb_refl, u32_small by lia.
      apply IH; lia.
Qed.

Lemma binsearch_loop_split3 fuel min max :
  0 <= min <= max -> max < 2 ^ 31 ->
  min <= p -> p <= max + 1 -> (p < q -> p <= max) ->
  max < hi \/ (max = hi /\ p < hi) ->
  (Z.to_nat (max - min) < fuel)%nat ->
  binsearch_loop fuel v ary min max = Some (if p <? q then p else p - 1).
Proof.
  pose proof split3_bounds as Hb.
  revert min max.
  induction fuel as [|fuel IH]; intros min max Hmm Hmax Hmin Hp Hpq Hhi Hf; [lia|].
  cbn [binsearch_loop]. rewrite u32_small by lia.
  set (mid := (min + max) / 2).
  assert (Hmid : min <= mid <= max) by (subst mid; split; [apply Z.div_le_lower_bound|apply Z.div_le_upper_bound]; lia).
  assert (Hmid' : mid = max -> min = max).
  { subst mid. intros E. pose proof (Z.mul_div_le (min + max) 2). pose proof (Z.mod_pos_bound (min+max) 2).
    pose proof (Z.div_mod (min + max) 2). lia. }
  destruct (Z_lt_le_dec mid p) as [Hlo|Hge].
  - (* the key at mid is smaller *)
    destruct (split3_lt mid) as (a & -> & Ha); [lia|].
    destruct (Z.gtb_spec a v); [lia|]. destruct (Z.eqb_spec a v); [lia|].
    destruct (Z.eqb_spec mid max) as [E|NE].
    + rewrite s32_small by lia. destruct (Z.ltb_spec p q); f_equal; lia.
    + rewrite u32_small by lia. apply IH; lia.
  - destruct (Z_lt_le_dec mid q) as [Hin|Hup].
    + (* mid is inside the run *)
      rewrite (split3_eq mid) by lia.
      destruct (Z.gtb_spec v v); [lia|]. rewrite Z.eqb_refl.
      rewrite binsearch_backup_split3 by lia.
      rewrite s32_small by lia. destruct (Z.ltb_spec p q); f_equal; lia.
    + (* the key at mid is larger *)
      destruct (split3_gt mid) as (a & -> & Ha); [lia|].
      destruct (Z.gtb_spec a v); [|lia].
      destruct (Z.eqb_spec mid 0) as [E|NE].
      { destruct (Z.ltb_spec p q); f_equal; lia. }
      destruct (Z.eqb_spec mid min) as [E|NE'].
      { rewrite u32_small, s32_small by lia. destruct (Z.ltb_spec p q); f_equal; lia. }
      rewrite u32_small by lia. apply IH; lia.
Qed.

Lemma binsearch_index_split3 cnt :
  0 <= cnt <= 2 ^ 31 ->
  cnt = hi \/ (cnt = hi + 1 /\ p < hi) ->
  binsearch_index v ary cnt = Some (if p <? q then p else p - 1).
Proof.
  pose proof split3_bounds as Hb.
  intros Hc Hhi. unfold binsearch_index.
  destruct (Z.eqb_spec cnt 0) as [->|Hne].
  - destruct (Z.ltb_spec p q); f_equal; lia.
  - rewrite u32_small by lia. apply binsearch_loop_split3; lia.
Qed.
End Binsearch.

Lemma sorted_split3_nat ary v (n : nat) :
  sorted_upto ary (Z.of_nat n) -> exists p q, split3 ary v p q (Z.of_nat n).
Proof.
  induction n as [|n IH]; intros Hs.
  - exists 0, 0. unfold split3. split; [lia|]. split; [lia|].
    split; [|split]; intros; lia.
  - destruct IH as (p & q & Hb & Hq & Hlt & Heq & Hgt).
    { eapply sorted_upto_weaken; [|exact Hs]. lia. }
    destruct (sorted_upto_rd ary _ (Z.of_nat n) Hs) as [a Ha]; [lia|].
    assert (Hmono : forall j b, 0 <= j < Z.of_nat n -> rd ary j = Some b -> b <= a).
    { intros j b Hj Hb'. eapply (sorted_upto_le ary _ j (Z.of_nat n)); eauto; lia. }
    destruct (Z.lt_trichotomy a v) as [Hav|[Hav|Hav]].
    + (* everything so far is smaller *)
      exists (Z.of_nat (S n)), (Z.of_nat (S n)).
      split; [lia|]. split; [lia|]. split; [|split]; [|intros; lia..].
      intros j Hj. destruct (Z.eq_dec j (Z.of_nat n)) as [->|Hne]; [eauto|].
      destruct (sorted_upto_rd ary _ j Hs) as [b Hb']; [lia|].
      exists b. split; [done|]. specialize (Hmono j b ltac:(lia) Hb'). lia.
    + (* the run of v reaches the new cell *)
      subst a. assert (q = Z.of_nat n).
      { destruct (Z.eq_dec q (Z.of_nat n)); [done|].
        destruct (Hgt q) as (b & Hb' & Hvb); [lia|].
        specialize (Hmono q b ltac:(lia) Hb'). lia. }
      subst q. exists p, (Z.of_nat (S n)).
      split; [lia|]. split; [lia|]. split; [done|]. split; [|intros; lia].
      intros j Hj. destruct (Z.eq_dec j (Z.of_nat n)) as [->|Hne]; [done|].
      apply Heq. lia.
    + exists p, q.
      split; [lia|]. split; [lia|]. split; [done|]. split; [done|].
      intros j Hj. destruct (Z.eq_dec j (Z.of_nat n)) as [->|Hne]; [eauto|].
      apply Hgt. lia.
Qed.

Lemma sorted_split3 ary v cnt :
  0 <= cnt -> sorted_upto ary cnt -> exists p q, split3 ary v p q cnt.
Proof.
  intros Hc Hs. rewrite <- (Z2Nat.id cnt) in * by lia. by apply sorted_split3_nat.
Qed.

(** C7, as the code has it: on a key array whose first [cnt] entries are
    sorted ([cnt] up to 2^31, so that the 32-bit index arithmetic does not
    wrap), [binsearch_index] returns [-1] when every key is larger than
    the target; the first index of the run of equal keys when the target
    is present; and otherwise the last index whose key is smaller than the
    target, which for a repeated key is the last, not the first,
    occurrence of the largest key below the target. *)
Theorem binsearch_index_sorted (v : t_idx) (ary : list (option t_idx)) (cnt : Z) :
  0 <= cnt <= 2 ^ 31 ->
  sorted_upto ary cnt ->
  exists r, binsearch_index v ary cnt = Some r /\
    ((r = -1 /\ forall j, 0 <= j < cnt -> exists a, rd ary j = Some a /\ v < a)
     \/ (0 <= r < cnt /\ rd ary r = Some v /\
         forall j, 0 <= j < r -> exists a, rd ary j = Some a /\ a < v)
     \/ (0 <= r < cnt /\ (exists a, rd ary r = Some a /\ a < v) /\
         forall j, r < j < cnt -> exists a, rd ary j = Some a /\ v < a)).
Proof.
  intros Hc Hs.
  destruct (sorted_split3 ary v cnt) as (p & q & Hsp); [lia|done|].
  pose proof (split3_bounds _ _ _ _ _ Hsp) as Hb.
  eexists. split; [apply (binsearch_index_split3 _ _ _ _ _ Hsp); lia|].
  destruct (Z.ltb_spec p q).
  - right; left. repeat split; try lia.
    + apply (split3_eq _ _ _ _ _ Hsp). lia.
    + intros j Hj. apply (split3_lt _ _ _ _ _ Hsp). lia.
  - assert (p = q) by lia. subst q.
    destruct (Z.eq_dec p 0) as [->|Hp].
    + left. split; [done|]. intros j Hj. apply (split3_gt _ _ _ _ _ Hsp). lia.
    + right; right. repeat split; try lia.
      * apply (split3_lt _ _ _ _ _ Hsp). lia.
      * intros j Hj. apply (split3_gt _ _ _ _ _ Hsp). lia.
Qed.

Lemma binsearch_index_sorted_witness :
  exists r, binsearch_index 5 [Some 1; Some 3; Some 5; Some 5; Some 8] 5 = Some r /\
    ((r = -1 /\ forall j, 0 <= j < 5 ->
        exists a, rd [Some 1; Some 3; Some 5; Some 5; Some 8] j = Some a /\ 5 < a)
     \/ (0 <= r < 5 /\ rd [Some 1; Some 3; Some 5; Some 5; Some 8] r = Some 5 /\
         forall j, 0 <= j < r ->
           exists a, rd [Some 1; Some 3; Some 5; Some 5; Some 8] j = Some a /\ a < 5)
     \/ (0 <= r < 5 /\
         (exists a, rd [Some 1; Some 3; Some 5; Some 5; Some 8] r = Some a /\ a < 5) /\
         forall j, r < j < 5 ->
           exists a, rd [Some 1; Some 3; Some 5; Some 5; Some 8] j = Some a /\ 5 < a)).
Proof.
  apply (binsearch_index_sorted 5 [Some 1; Some 3; Some 5; Some 5; Some 8] 5).
  - lia.
  - intros i j Hij Hj.
    assert (Hi : i = 0 \/ i = 1 \/ i = 2 \/ i = 3 \/ i = 4) by lia.
    assert (Hj' : j = 0 \/ j = 1 \/ j = 2 \/ j = 3 \/ j = 4) by lia.
    destruct Hi as [->|[->|[->|[->| ->]]]], Hj' as [->|[->|[->|[->| ->]]]];
      try lia; (do 2 eexists; split; [reflexivity|split; [reflexivity|lia]]).
Defined.

(** C7 as the claim words it fails: with the keys 1, 1 and the target 5
    the largest key not above the target is 1 and first occurs at index 0,
    but the search returns index 1. *)
Lemma binsearch_index_not_first_occurrence :
  binsearch_index 5 [Some 1; Some 1] 2 = Some 1 /\
  first_of_largest_le 5 [1; 1] = 0.
Proof. split; reflexivity. Qed.

(** ** Running the primitive operations *)

Lemma bind_Ret {A B} (m : M A) (k : A -> M B) t a t' :
  m t = Ret a t' -> bind m k t = k a t'.
Proof. intros H. unfold bind. by rewrite H. Qed.

Lemma bind_Throw {A B} (m : M A) (k : A -> M B) t t' :
  m t = Throw t' -> bind m k t = Throw t'.
Proof. intros H. unfold bind. by rewrite H. Qed.

Lemma load_page_Ret t p pg :
  page_at t p = Some pg -> load_page p t = Ret pg t.
Proof. intros H. unfold load_page, bind, get. by rewrite H. Qed.

Lemma load_idx_Ret t p i pg k :
  page_at t p = Some pg -> rd (keys pg) i = Some k ->
  load_idx (node_to_idx p i) t = Ret k t.
Proof.
  intros Hp Hk. unfold load_idx. simpl.
  rewrite (bind_Ret _ _ _ _ _ (load_page_Ret _ _ _ Hp)). by rewrite Hk.
Qed.

Lemma load_node_root t : load_node root_ptr t = Ret (tree_root t) t.
Proof. done. Qed.

Lemma load_node_subnode t p i pg ns n :
  page_at t p = Some pg -> body pg = Subnodes ns -> rd ns i = Some n ->
  load_node (node_to_subnode p i) t = Ret n t.
Proof.
  intros Hp Hb Hn. simpl.
  rewrite (bind_Ret _ _ _ _ _ (load_page_Ret _ _ _ Hp)).
  unfold subnodes_of. rewrite Hb. simpl. unfold bind, ret. simpl. by rewrite Hn.
Qed.

Lemma search_page_Ret t idx p cnt pg r :
  page_at t p = Some pg -> binsearch_index idx (keys pg) cnt = Some r ->
  search_page idx p cnt t = Ret r t.
Proof.
  intros Hp Hr. unfold search_page.
  destruct (Z.eqb_spec cnt 0) as [->|Hne].
  - unfold binsearch_index in Hr. simpl in Hr. by inversion Hr.
  - rewrite (bind_Ret _ _ _ _ _ (load_page_Ret _ _ _ Hp)). by rewrite Hr.
Qed.

Lemma store_page_Ret t a pg :
  (a < length (store t))%nat ->
  store_page (Some a) pg t = Ret tt (set_store t (<[a := pg]> (store t))).
Proof.
  intros H. unfold store_page, bind, get. destruct (decide (a < length (store t))%nat); [done|lia].
Qed.

Lemma store_idx_Ret t a pg i k :
  store t !! a = Some pg -> 0 <= i < Z.of_nat (length (keys pg)) ->
  store_idx (node_to_idx (Some a) i) k t
  = Ret tt (set_store t (<[a := mk_page (<[Z.to_nat i := Some k]> (keys pg)) (body pg)]> (store t))).
Proof.
  intros Hp Hi. unfold store_idx. simpl.
  rewrite (bind_Ret _ _ _ _ _ (load_page_Ret t (Some a) pg Hp)).
  rewrite wr_Some by done. simpl. unfold bind at 1. simpl.
  apply store_page_Ret. by eapply lookup_lt_Some.
Qed.

Lemma move_idx_Ret t a pg i :
  store t !! a = Some pg -> 0 <= i -> i + 2 <= Z.of_nat (length (keys pg)) ->
  move_idx (Some a) i t
  = Ret tt (set_store t (<[a := mk_page (shift1 (keys pg) (Z.to_nat i)) (body pg)]> (store t))).
Proof.
  intros Hp H0 H1. unfold move_idx.
  rewrite (bind_Ret _ _ _ _ _ (load_page_Ret t (Some a) pg Hp)).
  rewrite memmove_one by done. simpl. unfold bind at 1. simpl.
  apply store_page_Ret. by eapply lookup_lt_Some.
Qed.

Lemma move_value_Ret t a pg vs i :
  store t !! a = Some pg -> body pg = Values vs ->
  0 <= i -> i + 2 <= Z.of_nat (length vs) ->
  move_value (Some a) i t
  = Ret tt (set_store t (<[a := mk_page (keys pg) (Values (shift1 vs (Z.to_nat i)))]> (store t))).
Proof.
  intros Hp Hb H0 H1. unfold move_value.
  rewrite (bind_Ret _ _ _ _ _ (load_page_Ret t (Some a) pg Hp)).
  unfold values_of. rewrite Hb. simpl. unfold bind at 1. simpl.
  rewrite memmove_one by done. simpl. unfold bind at 1. simpl.
  apply store_page_Ret. by eapply lookup_lt_Some.
Qed.

Lemma store_node_root t x : store_node root_ptr x t = Ret tt (set_root t x).
Proof. done. Qed.

Lemma alloc_leaf_page_Ret t r :
  room (mm_leaves t) = S r ->
  alloc_leaf_page t
  = Ret (Some (length (store t)))
        (set_mm_leaves t (mk_alloc r)
           (store t ++ [mk_page fresh_cells (Values fresh_cells)])).
Proof. intros H. unfold alloc_leaf_page, bind, get. by rewrite H. Qed.

Lemma alloc_leaf_page_Throw t :
  room (mm_leaves t) = 0%nat -> alloc_leaf_page t = Throw t.
Proof. intros H. unfold alloc_leaf_page, bind, get. by rewrite H. Qed.

Lemma alloc_node_page_Ret t r :
  room (mm_nodes t) = S r ->
  alloc_node_page t
  = Ret (Some (length (store t)))
        (set_mm_nodes t (mk_alloc r)
           (store t ++ [mk_page fresh_cells (Subnodes fresh_cells)])).
Proof. intros H. unfold alloc_node_page, bind, get. by rewrite H. Qed.

Lemma alloc_page_Ret (is_leaf : bool) t r :
  room (arena_for is_leaf t) = S r ->
  exists t2,
    (if is_leaf then alloc_leaf_page else alloc_node_page) t
    = Ret (Some (length (store t))) t2 /\
    tree_root t2 = tree_root t /\
    store t2 = store t ++ [fresh_page is_leaf].
Proof.
  intros H. destruct is_leaf; simpl in H.
  - eexists. split; [by apply alloc_leaf_page_Ret|]. done.
  - eexists. split; [by apply alloc_node_page_Ret|]. done.
Qed.

Lemma load_node_inv n t x t' :
  load_node n t = Ret x t' ->
  t' = t /\
  match n with
  | root_ptr => tree_root t = x
  | subnode_ptr p i =>
      exists pg ns, page_at t p = Some pg /\ body pg = Subnodes ns /\
                    rd ns i = Some x
  end.
Proof.
  destruct n as [|p i]; simpl.
  - unfold bind, get, ret. intros [= <- <-]. done.
  - unfold load_page, bind, get.
    destruct (page_at t p) as [pg|] eqn:Hp; simpl; [|done].
    unfold subnodes_of. destruct (body pg) as [|ns] eqn:Hb; simpl; [done|].
    destruct (rd ns i) as [y|] eqn:Hy; simpl; [|done].
    unfold ret. intros [= <- <-]. split; [done|]. eauto.
Qed.

(** A descriptor read in one state is read in any state with the same
    root and at least the same pages. *)
Lemma load_node_stable n t x t2 :
  load_node n t = Ret x t ->
  tree_root t2 = tree_root t ->
  (forall b pgb, store t !! b = Some pgb -> store t2 !! b = Some pgb) ->
  load_node n t2 = Ret x t2.
Proof.
  intros [_ H]%load_node_inv Hroot Hpages. destruct n as [|[b|] i].
  - simpl. unfold bind, get, ret. by rewrite Hroot, H.
  - destruct H as (pgb & ns & Hp & Hb & Hx). simpl in Hp.
    eapply load_node_subnode; [|done|done]. simpl. by apply Hpages.
  - by destruct H as (pgb & ns & Hp & _).
Qed.

Lemma store_node_frame n x t x0 :
  load_node n t = Ret x0 t ->
  exists t1,
    store_node n x t = Ret tt t1 /\
    load_node n t1 = Ret x t1 /\
    mm_nodes t1 = mm_nodes t /\ mm_leaves t1 = mm_leaves t /\
    length (store t1) = length (store t) /\
    (forall a, (forall i, n <> subnode_ptr (Some a) i) ->
               store t1 !! a = store t !! a).
Proof.
  intros [_ H]%load_node_inv. destruct n as [|[b|] i].
  - exists (set_root t x). repeat split; done.
  - destruct H as (pgb & ns & Hp & Hb & Hx). simpl in Hp.
    pose proof (lookup_lt_Some _ _ _ Hp) as Hlen.
    assert (Hi : 0 <= i < Z.of_nat (length ns)).
    { unfold rd in Hx. destruct (Z.ltb_spec i 0); [done|].
      destruct (ns !! Z.to_nat i) eqn:E; [|done].
      apply lookup_lt_Some in E. lia. }
    exists (set_store t (<[b := mk_page (keys pgb)
                                  (Subnodes (<[Z.to_nat i := Some x]> ns))]> (store t))).
    split.
    { simpl. erewrite bind_Ret; [|by apply (load_page_Ret t (Some b) pgb)].
      unfold subnodes_of. rewrite Hb. simpl lift. unfold bind at 1, ret at 1.
      rewrite wr_Some by done. simpl lift. unfold bind at 1, ret at 1.
      by apply store_page_Ret. }
    split.
    { eapply load_node_subnode; simpl.
      - by apply list_lookup_insert_eq.
      - done.
      - by apply rd_insert_eq. }
    split; [done|]. split; [done|]. split; [simpl; by rewrite length_insert|].
    intros a Ha. simpl. apply list_lookup_insert_ne. intros ->. by apply (Ha i).
  - by destruct H as (pgb & ns & Hp & _).
Qed.

Lemma page_tree_body_empty vsize nodes leaves :
  page_tree_body (page_tree_members vsize (mk_alloc nodes) (mk_alloc (S leaves)))
  = Ret tt (empty_tree vsize nodes leaves).
Proof. reflexivity. Qed.

Lemma page_tree_body_bad_alloc vsize nodes :
  page_tree_body (page_tree_members vsize (mk_alloc nodes) (mk_alloc 0))
  = Throw (page_tree_members vsize (mk_alloc nodes) (mk_alloc 0)).
Proof. reflexivity. Qed.

(** ** Computations that only read *)

Lemma reads_ret {A} (a : A) : reads (ret a).
Proof. intros t. done. Qed.

Lemma reads_undef {A} : reads (@undef A).
Proof. intros t. done. Qed.

Lemma reads_get : reads get.
Proof. intros t. done. Qed.

Lemma reads_lift {A} (o : option A) : reads (lift o).
Proof. destruct o; [apply reads_ret|apply reads_undef]. Qed.

Lemma reads_bind {A B} (m : M A) (k : A -> M B) :
  reads m -> (forall a, reads (k a)) -> reads (bind m k).
Proof.
  intros Hm Hk t. unfold bind. specialize (Hm t).
  destruct (m t) as [a t'| |]; [|done..]. subst t'. apply Hk.
Qed.

Lemma reads_load_page p : reads (load_page p).
Proof. apply reads_bind; [apply reads_get|]. intros t. apply reads_lift. Qed.

Lemma reads_load_idx p : reads (load_idx p).
Proof. apply reads_bind; [apply reads_load_page|]. intros pg. apply reads_lift. Qed.

Lemma reads_load_node n : reads (load_node n).
Proof.
  destruct n as [|p i]; simpl.
  - apply reads_bind; [apply reads_get|]. intros t. apply reads_ret.
  - apply reads_bind; [apply reads_load_page|]. intros pg.
    apply reads_bind; [apply reads_lift|]. intros ns. apply reads_lift.
Qed.

Lemma reads_search_page idx p cnt : reads (search_page idx p cnt).
Proof.
  unfold search_page. destruct (cnt =? 0); [apply reads_ret|].
  apply reads_bind; [apply reads_load_page|]. intros pg. apply reads_lift.
Qed.

Lemma reads_find_run rec fuel idx p cnt i s :
  (forall s' q c, reads (rec s' q c)) ->
  reads (find_run rec fuel idx p cnt i s).
Proof.
  intros Hrec. revert i s. induction fuel as [|fuel IH]; intros i s; cbn [find_run].
  - apply reads_undef.
  - destruct (u32 i <? cnt); [|apply reads_ret].
    apply reads_bind; [apply reads_load_idx|]. intros k.
    destruct (k =? idx); [|apply reads_ret].
    apply reads_bind; [apply reads_load_node|]. intros n.
    apply reads_bind; [apply Hrec|]. intros [[h|] s'']; cbn [fst snd].
    + apply reads_ret.
    + destruct (s'' <? 0); [apply reads_ret|apply IH].
Qed.

Lemma reads_find_rec depth idx s p cnt : reads (find_rec depth idx s p cnt).
Proof.
  revert s p cnt. induction depth as [|depth IH]; intros s p cnt; cbn [find_rec].
  - apply reads_bind; [apply reads_search_page|]. intros i.
    destruct (i <? 0); [apply reads_ret|].
    apply reads_bind; [apply reads_load_idx|]. intros k.
    destruct (k =? idx); [|apply reads_ret].
    destruct (u32 s <? u32 (cnt - i)); [|apply reads_ret].
    apply reads_bind; [apply reads_load_idx|]. intros k'.
    destruct (k' =? idx); apply reads_ret.
  - apply reads_bind; [apply reads_search_page|]. intros i.
    destruct (i <? 0); [apply reads_ret|].
    apply reads_bind; [apply reads_load_idx|]. intros k.
    destruct (k =? idx).
    + apply reads_find_run. intros s' q c. apply IH.
    + apply reads_bind; [apply reads_load_node|]. intros n. apply IH.
Qed.

Lemma reads_find idx s : reads (find idx s).
Proof.
  apply reads_bind; [apply reads_get|]. intros t.
  apply reads_bind; [apply reads_find_rec|]. intros r. apply reads_ret.
Qed.

(** C10: [find] never changes the object: whenever it returns, every
    page, the arenas, the root descriptor and the depth are what they were
    before the call, so the same call made again returns the same result;
    and it is never left by an exception. *)
Theorem find_leaves_tree_unchanged (idx : t_idx) (sub_idx : Z) (t : page_tree) :
  match find idx sub_idx t with
  | Ret r t' => t' = t /\ find idx sub_idx t' = Ret r t'
  | Throw _ => False
  | Undef => True
  end.
Proof.
  pose proof (reads_find idx sub_idx t) as H.
  destruct (find idx sub_idx t) as [r t'| |] eqn:E; [|done..].
  subst t'. done.
Qed.

(** ** Entries and the slots stored under a key *)

Lemma filter_all {A} (P : A -> Prop) `{!forall x, Decision (P x)} (l : list A) :
  Forall P l -> filter P l = l.
Proof.
  induction 1 as [|x l Hx _ IH]; [done|].
  rewrite filter_cons. destruct (decide (P x)); [by rewrite IH|done].
Qed.

Lemma filter_none {A} (P : A -> Prop) `{!forall x, Decision (P x)} (l : list A) :
  Forall (fun x => ~ P x) l -> filter P l = [].
Proof.
  induction 1 as [|x l Hx _ IH]; [done|].
  rewrite filter_cons. destruct (decide (P x)); [done|by rewrite IH].
Qed.

Lemma filter_segment {A} (P : A -> Prop) `{!forall x, Decision (P x)}
    (l : list A) (p q : nat) :
  (p <= q <= length l)%nat ->
  (forall j x, l !! j = Some x -> (p <= j < q)%nat -> P x) ->
  (forall j x, l !! j = Some x -> (j < p \/ q <= j)%nat -> ~ P x) ->
  filter P l = take (q - p) (drop p l).
Proof.
  intros Hpq Hin Hout.
  rewrite <- (take_drop p l) at 1.
  rewrite <- (take_drop (q - p) (drop p l)) at 1.
  rewrite !filter_app.
  rewrite (filter_none P (take p l)).
  2:{ apply Forall_lookup. intros j x Hj.
      apply lookup_take_Some in Hj as [Hj ?]. eapply Hout; [done|lia]. }
  rewrite (filter_none P (drop (q - p) (drop p l))).
  2:{ apply Forall_lookup. intros j x Hj.
      rewrite !lookup_drop in Hj. eapply Hout; [done|lia]. }
  rewrite (filter_all P (take (q - p) (drop p l))).
  2:{ apply Forall_lookup. intros j x Hj.
      apply lookup_take_Some in Hj as [Hj ?]. rewrite lookup_drop in Hj.
      eapply Hin; [done|lia]. }
  by rewrite app_nil_r.
Qed.

Lemma hits_app idx E1 E2 : hits idx (E1 ++ E2) = hits idx E1 ++ hits idx E2.
Proof. unfold hits. by rewrite filter_app, fmap_app. Qed.

Lemma hits_none idx E : (forall e, e ∈ E -> fst e <> idx) -> hits idx E = [].
Proof.
  intros H. unfold hits. rewrite filter_none; [done|]. by apply Forall_forall.
Qed.

Lemma elem_of_concat {A} (x : A) (Ls : list (list A)) :
  x ∈ concat Ls <-> exists L, L ∈ Ls /\ x ∈ L.
Proof.
  induction Ls as [|L Ls IH]; simpl.
  - split; [by intros ?%elem_of_nil|]. by intros (L & ?%elem_of_nil & _).
  - rewrite elem_of_app, IH. split.
    + intros [H|(L' & H1 & H2)]; [exists L|exists L']; split; try done;
        [by left|by right].
    + intros (L' & [->|H1]%elem_of_cons & H2); [by left|right; eauto].
Qed.

Lemma hits_concat_none idx Es :
  (forall E e, E ∈ Es -> e ∈ E -> fst e <> idx) -> hits idx (concat Es) = [].
Proof.
  intros H. apply hits_none. intros e (E & HE & He)%elem_of_concat.
  by eapply H.
Qed.

Lemma concat_drop_lookup {A} (Ls : list (list A)) i L :
  Ls !! i = Some L -> concat (drop i Ls) = L ++ concat (drop (S i) Ls).
Proof. intros H. by rewrite (drop_S _ _ _ H). Qed.

Lemma concat_take_drop {A} (Ls : list (list A)) i :
  concat Ls = concat (take i Ls) ++ concat (drop i Ls).
Proof. by rewrite <- concat_app, take_drop. Qed.

Lemma first_key_Some E f : first_key E = Some f -> exists e, E !! 0%nat = Some e /\ fst e = f.
Proof.
  unfold first_key. destruct E as [|e E]; [done|]. simpl. intros [= <-]. eauto.
Qed.

Lemma last_key_Some E l :
  last_key E = Some l -> exists e, E !! (length E - 1)%nat = Some e /\ fst e = l.
Proof.
  unfold last_key. rewrite last_lookup.
  replace (Nat.pred (length E)) with (length E - 1)%nat by lia.
  destruct (E !! (length E - 1)%nat) as [e|]; [|done]. simpl. intros [= <-]. eauto.
Qed.

Lemma key_sorted_lookup (E : list entry) i j e1 e2 :
  sortedb (fst <$> E) = true -> (i <= j)%nat ->
  E !! i = Some e1 -> E !! j = Some e2 -> fst e1 <= fst e2.
Proof.
  intros Hs Hij H1 H2.
  eapply (sortedb_lookup (fst <$> E) i j); [done|done|..].
  - rewrite list_lookup_fmap. exact (f_equal (fmap fst) H1).
  - rewrite list_lookup_fmap. exact (f_equal (fmap fst) H2).
Qed.

Lemma first_key_le E f e :
  sortedb (fst <$> E) = true -> first_key E = Some f -> e ∈ E -> f <= fst e.
Proof.
  intros Hs (e0 & H0 & <-)%first_key_Some (j & Hj)%list_elem_of_lookup.
  eapply (key_sorted_lookup E 0 j); eauto. lia.
Qed.

Lemma le_last_key E l e :
  sortedb (fst <$> E) = true -> last_key E = Some l -> e ∈ E -> fst e <= l.
Proof.
  intros Hs (e0 & H0 & <-)%last_key_Some (j & Hj)%list_elem_of_lookup.
  eapply (key_sorted_lookup E j (length E - 1)); eauto.
  apply lookup_lt_Some in Hj. lia.
Qed.

(** ** What the checker guarantees *)

Lemma entries_of_leaf t n E :
  entries_of t 0 n = Some E ->
  exists pg ks vs,
    page_at t (ptr n) = Some pg /\ count n <= max_entry_per_node /\
    prefix (keys pg) (count n) = Some ks /\ values_of pg = Some vs /\
    sortedb ks = true /\
    E = imap (fun i k => (k, (ptr n, Z.of_nat i))) ks.
Proof.
  cbn [entries_of]. destruct (page_at t (ptr n)) as [pg|] eqn:Hp; [|done].
  destruct (Z.leb_spec (count n) max_entry_per_node); [|done].
  destruct (prefix (keys pg) (count n)) as [ks|] eqn:Hk; [|done].
  destruct (values_of pg) as [vs|] eqn:Hv; [|done].
  destruct (sortedb ks) eqn:Hs; [|done]. intros [= <-].
  exists pg, ks, vs. done.
Qed.

Lemma entries_of_node t d n E :
  entries_of t (S d) n = Some E ->
  exists pg ks ns cs Es,
    page_at t (ptr n) = Some pg /\ count n <= max_entry_per_node /\
    prefix (keys pg) (count n) = Some ks /\ body pg = Subnodes ns /\
    prefix ns (count n) = Some cs /\
    mapM (entries_of t d) cs = Some Es /\
    fenced ks Es = true /\ chained Es = true /\
    sortedb (fst <$> concat Es) = true /\
    E = concat Es.
Proof.
  cbn [entries_of]. destruct (page_at t (ptr n)) as [pg|] eqn:Hp; [|done].
  destruct (Z.leb_spec (count n) max_entry_per_node); [|done].
  destruct (prefix (keys pg) (count n)) as [ks|] eqn:Hk; [|done].
  unfold subnodes_of. destruct (body pg) as [|ns] eqn:Hb; [done|].
  destruct (prefix ns (count n)) as [cs|] eqn:Hcs; [|done].
  destruct (mapM (entries_of t d) cs) as [Es|] eqn:HEs; [|done].
  destruct (fenced ks Es) eqn:Hf; [|done].
  destruct (chained Es) eqn:Hc; [|done].
  destruct (sortedb (fst <$> concat Es)) eqn:Hs; [|done].
  intros [= <-]. exists pg, ks, ns, cs, Es. done.
Qed.

Lemma fst_imap_entries (g : nat -> handle) (ks : list t_idx) :
  fst <$> imap (fun i k => (k, g i)) ks = ks.
Proof.
  revert g. induction ks as [|k ks IH]; intros g; [done|].
  simpl. f_equal. apply (IH (g ∘ S)).
Qed.

Lemma entries_of_sorted t d n E :
  entries_of t d n = Some E -> sortedb (fst <$> E) = true.
Proof.
  destruct d as [|d].
  - intros (pg & ks & vs & _ & _ & _ & _ & Hs & ->)%entries_of_leaf.
    by rewrite (fst_imap_entries (fun i => (ptr n, Z.of_nat i))).
  - intros (pg & ks & ns & cs & Es & _ & _ & _ & _ & _ & _ & _ & _ & Hs & ->)%entries_of_node.
    done.
Qed.

Lemma fenced_lookup ks Es :
  fenced ks Es = true ->
  length ks = length Es /\
  forall j k E, ks !! j = Some k -> Es !! j = Some E -> first_key E = Some k.
Proof.
  revert Es. induction ks as [|k ks IH]; intros [|E Es] H; simpl in H; try done.
  destruct (first_key E) as [f|] eqn:Hf; [|done].
  apply andb_true_iff in H as [Hfk H]. apply Z.eqb_eq in Hfk. subst f.
  destruct (IH Es H) as [Hlen Hrest]. split; [simpl; lia|].
  intros [|j] k' E' Hk HE; simpl in *; simplify_eq; [done|]. by eapply Hrest.
Qed.

Lemma chained_cons E1 E2 Es :
  chained (E1 :: E2 :: Es) =
  match last_key E1, first_key E1, first_key E2 with
  | Some l, Some f1, Some f2 =>
      (l <=? f2) && implb (l =? f2) (f1 =? f2) && chained (E2 :: Es)
  | _, _, _ => false
  end.
Proof. done. Qed.

Lemma chained_lookup Es j E1 E2 :
  chained Es = true -> Es !! j = Some E1 -> Es !! S j = Some E2 ->
  exists l f1 f2,
    last_key E1 = Some l /\ first_key E1 = Some f1 /\ first_key E2 = Some f2 /\
    l <= f2 /\ (l = f2 -> f1 = f2).
Proof.
  revert j. induction Es as [|E Es IH]; intros j Hc H1 H2; [done|].
  destruct Es as [|E' Es]; [simpl in H2; by rewrite lookup_nil in H2|].
  rewrite chained_cons in Hc.
  destruct (last_key E) as [l|] eqn:Hl; [|done].
  destruct (first_key E) as [f1|] eqn:Hf1; [|done].
  destruct (first_key E') as [f2|] eqn:Hf2; [|done].
  apply andb_true_iff in Hc as [Hc Hrest]. apply andb_true_iff in Hc as [Hle Himp].
  apply Z.leb_le in Hle.
  destruct j as [|j].
  - simpl in H1, H2. simplify_eq. exists l, f1, f2. repeat split; try done.
    intros ->. rewrite Z.eqb_refl in Himp. simpl in Himp. by apply Z.eqb_eq.
  - eapply (IH j); [exact Hrest|exact H1|exact H2].
Qed.

(** ** find on a well-formed tree *)

Lemma find_rec_leaf_hit t (a : option addr) pg idx p q hi c s :
  page_at t a = Some pg ->
  split3 (keys pg) idx p q hi ->
  c = hi \/ (c = hi + 1 /\ p < hi) ->
  0 <= c <= 2 ^ 31 - 1 ->
  0 <= s < q - p ->
  find_rec 0 idx s a c t = Ret (Some (a, p + s), s) t.
Proof.
  intros Hp Hs Hhi Hc Hsq. pose proof (split3_bounds _ _ _ _ _ Hs) as Hb.
  cbn [find_rec].
  erewrite bind_Ret; [|eapply search_page_Ret; [done|]; apply (binsearch_index_split3 _ _ _ _ _ Hs); lia].
  destruct (Z.ltb_spec p q); [|lia]. destruct (Z.ltb_spec p 0); [lia|].
  erewrite bind_Ret; [|eapply load_idx_Ret; [done|]; apply (split3_eq _ _ _ _ _ Hs); lia].
  rewrite Z.eqb_refl. rewrite !u32_small by lia.
  destruct (Z.ltb_spec s (c - p)); [|lia].
  rewrite s32_small by lia.
  erewrite bind_Ret; [|eapply load_idx_Ret; [done|]; apply (split3_eq _ _ _ _ _ Hs); lia].
  rewrite Z.eqb_refl. done.
Qed.

Section Leaf.
Variables (t : page_tree) (n : t_node) (pg : page) (ks : list Z).
Variables (idx p q : Z).
Hypothesis Hpage : page_at t (ptr n) = Some pg.
Hypothesis Hcap : count n <= max_entry_per_node.
Hypothesis Hks : prefix (keys pg) (count n) = Some ks.
Hypothesis Hsplit : split3 (keys pg) idx p q (count n).

Local Abbreviation E :=
  (imap (fun i k => (k, (ptr n, Z.of_nat i))) ks).

Lemma leaf_key j k :
  ks !! j = Some k -> rd (keys pg) (Z.of_nat j) = Some k /\ Z.of_nat j < count n.
Proof.
  destruct (prefix_spec _ _ _ Hks) as (Hlen & _ & Hrd).
  intros Hj. pose proof (lookup_lt_Some _ _ _ Hj).
  split; [|lia]. rewrite Hrd by lia. by rewrite Nat2Z.id.
Qed.

Lemma leaf_hits :
  hits idx E = snd <$> take (Z.to_nat (q - p)) (drop (Z.to_nat p) E).
Proof.
  destruct (prefix_spec _ _ _ Hks) as (Hlen & _ & Hrd).
  pose proof (split3_bounds _ _ _ _ _ Hsplit) as Hb.
  unfold hits. f_equal.
  replace (Z.to_nat (q - p)) with (Z.to_nat q - Z.to_nat p)%nat by lia.
  apply filter_segment.
  - rewrite length_imap. lia.
  - intros j [k h] Hj Hpq.
    apply list_lookup_imap_Some in Hj as (k' & Hk & [= -> ->]).
    apply leaf_key in Hk as [Hk _]. simpl.
    rewrite (split3_eq _ _ _ _ _ Hsplit) in Hk by lia. congruence.
  - intros j [k h] Hj Hpq.
    apply list_lookup_imap_Some in Hj as (k' & Hk & [= -> ->]).
    apply leaf_key in Hk as [Hk Hlt]. simpl.
    destruct (decide (j < Z.to_nat p)%nat).
    + destruct (split3_lt _ _ _ _ _ Hsplit (Z.of_nat j)) as (a & Ha & ?); [lia|].
      assert (a = k') by congruence. lia.
    + destruct (split3_gt _ _ _ _ _ Hsplit (Z.of_nat j)) as (a & Ha & ?); [lia|].
      assert (a = k') by congruence. lia.
Qed.

Lemma leaf_hits_length : Z.of_nat (length (hits idx E)) = q - p.
Proof.
  destruct (prefix_spec _ _ _ Hks) as (Hlen & _ & Hrd).
  pose proof (split3_bounds _ _ _ _ _ Hsplit) as Hb.
  rewrite leaf_hits, length_fmap, length_take, length_drop.
  rewrite length_imap. lia.
Qed.

Lemma leaf_hits_lookup s :
  0 <= s < q - p ->
  hits idx E !! Z.to_nat s = Some (ptr n, p + s).
Proof.
  destruct (prefix_spec _ _ _ Hks) as (Hlen & _ & Hrd).
  pose proof (split3_bounds _ _ _ _ _ Hsplit) as Hb.
  intros Hs. rewrite leaf_hits, list_lookup_fmap.
  rewrite lookup_take_lt by lia. rewrite lookup_drop.
  rewrite list_lookup_imap.
  destruct (lookup_lt_is_Some_2 ks (Z.to_nat p + Z.to_nat s)) as [k ->]; [lia|].
  simpl. do 3 f_equal. lia.
Qed.

Lemma leaf_pure_bounds :
  (forall e, e ∈ E -> fst e = idx) -> p < q -> p = 0 /\ q = count n.
Proof.
  destruct (prefix_spec _ _ _ Hks) as (Hlen & _ & Hrd).
  pose proof (split3_bounds _ _ _ _ _ Hsplit) as Hb.
  intros Hpure Hpq.
  assert (Hall : forall j, 0 <= j < count n -> rd (keys pg) j = Some idx).
  { intros j Hj. rewrite Hrd by lia.
    destruct (lookup_lt_is_Some_2 ks (Z.to_nat j)) as [k Hk]; [lia|].
    rewrite Hk. f_equal.
    apply (Hpure (k, (ptr n, Z.of_nat (Z.to_nat j)))).
    apply list_elem_of_lookup. exists (Z.to_nat j).
    rewrite list_lookup_imap, Hk. done. }
  split.
  - destruct (Z.eq_dec p 0); [done|].
    destruct (split3_lt _ _ _ _ _ Hsplit 0) as (a & Ha & ?); [lia|].
    rewrite Hall in Ha by lia. simplify_eq. lia.
  - destruct (Z.eq_dec q (count n)); [done|].
    destruct (split3_gt _ _ _ _ _ Hsplit q) as (a & Ha & ?); [lia|].
    rewrite Hall in Ha by lia. simplify_eq. lia.
Qed.

Lemma find_rec_leaf_split3 s :
  0 <= s < 2 ^ 31 ->
  exists s',
    find_rec 0 idx s (ptr n) (count n) t
    = Ret (hits idx E !! Z.to_nat s, s') t /\
    ((forall e, e ∈ E -> fst e = idx) ->
     Z.of_nat (length (hits idx E)) <= s ->
     s' = s - Z.of_nat (length (hits idx E))).
Proof.
  intros Hs.
  destruct (prefix_spec _ _ _ Hks) as (Hlen & _ & Hrd).
  pose proof (split3_bounds _ _ _ _ _ Hsplit) as Hb.
  pose proof max_entry_per_node_eq as Hmax.
  pose proof leaf_hits_length as Hhl.
  destruct (Z_lt_le_dec s (q - p)) as [Hhit|Hmiss].
  { (* the occurrence is in this leaf *)
    exists s. rewrite leaf_hits_lookup by lia. split; [|lia].
    eapply find_rec_leaf_hit; eauto; lia. }
  assert (Hnone : hits idx E !! Z.to_nat s = None).
  { apply lookup_ge_None. lia. }
  rewrite Hnone. cbn [find_rec].
  erewrite bind_Ret; [|eapply search_page_Ret; [done|];
                       apply (binsearch_index_split3 _ _ _ _ _ Hsplit); lia].
  destruct (Z.ltb_spec p q) as [Hpq|Hpq].
  - destruct (Z.ltb_spec p 0); [lia|].
    erewrite bind_Ret; [|eapply load_idx_Ret; [done|];
                         apply (split3_eq _ _ _ _ _ Hsplit); lia].
    rewrite Z.eqb_refl. rewrite !u32_small by lia.
    destruct (Z.ltb_spec s (count n - p)) as [Hin|Hout].
    + (* the run ends inside the leaf *)
      rewrite s32_small by lia.
      destruct (split3_gt _ _ _ _ _ Hsplit (p + s)) as (k & Hk & Hgt); [lia|].
      erewrite bind_Ret; [|eapply load_idx_Ret; [done|exact Hk]].
      destruct (Z.eqb_spec k idx); [lia|].
      eexists. split; [done|]. intros Hpure _.
      destruct (leaf_pure_bounds Hpure Hpq). lia.
    + (* the occurrence is behind the end of the leaf *)
      eexists. split; [done|]. intros Hpure _.
      destruct (leaf_pure_bounds Hpure Hpq). rewrite s32_small by lia. lia.
  - assert (q = p) by lia. subst q.
    destruct (Z.ltb_spec (p - 1) 0).
    + eexists. split; [done|]. lia.
    + destruct (split3_lt _ _ _ _ _ Hsplit (p - 1)) as (k & Hk & Hlt); [lia|].
      erewrite bind_Ret; [|eapply load_idx_Ret; [done|exact Hk]].
      destruct (Z.eqb_spec k idx); [lia|].
      eexists. split; [done|]. lia.
Qed.
End Leaf.

Lemma find_rec_leaf t n E idx s :
  entries_of t 0 n = Some E -> 0 <= s < 2 ^ 31 ->
  exists s',
    find_rec 0 idx s (ptr n) (count n) t = Ret (hits idx E !! Z.to_nat s, s') t /\
    ((forall e, e ∈ E -> fst e = idx) ->
     Z.of_nat (length (hits idx E)) <= s ->
     s' = s - Z.of_nat (length (hits idx E))).
Proof.
  intros (pg & ks & vs & Hp & Hcap & Hks & _ & Hsorted & ->)%entries_of_leaf Hs.
  destruct (prefix_spec _ _ _ Hks) as (Hlen & _ & _).
  destruct (sorted_split3 (keys pg) idx (count n)) as (p & q & Hsplit);
    [lia|by eapply sorted_upto_prefix|].
  by eapply find_rec_leaf_split3.
Qed.

Section Node.
Variables (t : page_tree) (d : nat) (n : t_node) (pg : page).
Variables (ks : list Z) (ns : list (option t_node)) (cs : list t_node).
Variables (Es : list (list (Z * (option nat * Z)))).
Variables (idx p q : Z).
Hypothesis Hpage : page_at t (ptr n) = Some pg.
Hypothesis Hcap : count n <= max_entry_per_node.
Hypothesis Hks : prefix (keys pg) (count n) = Some ks.
Hypothesis Hbody : body pg = Subnodes ns.
Hypothesis Hcs : prefix ns (count n) = Some cs.
Hypothesis HEs : mapM (entries_of t d) cs = Some Es.
Hypothesis Hfenced : fenced ks Es = true.
Hypothesis Hchained : chained Es = true.
Hypothesis Hsplit : split3 (keys pg) idx p q (count n).

Lemma node_child j :
  0 <= j < count n ->
  exists c E f,
    rd ns j = Some c /\ rd (keys pg) j = Some f /\
    Es !! Z.to_nat j = Some E /\ entries_of t d c = Some E /\
    first_key E = Some f /\ sortedb (fst <$> E) = true.
Proof.
  intros Hj.
  destruct (prefix_spec _ _ _ Hks) as (Hlk & _ & Hrk).
  destruct (prefix_spec _ _ _ Hcs) as (Hlc & _ & Hrc).
  destruct (fenced_lookup _ _ Hfenced) as [Hlen Hfirst].
  apply mapM_Some in HEs.
  destruct (lookup_lt_is_Some_2 cs (Z.to_nat j)) as [c Hc]; [lia|].
  destruct (lookup_lt_is_Some_2 ks (Z.to_nat j)) as [f Hf]; [lia|].
  destruct (Forall2_lookup_l _ _ _ _ _ HEs Hc) as (E & HE & Hent).
  exists c, E, f. rewrite Hrc, Hrk by lia.
  split; [done|]. split; [done|]. split; [done|]. split; [done|].
  split; [by eapply Hfirst|by eapply entries_of_sorted].
Qed.

Lemma node_count_Es : Z.of_nat (length Es) = count n.
Proof.
  destruct (prefix_spec _ _ _ Hks) as (Hlk & _ & _).
  destruct (fenced_lookup _ _ Hfenced) as [Hlen _]. lia.
Qed.

(** Every key below child [j] is at least the key of that child. *)
Lemma child_lower j E f e :
  0 <= j < count n -> Es !! Z.to_nat j = Some E ->
  rd (keys pg) j = Some f -> e ∈ E -> f <= fst e.
Proof.
  intros Hj HE Hf He.
  destruct (node_child j Hj) as (c & E' & f' & _ & Hf' & HE' & Hent & Hfirst & Hsorted).
  assert (E' = E) by congruence. assert (f' = f) by congruence. subst E' f'.
  by eapply first_key_le.
Qed.

(** ... and at most the key of the next child, which it only reaches
    when child [j] has that key from its start. *)
Lemma child_upper j E f f' e :
  0 <= j -> j + 1 < count n -> Es !! Z.to_nat j = Some E ->
  rd (keys pg) j = Some f -> rd (keys pg) (j + 1) = Some f' -> e ∈ E ->
  fst e <= f' /\ (fst e = f' -> f = f').
Proof.
  intros Hj Hj1 HE Hf Hf' He.
  destruct (node_child j ltac:(lia)) as (c & E0 & f0 & _ & Hf0 & HE0 & _ & Hfirst & Hsorted).
  destruct (node_child (j + 1) ltac:(lia)) as (c1 & E1 & f1 & _ & Hf1 & HE1 & _ & Hfirst1 & _).
  assert (E0 = E) by congruence. assert (f0 = f) by congruence.
  assert (f1 = f') by congruence. subst E0 f0 f1.
  replace (Z.to_nat (j + 1)) with (S (Z.to_nat j)) in HE1 by lia.
  destruct (chained_lookup _ _ _ _ Hchained HE HE1) as (l & g & g' & Hl & Hg & Hg' & Hle & Himp).
  assert (g = f) by congruence. assert (g' = f') by congruence. subst g g'.
  pose proof (le_last_key _ _ _ Hsorted Hl He).
  pose proof (first_key_le _ _ _ Hsorted Hfirst He). split; [lia|].
  intros Heq. apply Himp. lia.
Qed.

Lemma node_keys_sorted : sorted_upto (keys pg) (count n).
Proof.
  apply sorted_upto_adjacent.
  - by eapply prefix_defined.
  - intros j a b Hj Hj1 Ha Hb.
    destruct (node_child j ltac:(lia)) as (c & E & f & _ & Hf & HE & _ & Hfirst & _).
    assert (f = a) by congruence. subst f.
    apply first_key_Some in Hfirst as (e & He & <-).
    eapply (child_upper j E); eauto. by eapply list_elem_of_lookup_2.
Qed.

Lemma child_below j E e :
  0 <= j -> j + 1 < p \/ (j + 1 = p /\ p < q) ->
  Es !! Z.to_nat j = Some E -> e ∈ E -> fst e < idx.
Proof.
  intros Hj Hjp HE He. pose proof (split3_bounds _ _ _ _ _ Hsplit) as Hb.
  destruct (split3_lt _ _ _ _ _ Hsplit j) as (f & Hf & Hlt); [lia|].
  destruct Hjp as [Hjp|[Hjp Hpq]].
  - destruct (split3_lt _ _ _ _ _ Hsplit (j + 1)) as (f' & Hf' & Hlt'); [lia|].
    destruct (child_upper j E f f' e); try done; lia.
  - pose proof (split3_eq _ _ _ _ _ Hsplit (j + 1) ltac:(lia)) as Hf'.
    destruct (child_upper j E f idx e) as [Hle Himp]; try done; lia.
Qed.

Lemma child_above j E e :
  q <= j < count n -> Es !! Z.to_nat j = Some E -> e ∈ E -> idx < fst e.
Proof.
  intros Hj HE He. pose proof (split3_bounds _ _ _ _ _ Hsplit) as Hb.
  destruct (split3_gt _ _ _ _ _ Hsplit j) as (f & Hf & Hgt); [lia|].
  pose proof (child_lower j E f e ltac:(lia) HE Hf He). lia.
Qed.

Lemma child_pure j E e :
  p <= j -> j + 1 < q -> Es !! Z.to_nat j = Some E -> e ∈ E -> fst e = idx.
Proof.
  intros Hj Hj1 HE He. pose proof (split3_bounds _ _ _ _ _ Hsplit) as Hb.
  pose proof (split3_eq _ _ _ _ _ Hsplit j ltac:(lia)) as Hf.
  pose proof (split3_eq _ _ _ _ _ Hsplit (j + 1) ltac:(lia)) as Hf'.
  pose proof (child_lower j E idx e ltac:(lia) HE Hf He).
  destruct (child_upper j E idx idx e); try done; lia.
Qed.

(** The slots under [idx] from child [i] on. *)
Local Abbreviation rest i := (hits idx (concat (drop i Es))).

Lemma rest_step (i : nat) E :
  Es !! i = Some E -> rest i = hits idx E ++ rest (S i).
Proof. intros H. by rewrite (concat_drop_lookup _ _ _ H), hits_app. Qed.

Lemma rest_above (i : nat) : q <= Z.of_nat i -> rest i = [].
Proof.
  intros Hi. apply hits_concat_none. intros E e HE He.
  apply list_elem_of_lookup in HE as [j Hj]. rewrite lookup_drop in Hj.
  pose proof (lookup_lt_Some _ _ _ Hj) as Hlt. pose proof node_count_Es.
  assert (idx < fst e); [|lia].
  eapply (child_above (Z.of_nat (i + j))); [lia| |done].
  by rewrite Nat2Z.id.
Qed.

Lemma front_below (i : nat) :
  Z.of_nat i < p \/ (Z.of_nat i = p /\ p < q) ->
  hits idx (concat (take i Es)) = [].
Proof.
  intros Hi. apply hits_concat_none. intros E e HE He.
  apply list_elem_of_lookup in HE as [j Hj].
  apply lookup_take_Some in Hj as [Hj Hji].
  assert (fst e < idx); [|lia].
  eapply (child_below (Z.of_nat j)); [lia|lia| |done].
  by rewrite Nat2Z.id.
Qed.

Lemma hits_node_exact :
  p < q -> hits idx (concat Es) = rest (Z.to_nat p).
Proof.
  intros Hpq. pose proof (split3_bounds _ _ _ _ _ Hsplit) as Hb.
  rewrite (concat_take_drop Es (Z.to_nat p)), hits_app.
  rewrite front_below by lia. done.
Qed.

Lemma hits_node_none : p = q -> p = 0 -> hits idx (concat Es) = [].
Proof. intros Hpq Hp. apply (rest_above 0). lia. Qed.

Lemma hits_node_below E :
  p = q -> 0 < p -> Es !! Z.to_nat (p - 1) = Some E ->
  hits idx (concat Es) = hits idx E.
Proof.
  intros Hpq Hp HE. pose proof (split3_bounds _ _ _ _ _ Hsplit) as Hb.
  rewrite (concat_take_drop Es (Z.to_nat (p - 1))), hits_app.
  rewrite front_below by lia.
  rewrite (rest_step _ _ HE). rewrite rest_above by lia.
  by rewrite app_nil_r.
Qed.

(** *** The descent *)

Hypothesis IHrec : forall c E s,
  entries_of t d c = Some E -> 0 <= s < 2 ^ 31 ->
  exists s',
    find_rec d idx s (ptr c) (count c) t
    = Ret (hits idx E !! Z.to_nat s, s') t /\
    ((forall e, e ∈ E -> fst e = idx) ->
     Z.of_nat (length (hits idx E)) <= s ->
     s' = s - Z.of_nat (length (hits idx E))).

Lemma find_run_spec fuel i s :
  p <= i <= q -> (i < q -> 0 <= s < 2 ^ 31) ->
  (Z.to_nat (q - i) < fuel)%nat ->
  exists s',
    find_run (fun s q c => find_rec d idx s q c) fuel idx
             (ptr n) (count n) i s t
    = Ret (rest (Z.to_nat i) !! Z.to_nat s, s') t /\
    ((forall e, e ∈ concat Es -> fst e = idx) ->
     Z.of_nat (length (rest (Z.to_nat i))) <= s ->
     s' = s - Z.of_nat (length (rest (Z.to_nat i)))).
Proof.
  pose proof (split3_bounds _ _ _ _ _ Hsplit) as Hb.
  pose proof max_entry_per_node_eq as Hmax.
  revert i s. induction fuel as [|fuel IH]; intros i s Hi Hs Hfuel; [lia|].
  cbn [find_run]. rewrite u32_small by lia.
  destruct (Z.eq_dec i q) as [->|Hiq].
  - (* behind the run of children with this key *)
    rewrite rest_above by lia. rewrite lookup_nil. simpl length.
    exists s. split; [|lia].
    destruct (Z.ltb_spec q (count n)); [|done].
    destruct (split3_gt _ _ _ _ _ Hsplit q) as (k & Hk & Hgt); [lia|].
    erewrite bind_Ret; [|eapply load_idx_Ret; [done|exact Hk]].
    destruct (Z.eqb_spec k idx); [lia|done].
  - destruct (Z.ltb_spec i (count n)); [|lia].
    erewrite bind_Ret; [|eapply load_idx_Ret; [done|];
                         apply (split3_eq _ _ _ _ _ Hsplit); lia].
    rewrite Z.eqb_refl.
    destruct (node_child i ltac:(lia)) as (c & E & f & Hc & _ & HE & Hent & _).
    erewrite bind_Ret; [|by eapply load_node_subnode].
    destruct (IHrec c E s Hent ltac:(lia)) as (s1 & Hrun & Hpost).
    erewrite bind_Ret; [|exact Hrun]. cbn [fst snd].
    rewrite (rest_step _ _ HE).
    destruct (hits idx E !! Z.to_nat s) as [h|] eqn:Hlook.
    + (* found below child i *)
      exists s1. rewrite (lookup_app_l_Some _ _ _ _ Hlook). split; [done|].
      intros _ Hlen. apply lookup_lt_Some in Hlook.
      rewrite length_app in Hlen. lia.
    + apply lookup_ge_None in Hlook.
      rewrite lookup_app_r by done.
      destruct (decide (Forall (fun e => fst e = idx) E)) as [Hpure|Hmixed].
      * (* child i holds nothing but the key: on to the next child *)
        rewrite Forall_forall in Hpure.
        specialize (Hpost Hpure ltac:(lia)). subst s1.
        destruct (Z.ltb_spec (s - Z.of_nat (length (hits idx E))) 0); [lia|].
        rewrite s32_small by lia.
        destruct (IH (i + 1) (s - Z.of_nat (length (hits idx E))))
          as (s2 & Hrun2 & Hpost2); [lia|lia|lia|].
        replace (Z.to_nat (i + 1)) with (S (Z.to_nat i)) in * by lia.
        replace (Z.to_nat (s - Z.of_nat (length (hits idx E))))
          with (Z.to_nat s - length (hits idx E))%nat in Hrun2 by lia.
        exists s2. split; [done|]. intros Hall Hlen.
        rewrite length_app in Hlen. rewrite length_app.
        rewrite Hpost2; [lia|done|lia].
      * (* child i holds larger keys too: it is the last one of the run *)
        assert (i + 1 = q) as Hlast.
        { destruct (Z.eq_dec (i + 1) q); [done|]. exfalso. apply Hmixed.
          apply Forall_forall. intros e He.
          eapply (child_pure i); [lia|lia|done|done]. }
        assert (Hrest : rest (S (Z.to_nat i)) = []) by (apply rest_above; lia).
        rewrite Hrest, lookup_nil.
        assert (Hnotall : ~ forall e, e ∈ concat Es -> fst e = idx).
        { intros Hall. apply Hmixed. apply Forall_forall. intros e He.
          apply Hall. apply elem_of_concat. exists E. split; [|done].
          by eapply list_elem_of_lookup_2. }
        destruct (Z.ltb_spec s1 0).
        { exists s1. split; [done|]. intros Hall. by destruct Hnotall. }
        rewrite s32_small by lia.
        destruct (IH (i + 1) s1) as (s2 & Hrun2 & _); [lia|lia|lia|].
        replace (Z.to_nat (i + 1)) with (S (Z.to_nat i)) in * by lia.
        rewrite Hrest, lookup_nil in Hrun2.
        exists s2. split; [done|]. intros Hall. by destruct Hnotall.
Qed.

Lemma find_rec_node s :
  0 <= s < 2 ^ 31 ->
  exists s',
    find_rec (S d) idx s (ptr n) (count n) t
    = Ret (hits idx (concat Es) !! Z.to_nat s, s') t /\
    ((forall e, e ∈ concat Es -> fst e = idx) ->
     Z.of_nat (length (hits idx (concat Es))) <= s ->
     s' = s - Z.of_nat (length (hits idx (concat Es)))).
Proof.
  intros Hs.
  pose proof (split3_bounds _ _ _ _ _ Hsplit) as Hb.
  pose proof max_entry_per_node_eq as Hmax.
  cbn [find_rec].
  erewrite bind_Ret; [|eapply search_page_Ret; [done|];
                       apply (binsearch_index_split3 _ _ _ _ _ Hsplit); lia].
  destruct (Z.ltb_spec p q) as [Hpq|Hpq].
  - (* children with exactly this key *)
    destruct (Z.ltb_spec p 0); [lia|].
    erewrite bind_Ret; [|eapply load_idx_Ret; [done|];
                         apply (split3_eq _ _ _ _ _ Hsplit); lia].
    rewrite Z.eqb_refl. rewrite hits_node_exact by done.
    apply find_run_spec; lia.
  - assert (q = p) as Hqp by lia.
    destruct (Z.ltb_spec (p - 1) 0).
    + (* every key of the page is larger *)
      rewrite hits_node_none by lia. rewrite lookup_nil. simpl length.
      exists s. split; [done|lia].
    + (* the last child whose key is smaller *)
      destruct (split3_lt _ _ _ _ _ Hsplit (p - 1)) as (k & Hk & Hlt); [lia|].
      erewrite bind_Ret; [|eapply load_idx_Ret; [done|exact Hk]].
      destruct (Z.eqb_spec k idx); [lia|].
      destruct (node_child (p - 1) ltac:(lia))
        as (c & E & f & Hc & Hf & HE & Hent & Hfirst & _).
      assert (f = k) by congruence. subst f.
      erewrite bind_Ret; [|by eapply load_node_subnode].
      rewrite (hits_node_below E) by (done || lia).
      destruct (IHrec c E s Hent Hs) as (s' & Hrun & _).
      exists s'. split; [done|]. intros Hall _. exfalso.
      apply first_key_Some in Hfirst as (e & He & Hek).
      assert (fst e = idx); [|lia].
      apply Hall. apply elem_of_concat. exists E.
      split; by eapply list_elem_of_lookup_2.
Qed.
End Node.

Lemma find_rec_spec t idx d :
  forall n E s,
    entries_of t d n = Some E -> 0 <= s < 2 ^ 31 ->
    exists s',
      find_rec d idx s (ptr n) (count n) t
      = Ret (hits idx E !! Z.to_nat s, s') t /\
      ((forall e, e ∈ E -> fst e = idx) ->
       Z.of_nat (length (hits idx E)) <= s ->
       s' = s - Z.of_nat (length (hits idx E))).
Proof.
  induction d as [|d IH]; intros n E s Hent Hs.
  - by apply find_rec_leaf.
  - apply entries_of_node in Hent
      as (pg & ks & ns & cs & Es & Hp & Hcap & Hks & Hb & Hcs & HEs & Hf & Hc & Hsorted & ->).
    destruct (prefix_spec _ _ _ Hks) as (Hlen & _ & _).
    destruct (sorted_split3 (keys pg) idx (count n)) as (p & q & Hsplit);
      [lia|by eapply node_keys_sorted|].
    by eapply (find_rec_node t d n pg ks ns cs Es idx p q).
Qed.

(** When the key at the current position of a node page is not the key
    looked for, or the count is reached, the loop over the children ends
    with not-found at once, whatever [rec] is. *)
Lemma find_run_stops rec fuel idx p cnt i s t pg k :
  page_at t p = Some pg ->
  (u32 i < cnt -> rd (keys pg) i = Some k /\ k <> idx) ->
  find_run rec (S fuel) idx p cnt i s t = Ret (None, s) t.
Proof.
  intros Hp Hk. cbn [find_run].
  destruct (Z.ltb_spec (u32 i) cnt) as [Hlt|]; [|done].
  destruct (Hk Hlt) as [Hrd Hne].
  erewrite bind_Ret; [|by eapply load_idx_Ret].
  destruct (Z.eqb_spec k idx); [done|done].
Qed.

Lemma entries_of_slots t d : forall n E,
  entries_of t d n = Some E ->
  forall k p i, (k, (p, i)) ∈ E ->
    exists pg vs, page_at t p = Some pg /\ body pg = Values vs /\
                  rd (keys pg) i = Some k.
Proof.
  induction d as [|d IH]; intros n E HE k p i Hin.
  - apply entries_of_leaf in HE as (pg & ks & vs & Hp & _ & Hks & Hvs & _ & ->).
    apply elem_of_lookup_imap in Hin as (j & x & [= -> -> ->] & Hj).
    apply prefix_spec in Hks as (Hlen & _ & Hrd).
    pose proof (lookup_lt_Some _ _ _ Hj) as Hlt.
    exists pg, vs. split; [done|]. split.
    + unfold values_of in Hvs. destruct (body pg); [congruence|done].
    + rewrite Hrd by lia. by rewrite Nat2Z.id.
  - apply entries_of_node in HE
      as (pg & ks & ns & cs & Es & _ & _ & _ & _ & _ & HEs & _ & _ & _ & ->).
    apply elem_of_concat in Hin as (L & HL & Hin).
    apply list_elem_of_lookup in HL as [j Hj].
    apply mapM_Some in HEs.
    destruct (Forall2_lookup_r _ _ _ _ _ HEs Hj) as (c & _ & Hc).
    by apply (IH c L Hc).
Qed.

(** C6: on a tree that satisfies the data-model invariants, with the
    entries [E] in storage order, each entry a key with the page [p] and
    the slot [i] of a leaf page that holds this key, and the keys of [E]
    non-decreasing, [find] returns the pointer [(p, i)] of the
    [occurrence]-th entry of [E] with the key [idx], counted from 0, and
    not-found ([None]) when [idx] has no entry or [occurrence] is not
    below the number of its entries; the tree is left as it is.
    And wherever the loop over the children of a node page stands at a key
    other than [idx], or at the end of the page, it ends with not-found
    whatever a descent from there would do: no such child is entered. *)
Theorem find_returns_occurrence (t : page_tree) (E : list entry)
    (idx : t_idx) (occurrence : Z) :
  stored t = Some E ->
  0 <= occurrence < 2 ^ 31 ->
  (forall k p i, (k, (p, i)) ∈ E ->
     exists pg vs, page_at t p = Some pg /\ body pg = Values vs /\
                   rd (keys pg) i = Some k) /\
  sortedb (fst <$> E) = true /\
  find idx occurrence t = Ret (hits idx E !! Z.to_nat occurrence) t /\
  (forall rec fuel p cnt i s pg k,
     page_at t p = Some pg ->
     (u32 i < cnt -> rd (keys pg) i = Some k /\ k <> idx) ->
     find_run rec (S fuel) idx p cnt i s t = Ret (None, s) t).
Proof.
  intros Hstored Hocc.
  unfold stored in Hstored.
  destruct (Z.leb_spec 0 (tree_depth t)); [|done].
  split; [by eapply entries_of_slots|].
  split; [by eapply entries_of_sorted|].
  split.
  - unfold find. unfold bind at 1, get.
    destruct (find_rec_spec t idx _ _ _ _ Hstored Hocc) as (s' & Hrun & _).
    erewrite bind_Ret; [|exact Hrun]. done.
  - intros rec fuel p cnt i s pg k. apply find_run_stops.
Qed.

Lemma find_returns_occurrence_witness :
  find 3 0 three_leaves = Ret (Some (Some 1%nat, 1)) three_leaves /\
  find 5 0 three_leaves = Ret (Some (Some 2%nat, 0)) three_leaves /\
  find 5 3 three_leaves = Ret (Some (Some 2%nat, 3)) three_leaves /\
  find 5 4 three_leaves = Ret (Some (Some 3%nat, 0)) three_leaves /\
  find 5 5 three_leaves = Ret (Some (Some 3%nat, 1)) three_leaves /\
  find 7 0 three_leaves = Ret (Some (Some 3%nat, 2)) three_leaves /\
  find 5 6 three_leaves = Ret None three_leaves /\
  find 4 0 three_leaves = Ret None three_leaves.
Proof.
  assert (H : stored three_leaves =
              Some [(1, (Some 1%nat, 0)); (3, (Some 1%nat, 1));
                    (5, (Some 2%nat, 0)); (5, (Some 2%nat, 1));
                    (5, (Some 2%nat, 2)); (5, (Some 2%nat, 3));
                    (5, (Some 3%nat, 0)); (5, (Some 3%nat, 1));
                    (7, (Some 3%nat, 2))]) by (vm_compute; reflexivity).
  pose proof (fun idx occ Hocc =>
    proj1 (proj2 (proj2
      (find_returns_occurrence three_leaves _ idx occ H Hocc)))) as F.
  split; [apply (F 3 0); lia|].
  split; [apply (F 5 0); lia|].
  split; [apply (F 5 3); lia|].
  split; [apply (F 5 4); lia|].
  split; [apply (F 5 5); lia|].
  split; [apply (F 7 0); lia|].
  split; [apply (F 5 6); lia|].
  apply (F 4 0); lia.
Defined.

(** ** insert into a root leaf *)

Lemma insert_pos_Ret t idx a pg cnt p q :
  page_at t (Some a) = Some pg ->
  split3 (keys pg) idx p q cnt -> 0 <= cnt <= 2 ^ 31 - 1 ->
  insert_pos idx (Some a) cnt t = Ret p t.
Proof.
  intros Hp Hs Hc. pose proof (split3_bounds _ _ _ _ _ Hs) as Hb.
  unfold insert_pos.
  erewrite bind_Ret; [|eapply search_page_Ret; [done|]; apply (binsearch_index_split3 _ _ _ _ _ Hs); lia].
  destruct (Z.ltb_spec p q) as [Hpq|Hpq].
  - (* the key is there: in front of its run *)
    destruct (Z.ltb_spec p 0); [lia|]. rewrite u32_small by lia.
    destruct (Z.ltb_spec p cnt); [|lia].
    erewrite bind_Ret; [|eapply load_idx_Ret; [done|]; apply (split3_eq _ _ _ _ _ Hs); lia].
    destruct (Z.ltb_spec idx idx); [lia|done].
  - assert (q = p) by lia. subst q.
    destruct (Z.ltb_spec (p - 1) 0).
    + (* nothing smaller: position 0 *)
      assert (p = 0) by lia. subst p. rewrite u32_small by lia.
      destruct (Z.ltb_spec 0 cnt); [|done].
      destruct (split3_gt _ _ _ _ _ Hs 0) as (k & Hk & Hlt); [lia|].
      erewrite bind_Ret; [|eapply load_idx_Ret; [done|]; exact Hk].
      destruct (Z.ltb_spec k idx); [lia|done].
    + (* behind the last smaller key *)
      rewrite u32_small by lia. destruct (Z.ltb_spec (p - 1) cnt); [|lia].
      destruct (split3_lt _ _ _ _ _ Hs (p - 1)) as (k & Hk & Hlt); [lia|].
      erewrite bind_Ret; [|eapply load_idx_Ret; [done|]; exact Hk].
      destruct (Z.ltb_spec k idx); [|lia].
      rewrite s32_small by lia. unfold ret. f_equal. lia.
Qed.

Lemma insert_rec_leaf_root t a pg vs c idx p q sib :
  tree_root t = mk_node (Some a) c ->
  store t !! a = Some pg ->
  body pg = Values vs ->
  Z.of_nat (length (keys pg)) = max_entry_per_node ->
  Z.of_nat (length vs) = max_entry_per_node ->
  0 <= c < max_entry_per_node ->
  split3 (keys pg) idx p q c ->
  insert_rec 0 idx root_ptr sib t
  = Ret ((Some a, p), sib)
        (set_root (set_store t (<[a := leaf_put pg vs idx p c]> (store t)))
                  (mk_node (Some a) (c + 1))).
Proof.
  intros Hr Hp Hb Hlk Hlv Hc Hs.
  pose proof (split3_bounds _ _ _ _ _ Hs) as Hbd.
  pose proof max_entry_per_node_eq as Hcap.
  cbn [insert_rec].
  rewrite (bind_Ret _ _ _ _ _ (load_node_root t)). rewrite Hr. simpl count.
  destruct (Z.geb_spec c max_entry_per_node); [lia|].
  unfold bind at 1. unfold ret at 1. cbn [fst snd].
  rewrite (bind_Ret _ _ _ _ _ (load_node_root t)). rewrite Hr. cbn [ptr count].
  erewrite bind_Ret; [|eapply insert_pos_Ret; [exact Hp|exact Hs|lia]].
  rewrite u32_small by lia. unfold leaf_put.
  destruct (Z.ltb_spec p c) as [Hpc|Hpc].
  - (* one cell is moved up *)
    erewrite bind_Ret; [|erewrite bind_Ret; [|apply (move_idx_Ret _ _ _ _ Hp); lia];
                         apply move_value_Ret with (vs := vs); simpl;
                         [by rewrite list_lookup_insert_eq by (by eapply lookup_lt_Some)|done|lia|lia]].
    erewrite bind_Ret; [|eapply store_idx_Ret; simpl;
                         [by rewrite list_lookup_insert_eq by (rewrite length_insert; by eapply lookup_lt_Some)|
                          simpl; rewrite shift1_length by lia; lia]].
    simpl. rewrite u32_small by lia. unfold bind, ret. simpl.
    rewrite !list_insert_insert_eq. done.
  - assert (p = c) by lia. subst p.
    erewrite bind_Ret; [|reflexivity].
    erewrite bind_Ret; [|eapply store_idx_Ret; [exact Hp|lia]].
    simpl. rewrite u32_small by lia. unfold bind, ret. simpl. rewrite Hb. done.
Qed.

Lemma insert_leaf_root t a pg vs c idx p q :
  tree_depth t = 0 ->
  tree_root t = mk_node (Some a) c ->
  store t !! a = Some pg ->
  body pg = Values vs ->
  Z.of_nat (length (keys pg)) = max_entry_per_node ->
  Z.of_nat (length vs) = max_entry_per_node ->
  0 <= c < max_entry_per_node ->
  split3 (keys pg) idx p q c ->
  insert idx t
  = Ret (Some a, p)
        (set_root (set_store t (<[a := leaf_put pg vs idx p c]> (store t)))
                  (mk_node (Some a) (c + 1))).
Proof.
  intros Hd Hr Hp Hb Hlk Hlv Hc Hs.
  unfold insert. unfold bind at 1, get. rewrite Hd. change (Z.to_nat 0) with 0%nat.
  erewrite bind_Ret; [|by eapply insert_rec_leaf_root].
  done.
Qed.

Lemma leaf_put_keys pg vs idx p c j :
  Z.of_nat (length (keys pg)) = max_entry_per_node ->
  0 <= p <= c -> c < max_entry_per_node ->
  rd (keys (leaf_put pg vs idx p c)) j =
    if decide (j = p) then Some idx
    else if decide (j = p + 1 /\ p < c) then rd (keys pg) p
    else rd (keys pg) j.
Proof.
  intros Hl Hp Hc. unfold leaf_put. destruct (Z.ltb_spec p c); simpl.
  - destruct (decide (j = p)) as [->|Hne].
    + rewrite rd_insert_eq; [done|]. rewrite shift1_length by lia. lia.
    + rewrite rd_insert_ne by lia. rewrite rd_shift1 by lia.
      destruct (decide (j = p + 1)), (decide (j = p + 1 /\ p < c)); try done; lia.
  - destruct (decide (j = p)) as [->|Hne].
    + rewrite rd_insert_eq; [done|lia].
    + rewrite rd_insert_ne by lia.
      destruct (decide (j = p + 1 /\ p < c)); [lia|done].
Qed.

Lemma leaf_put_split3 pg vs idx p q c :
  Z.of_nat (length (keys pg)) = max_entry_per_node ->
  0 <= c < max_entry_per_node ->
  split3 (keys pg) idx p q c ->
  exists q' hi, split3 (keys (leaf_put pg vs idx p c)) idx p q' hi /\ p < q' /\
                (c + 1 = hi \/ (c + 1 = hi + 1 /\ p < hi)).
Proof.
  intros Hl Hc Hs. pose proof (split3_bounds _ _ _ _ _ Hs) as Hb.
  assert (Hrd := fun j => leaf_put_keys pg vs idx p c j Hl ltac:(lia) ltac:(lia)).
  destruct (Z.eq_dec p c) as [Hpc|Hpc].
  - (* appended behind the last entry *)
    exists (c + 1), (c + 1). split; [|lia].
    split; [lia|]. split; [lia|]. split; [|split].
    + intros j Hj. rewrite Hrd. destruct (decide (j = p)); [lia|].
      destruct (decide (j = p + 1 /\ p < c)); [lia|]. apply (split3_lt _ _ _ _ _ Hs). lia.
    + intros j Hj. rewrite Hrd. destruct (decide (j = p)); [done|lia].
    + intros; lia.
  - destruct (Z.eq_dec p q) as [Hpq|Hpq].
    + (* the key was not there *)
      exists (p + 1), c. split; [|lia].
      split; [lia|]. split; [lia|]. split; [|split].
      * intros j Hj. rewrite Hrd. destruct (decide (j = p)); [lia|].
        destruct (decide (j = p + 1 /\ p < c)); [lia|]. apply (split3_lt _ _ _ _ _ Hs). lia.
      * intros j Hj. rewrite Hrd. destruct (decide (j = p)); [done|lia].
      * intros j Hj. rewrite Hrd. destruct (decide (j = p)); [lia|].
        destruct (decide (j = p + 1 /\ p < c)); apply (split3_gt _ _ _ _ _ Hs); lia.
    + (* in front of the run of the key *)
      exists (Z.min c (Z.max q (p + 2))), c. split; [|lia].
      split; [lia|]. split; [lia|]. split; [|split].
      * intros j Hj. rewrite Hrd. destruct (decide (j = p)); [lia|].
        destruct (decide (j = p + 1 /\ p < c)); [lia|]. apply (split3_lt _ _ _ _ _ Hs). lia.
      * intros j Hj. rewrite Hrd. destruct (decide (j = p)); [done|].
        destruct (decide (j = p + 1 /\ p < c)); apply (split3_eq _ _ _ _ _ Hs); lia.
      * intros j Hj. rewrite Hrd. destruct (decide (j = p)); [lia|].
        destruct (decide (j = p + 1 /\ p < c)); [lia|]. apply (split3_gt _ _ _ _ _ Hs); lia.
Qed.

(** C1, as the code has it: on a tree whose root is a leaf with room left
    and sorted keys, [insert] puts the key behind all smaller keys and in
    front of every key that is not smaller, so in front of the run of equal
    keys already there, and returns that slot; [find] for occurrence 0 of
    the key then returns this very pointer. *)
Theorem insert_in_front_of_run (t : page_tree) (a : addr) (pg : page)
    (vs : list (option value)) (c : Z) (idx : t_idx) :
  tree_depth t = 0 ->
  tree_root t = mk_node (Some a) c ->
  store t !! a = Some pg ->
  body pg = Values vs ->
  Z.of_nat (length (keys pg)) = max_entry_per_node ->
  Z.of_nat (length vs) = max_entry_per_node ->
  0 <= c < max_entry_per_node ->
  sorted_upto (keys pg) c ->
  exists i t',
    insert idx t = Ret (Some a, i) t' /\
    0 <= i <= c /\
    (forall j, 0 <= j < i -> exists k, rd (keys pg) j = Some k /\ k < idx) /\
    (forall j, i <= j < c -> exists k, rd (keys pg) j = Some k /\ idx <= k) /\
    find idx 0 t' = Ret (Some (Some a, i)) t'.
Proof.
  intros Hd Hr Hp Hb Hlk Hlv Hc Hsorted.
  destruct (sorted_split3 (keys pg) idx c) as (p & q & Hs); [lia|done|].
  pose proof (split3_bounds _ _ _ _ _ Hs) as Hbd.
  pose proof max_entry_per_node_eq as Hcap.
  exists p. eexists. split; [by eapply insert_leaf_root|].
  split; [lia|]. split; [apply (split3_lt _ _ _ _ _ Hs)|]. split.
  - intros j Hj. destruct (Z_lt_le_dec j q).
    + exists idx. split; [|lia]. apply (split3_eq _ _ _ _ _ Hs). lia.
    + destruct (split3_gt _ _ _ _ _ Hs j) as (k & ? & ?); [lia|]. exists k. split; [done|lia].
  - destruct (leaf_put_split3 pg vs idx p q c Hlk Hc Hs) as (q' & hi & Hs' & Hpq' & Hhi).
    unfold find. unfold bind at 1, get. simpl tree_depth. rewrite Hd.
    change (Z.to_nat 0) with 0%nat. simpl tree_root. cbn [ptr count].
    erewrite bind_Ret.
    2:{ eapply find_rec_leaf_hit with (p := p) (s := 0); [|exact Hs'|exact Hhi|lia|lia].
        simpl. apply list_lookup_insert_eq. by eapply lookup_lt_Some. }
    unfold ret. simpl. do 3 f_equal. lia.
Qed.

Lemma insert_in_front_of_run_witness :
  exists i t',
    insert 5 leaf_3_5 = Ret (Some 0%nat, i) t' /\
    0 <= i <= 2 /\
    (forall j, 0 <= j < i -> exists k, rd (cells [3; 5]) j = Some k /\ k < 5) /\
    (forall j, i <= j < 2 -> exists k, rd (cells [3; 5]) j = Some k /\ 5 <= k) /\
    find 5 0 t' = Ret (Some (Some 0%nat, i)) t'.
Proof.
  apply (insert_in_front_of_run leaf_3_5 0%nat
           (mk_page (cells [3; 5]) (Values (cells [val_B; val_A])))
           (cells [val_B; val_A]) 2 5).
  - reflexivity.
  - reflexivity.
  - reflexivity.
  - reflexivity.
  - vm_compute. reflexivity.
  - vm_compute. reflexivity.
  - vm_compute. split; [discriminate|reflexivity].
  - apply (sorted_upto_prefix _ _ [3; 5]); vm_compute; reflexivity.
Defined.

(** C1 as the claim words it fails on scenario 1 of the spec: after 5 (A),
    3 (B), 5 (C), occurrence 0 of key 5 is the slot of the second 5, which
    holds C, not the pointer the first insertion returned; A is found as
    occurrence 1. *)
Lemma find_returns_latest_duplicate :
  exists h0 h1 h2 f1 t,
    insert_5_3_5 (empty_tree 4 0 0) = Ret (h0, h1, h2) t /\
    find 5 0 t = Ret (Some h2) t /\
    h2 <> h0 /\
    read_value h2 t = Ret val_C t /\
    find 5 1 t = Ret (Some f1) t /\
    read_value f1 t = Ret val_A t.
Proof.
  exists (Some 0%nat, 0), (Some 0%nat, 0), (Some 0%nat, 1), (Some 0%nat, 2).
  eexists. split; [vm_compute; reflexivity|].
  split; [vm_compute; reflexivity|].
  split; [discriminate|].
  split; [vm_compute; reflexivity|].
  split; vm_compute; reflexivity.
Qed.

(** C2 at the failing input: the keys 5, 6, 7 and then 1 are inserted.
    The last insert goes to position 0 and copies one cell only: 5 lands on
    the cell of 6, 7 stays, and the fourth entry the count now covers is a
    cell that was never written.  The key 6 is gone. *)
Theorem leaf_insert_moves_one_cell :
  exists hs t pg,
    insert_all [5; 6; 7; 1] (empty_tree 4 0 0) = Ret hs t /\
    tree_root t = mk_node (Some 0%nat) 4 /\
    page_at t (Some 0%nat) = Some pg /\
    take 4 (keys pg) = [Some 1; Some 5; Some 7; None] /\
    find 6 0 t = Ret None t.
Proof.
  do 3 eexists. split; [vm_compute; reflexivity|].
  split; [reflexivity|]. split; [reflexivity|].
  split; vm_compute; reflexivity.
Qed.

(** ** split_node *)

Section SplitPoint.
Variables (ks : list (option t_idx)) (cnt : Z).
Hypothesis Hcnt : 0 <= cnt <= 2 ^ 31.
Hypothesis Hdef : forall j, 0 <= j < cnt -> exists a, rd ks j = Some a.

Lemma split_forward_spec fuel s k0 kl :
  rd ks 0 = Some k0 -> rd ks (cnt - 1) = Some kl -> kl <> k0 ->
  0 <= s <= cnt - 1 -> (Z.to_nat (cnt - 1 - s) < fuel)%nat ->
  exists r, split_forward fuel ks s = Some r /\ s <= r <= cnt - 1 /\
            rd ks r <> Some k0 /\
            forall j, s <= j < r -> rd ks j = Some k0.
Proof.
  intros H0 Hl Hne. revert s.
  induction fuel as [|fuel IH]; intros s Hs Hf; [lia|].
  simpl. destruct (Hdef s) as [a Ha]; [lia|]. rewrite Ha, H0.
  destruct (Z.eqb_spec a k0) as [->|Hak].
  - assert (s <> cnt - 1) by (intros ->; congruence).
    rewrite u32_small by lia.
    destruct (IH (s + 1)) as (r & Hr & Hsr & Hrk & Hrun); [lia|lia|].
    exists r. split; [done|]. split; [lia|]. split; [done|].
    intros j Hj. destruct (Z.eq_dec j s) as [->|]; [done|]. apply Hrun. lia.
  - exists s. split; [done|]. split; [lia|]. split; [congruence|]. intros; lia.
Qed.

Lemma split_backward_spec fuel s :
  0 <= s < cnt -> (Z.to_nat s < fuel)%nat ->
  exists r, split_backward fuel ks s = Some r /\ 0 <= r <= s /\
            (forall j, r <= j <= s -> rd ks j = rd ks s) /\
            (r = 0 \/ rd ks (r - 1) <> rd ks r).
Proof.
  revert s. induction fuel as [|fuel IH]; intros s Hs Hf; [lia|].
  simpl. destruct (Z.gtb_spec s 0) as [Hpos|Hz].
  - destruct (Hdef s) as [a Ha]; [lia|]. destruct (Hdef (s - 1)) as [b Hb]; [lia|].
    rewrite Ha, Hb. destruct (Z.eqb_spec a b) as [->|Hab].
    + rewrite u32_small by lia.
      destruct (IH (s - 1)) as (r & Hr & Hrs & Hrun & Hstop); [lia|lia|].
      exists r. split; [done|]. split; [lia|]. split; [|done].
      intros j Hj. destruct (Z.eq_dec j s) as [->|]; [done|].
      rewrite Hrun by lia. congruence.
    + exists s. split; [done|]. split; [lia|]. split.
      * intros j Hj. by replace j with s by lia.
      * right. congruence.
  - exists s. split; [done|]. split; [lia|]. split.
    + intros j Hj. by replace j with s by lia.
    + left. lia.
Qed.

Lemma split_point_spec :
  2 <= cnt ->
  exists s km k0 kl,
    split_point ks cnt = Some s /\
    rd ks (cnt / 2) = Some km /\ rd ks 0 = Some k0 /\
    rd ks (cnt - 1) = Some kl /\
    1 <= s <= cnt - 1 /\
    (* a page of one key is cut in the middle *)
    (km = k0 -> kl = k0 -> s = cnt / 2) /\
    (* a run that starts the page and covers the middle is kept left *)
    (km = k0 -> kl <> k0 ->
       cnt / 2 < s /\ rd ks s <> Some k0 /\
       forall j, cnt / 2 <= j < s -> rd ks j = Some k0) /\
    (* any other run that covers the middle is kept right *)
    (km <> k0 ->
       s <= cnt / 2 /\ rd ks (s - 1) <> Some km /\
       forall j, s <= j <= cnt / 2 -> rd ks j = Some km).
Proof.
  intros H2.
  assert (Hmid : 1 <= cnt / 2 <= cnt - 1).
  { split; [apply Z.div_le_lower_bound; lia|].
    assert (cnt / 2 < cnt) by (apply Z.div_lt_upper_bound; lia). lia. }
  destruct (Hdef (cnt / 2)) as [km Hkm]; [lia|].
  destruct (Hdef 0) as [k0 Hk0]; [lia|].
  destruct (Hdef (cnt - 1)) as [kl Hkl]; [lia|].
  unfold split_point. rewrite Hkm, Hk0. rewrite u32_small by lia. rewrite Hkl.
  destruct (Z.eqb_spec km k0) as [->|Hm0].
  - destruct (Z.eqb_spec kl k0) as [->|Hl0]; cbn [negb].
    + exists (cnt / 2), k0, k0, k0. repeat split; try done; try lia.
    + destruct (split_forward_spec (S (Z.to_nat cnt)) (cnt / 2) k0 kl)
        as (r & Hr & Hbr & Hrk & Hrun); [done|done|done|lia|lia|].
      assert (r <> cnt / 2) by (intros ->; congruence).
      exists r, k0, k0, kl. rewrite Hr.
      split; [done|]. split; [done|]. split; [done|]. split; [done|].
      split; [lia|]. split; [done|]. split; [|done].
      intros _ _. split; [lia|]. split; [done|]. done.
  - destruct (split_backward_spec (S (Z.to_nat cnt)) (cnt / 2))
      as (r & Hr & Hbr & Hrun & Hstop); [lia|lia|].
    assert (Hrk : rd ks r = Some km) by (rewrite Hrun by lia; done).
    assert (r <> 0) by (intros ->; congruence).
    exists r, km, k0, kl. rewrite Hr.
    split; [done|]. split; [done|]. split; [done|]. split; [done|].
    split; [lia|]. split; [done|]. split; [done|].
    intros _. split; [lia|]. split.
    + destruct Hstop as [?|Hstop]; [lia|]. congruence.
    + intros j Hj. rewrite Hrun by lia. done.
Qed.
End SplitPoint.

Lemma split_node_Ret t old_node is_leaf a pg c r :
  load_node old_node t = Ret (mk_node (Some a) c) t ->
  (forall i, old_node <> subnode_ptr (Some a) i) ->
  store t !! a = Some pg ->
  page_of_kind is_leaf pg ->
  2 <= c <= max_entry_per_node ->
  (forall j, 0 <= j < c -> exists k, rd (keys pg) j = Some k) ->
  room (arena_for is_leaf t) = S r ->
  exists s t',
    split_point (keys pg) c = Some s /\
    split_node old_node is_leaf t
    = Ret (mk_node (Some (length (store t))) (c - s)) t' /\
    load_node old_node t' = Ret (mk_node (Some a) s) t' /\
    store t' !! a = Some pg.
Proof.
  intros Hold Hself Hp [Hlk Hkind] Hc Hdef Hroom.
  pose proof max_entry_per_node_eq as Hcap.
  destruct (split_point_spec (keys pg) c) as (s & km & k0 & kl & Hs & _ & _ & _ & Hbs & _);
    [lia|done|lia|].
  pose proof (lookup_lt_Some _ _ _ Hp) as Halen.
  destruct (store_node_frame old_node (mk_node (Some a) s) t _ Hold)
    as (t1 & Hstore & Hold1 & Hmn & Hml & Hlen1 & Hframe).
  destruct (alloc_page_Ret is_leaf t1 r) as (t2 & Halloc & Hroot2 & Hstore2).
  { unfold arena_for in *. destruct is_leaf; congruence. }
  assert (Hp1 : store t1 !! a = Some pg) by (rewrite Hframe; done).
  assert (Hp2 : store t2 !! a = Some pg).
  { rewrite Hstore2. rewrite lookup_app_l by lia. done. }
  assert (Hnew : store t2 !! length (store t1) = Some (fresh_page is_leaf)).
  { rewrite Hstore2. rewrite lookup_app_r by lia. by rewrite Nat.sub_diag. }
  destruct (memmove_Some (@fresh_cells Z) 0 (keys pg) 0 (c - s)) as [ks' Hks'];
    [lia|lia|lia|rewrite fresh_cells_length; lia|lia|].
  assert (Hbody : exists bd,
    (if is_leaf
     then match body (fresh_page is_leaf), body pg with
          | Values d, Values s0 => Values <$> memmove d 0 s0 s (c - s)
          | _, _ => None
          end
     else match body (fresh_page is_leaf), body pg with
          | Subnodes d, Subnodes s0 => Subnodes <$> memmove d 0 s0 s (c - s)
          | _, _ => None
          end) = Some bd).
  { destruct (body pg) as [vs|ns]; destruct Hkind as [-> Hl]; simpl.
    - destruct (memmove_Some (@fresh_cells (list Z)) 0 vs s (c - s)) as [vs' ->];
        [lia|lia|lia|rewrite fresh_cells_length; lia|lia|]. simpl. eauto.
    - destruct (memmove_Some (@fresh_cells t_node) 0 ns s (c - s)) as [ns' ->];
        [lia|lia|lia|rewrite fresh_cells_length; lia|lia|]. simpl. eauto. }
  destruct Hbody as [bd Hbd].
  exists s. eexists. split; [done|].
  unfold split_node.
  erewrite bind_Ret; [|exact Hold]. cbn [ptr count].
  erewrite bind_Ret; [|by apply (load_page_Ret t (Some a) pg)].
  rewrite Hs. unfold lift at 1. unfold bind at 1, ret at 1.
  erewrite bind_Ret; [|exact Hstore].
  erewrite bind_Ret; [|exact Halloc].
  erewrite bind_Ret; [|apply load_page_Ret; exact Hnew].
  erewrite bind_Ret; [|apply load_page_Ret; exact Hp2].
  replace (keys (fresh_page is_leaf)) with (@fresh_cells Z) by (by destruct is_leaf).
  rewrite u32_small by lia. rewrite Hks'. simpl lift. unfold bind at 1, ret at 1.
  rewrite Hbd. simpl lift. unfold bind at 1, ret at 1.
  assert (Hlt2 : (length (store t1) < length (store t2))%nat).
  { rewrite Hstore2, length_app. simpl. lia. }
  erewrite bind_Ret; [|by apply store_page_Ret].
  rewrite Hlen1. split; [reflexivity|]. split.
  - eapply (load_node_stable old_node t1); [done|simpl; congruence|].
    intros b pgb Hb. pose proof (lookup_lt_Some _ _ _ Hb). simpl.
    rewrite list_lookup_insert_ne by lia.
    rewrite Hstore2. by rewrite lookup_app_l by lia.
  - simpl. rewrite list_lookup_insert_ne by lia. done.
Qed.

(** What a split leaves: a split of any page, a leaf or a node page,
    the root or the page behind a child descriptor, leaves [s] entries in
    the old page and the other [c - s] in the new one, with at least one
    entry on each side.  The cut [s] is the middle [c / 2] when the page
    holds a single key, or when the key at the middle differs from the
    first key and from the key before it.  When a run of equal keys covers
    the middle, the cut moves behind the run if it starts the page and in
    front of it otherwise, so either page may keep fewer than half of the
    entries. *)
Theorem split_node_counts (t : page_tree) (old_node : node_ptr)
    (is_leaf : bool) (a : addr) (pg : page) (c : Z) (r : nat) :
  load_node old_node t = Ret (mk_node (Some a) c) t ->
  (forall i, old_node <> subnode_ptr (Some a) i) ->
  store t !! a = Some pg ->
  page_of_kind is_leaf pg ->
  2 <= c <= max_entry_per_node ->
  (forall j, 0 <= j < c -> exists k, rd (keys pg) j = Some k) ->
  room (arena_for is_leaf t) = S r ->
  exists s sib t' km k0 kl,
    split_node old_node is_leaf t = Ret sib t' /\
    load_node old_node t' = Ret (mk_node (Some a) s) t' /\
    count sib = c - s /\
    1 <= s <= c - 1 /\
    rd (keys pg) (c / 2) = Some km /\ rd (keys pg) 0 = Some k0 /\
    rd (keys pg) (c - 1) = Some kl /\
    (km = k0 -> kl = k0 -> s = c / 2) /\
    (km <> k0 -> rd (keys pg) (c / 2 - 1) <> Some km -> s = c / 2) /\
    (km = k0 -> kl <> k0 ->
       c / 2 < s /\ rd (keys pg) s <> Some k0 /\
       forall j, c / 2 <= j < s -> rd (keys pg) j = Some k0) /\
    (km <> k0 ->
       s <= c / 2 /\ rd (keys pg) (s - 1) <> Some km /\
       forall j, s <= j <= c / 2 -> rd (keys pg) j = Some km).
Proof.
  intros Hold Hself Hp Hkind Hc Hdef Hroom.
  pose proof max_entry_per_node_eq as Hcap.
  destruct (split_node_Ret t old_node is_leaf a pg c r)
    as (s & t' & Hs & Hsplit & Hold' & _); [done..|].
  destruct (split_point_spec (keys pg) c) as
    (s' & km & k0 & kl & Hs' & Hkm & Hk0 & Hkl & Hbs & Hone & Hfwd & Hbwd);
    [lia|done|lia|].
  assert (s' = s) by congruence. subst s'.
  exists s, (mk_node (Some (length (store t))) (c - s)), t', km, k0, kl.
  split; [done|]. split; [done|]. split; [done|]. split; [done|].
  split; [done|]. split; [done|]. split; [done|]. split; [done|].
  split; [|split; done].
  intros Hne Hprev. destruct (Hbwd Hne) as (Hle & _ & Hrun).
  destruct (Z.eq_dec s (c / 2)); [done|].
  exfalso. apply Hprev. apply Hrun. lia.
Qed.

Lemma split_node_counts_witness :
  exists s sib t' km k0 kl,
    split_node (subnode_ptr (Some 0%nat) 0) true one_full_leaf = Ret sib t' /\
    load_node (subnode_ptr (Some 0%nat) 0) t' = Ret (mk_node (Some 1%nat) s) t' /\
    count sib = 512 - s /\
    1 <= s <= 512 - 1 /\
    rd (cells (ascending 512)) (512 / 2) = Some km /\
    rd (cells (ascending 512)) 0 = Some k0 /\
    rd (cells (ascending 512)) (512 - 1) = Some kl /\
    (km = k0 -> kl = k0 -> s = 512 / 2) /\
    (km <> k0 -> rd (cells (ascending 512)) (512 / 2 - 1) <> Some km ->
       s = 512 / 2) /\
    (km = k0 -> kl <> k0 ->
       512 / 2 < s /\ rd (cells (ascending 512)) s <> Some k0 /\
       forall j, 512 / 2 <= j < s -> rd (cells (ascending 512)) j = Some k0) /\
    (km <> k0 ->
       s <= 512 / 2 /\ rd (cells (ascending 512)) (s - 1) <> Some km /\
       forall j, s <= j <= 512 / 2 -> rd (cells (ascending 512)) j = Some km).
Proof.
  apply (split_node_counts one_full_leaf (subnode_ptr (Some 0%nat) 0) true 1%nat
           (mk_page (cells (ascending 512)) (Values (cells (replicate 512 [0]))))
           512 3%nat).
  - reflexivity.
  - intros i. discriminate.
  - reflexivity.
  - split; [vm_compute; reflexivity|]. simpl. split; [reflexivity|].
    vm_compute. reflexivity.
  - vm_compute. split; discriminate.
  - apply (prefix_defined _ _ (ascending 512)). vm_compute. reflexivity.
  - reflexivity.
Defined.

(** A split that leaves less than half a page: 512 keys are inserted into
    a new tree, 1, 2, 2, 3, 3, ..., 256, 256, 257, which fills the root
    leaf; the split made by the next insert moves the cut back to the
    start of the run of 129 and leaves 255 entries, fewer than half a
    page, in the old page, which has the new page to its right.  The old
    page is the page the root descriptor still designates, and the depth
    is 1 afterwards. *)
Lemma split_leaves_less_than_half :
  exists hs t0 h t pg,
    insert_all doubled_keys (empty_tree 4 0 1) = Ret hs t0 /\
    tree_root t0 = mk_node (Some 0%nat) max_entry_per_node /\
    insert 300 t0 = Ret h t /\
    h = (Some 1%nat, 257) /\
    tree_root t = mk_node (Some 0%nat) 255 /\
    255 < max_entry_per_node / 2 /\
    tree_depth t = 1 /\
    page_at t (Some 0%nat) = Some pg /\ subnodes_of pg = None.
Proof.
  do 5 eexists. split; [vm_compute; reflexivity|].
  split; [reflexivity|]. split; [vm_compute; reflexivity|].
  split; [reflexivity|]. split; [reflexivity|]. split; [reflexivity|].
  split; [reflexivity|]. split; reflexivity.
Qed.

(** C5 at the failing input: a full leaf with the keys 1 to 512 is split.
    The cut is at 256, and the new page receives the keys 1 to 256 again
    (copied from the start of the old page) next to the values of the
    entries 257 to 512: every key of the left page is in the right page as
    well, and the keys 257 to 512 are in neither. *)
Theorem split_node_copies_first_keys :
  exists sib t old_pg new_pg,
    split_node root_ptr true (full_leaf 1) = Ret sib t /\
    tree_root t = mk_node (Some 0%nat) 256 /\
    sib = mk_node (Some 1%nat) 256 /\
    page_at t (Some 0%nat) = Some old_pg /\
    page_at t (Some 1%nat) = Some new_pg /\
    prefix (keys old_pg) 256 = Some (ascending 256) /\
    prefix (keys new_pg) 256 = Some (ascending 256).
Proof.
  do 4 eexists. split; [vm_compute; reflexivity|].
  split; [reflexivity|]. split; [reflexivity|]. split; [reflexivity|].
  split; [reflexivity|]. split; vm_compute; reflexivity.
Qed.

(** ** Allocation failure *)

(** C9, as the code has it: when the root is a full leaf and the leaf
    arena has nothing left, [insert] is left by [std::bad_alloc]; the
    pages, the arenas, the root pointer and the depth are as before the
    call, but the count of the root has already been cut down to the split
    point. *)
Theorem insert_bad_alloc_cuts_count (t : page_tree) (a : addr) (pg : page)
    (c : Z) (idx : t_idx) :
  tree_depth t = 0 ->
  tree_root t = mk_node (Some a) c ->
  store t !! a = Some pg ->
  max_entry_per_node <= c <= 2 ^ 31 ->
  (forall j, 0 <= j < c -> exists k, rd (keys pg) j = Some k) ->
  room (mm_leaves t) = 0%nat ->
  exists s,
    split_point (keys pg) c = Some s /\ 1 <= s < c /\
    insert idx t = Throw (set_root t (mk_node (Some a) s)).
Proof.
  intros Hd Hr Hp Hc Hdef Hroom.
  pose proof max_entry_per_node_eq as Hcap.
  destruct (split_point_spec (keys pg) c) as (s & km & k0 & kl & Hs & _ & _ & _ & Hbs & _);
    [lia|done|lia|].
  exists s. split; [done|]. split; [lia|].
  unfold insert. unfold bind at 1, get. rewrite Hd. change (Z.to_nat 0) with 0%nat.
  apply bind_Throw. cbn [insert_rec].
  rewrite (bind_Ret _ _ _ _ _ (load_node_root t)). rewrite Hr. cbn [count].
  destruct (Z.geb_spec c max_entry_per_node); [|lia].
  apply bind_Throw. apply bind_Throw.
  unfold split_node.
  rewrite (bind_Ret _ _ _ _ _ (load_node_root t)). rewrite Hr. cbn [ptr count].
  rewrite (bind_Ret _ _ _ _ _ (load_page_Ret t (Some a) pg Hp)).
  rewrite Hs. unfold lift at 1. unfold bind at 1, ret at 1.
  rewrite (bind_Ret _ _ _ _ _ (store_node_root t _)).
  apply bind_Throw. by apply alloc_leaf_page_Throw.
Qed.

Lemma insert_bad_alloc_cuts_count_witness :
  exists s,
    split_point (cells (ascending 512)) 512 = Some s /\ 1 <= s < 512 /\
    insert 513 (full_leaf 0)
    = Throw (set_root (full_leaf 0) (mk_node (Some 0%nat) s)).
Proof.
  apply (insert_bad_alloc_cuts_count (full_leaf 0) 0%nat
           (mk_page (cells (ascending 512)) (Values (cells (replicate 512 val_A))))
           512 513).
  - reflexivity.
  - reflexivity.
  - reflexivity.
  - vm_compute. split; discriminate.
  - apply (prefix_defined _ _ (ascending 512)). vm_compute. reflexivity.
  - reflexivity.
Defined.

(** C9 as the claim words it fails: a full root leaf and no room left in
    the leaf arena.  [insert] is left by [std::bad_alloc], but the root
    count was cut to 256 before the allocation was tried, so the tree is
    not as it was: key 300, found before the call, is not found after. *)
Lemma failed_insert_cuts_root :
  exists t1,
    insert 513 (full_leaf 0) = Throw t1 /\
    t1 <> full_leaf 0 /\
    tree_root t1 = mk_node (Some 0%nat) 256 /\
    find 300 0 (full_leaf 0) = Ret (Some (Some 0%nat, 299)) (full_leaf 0) /\
    find 300 0 t1 = Ret None t1.
Proof.
  eexists. split; [vm_compute; reflexivity|].
  split; [discriminate|]. split; [reflexivity|].
  split; vm_compute; reflexivity.
Qed.

(** ** The depth, the root and the parent of a split page *)

Lemma keeps_depth_reads {A} (m : M A) : reads m -> keeps_depth m.
Proof.
  intros H t. specialize (H t). destruct (m t); [by subst|done|done].
Qed.

Lemma keeps_depth_ret {A} (a : A) : keeps_depth (ret a).
Proof. intros t. done. Qed.

Lemma keeps_depth_bind {A B} (m : M A) (k : A -> M B) :
  keeps_depth m -> (forall a, keeps_depth (k a)) -> keeps_depth (bind m k).
Proof.
  intros Hm Hk t. unfold bind. specialize (Hm t).
  destruct (m t) as [a t'| |]; [|done..].
  specialize (Hk a t'). destruct (k a t'); congruence.
Qed.

Lemma keeps_depth_lift {A} (o : option A) : keeps_depth (lift o).
Proof. apply keeps_depth_reads, reads_lift. Qed.

Lemma keeps_depth_store_page p pg : keeps_depth (store_page p pg).
Proof.
  intros t. unfold store_page, bind, get. destruct p as [a|]; [|done].
  destruct (decide (a < length (store t))%nat); done.
Qed.

Lemma keeps_depth_store_idx p k : keeps_depth (store_idx p k).
Proof.
  apply keeps_depth_bind; [apply keeps_depth_reads, reads_load_page|]. intros pg.
  apply keeps_depth_bind; [apply keeps_depth_lift|]. intros ks.
  apply keeps_depth_store_page.
Qed.

Lemma keeps_depth_store_node n x : keeps_depth (store_node n x).
Proof.
  destruct n as [|p i]; simpl.
  - intros t. done.
  - apply keeps_depth_bind; [apply keeps_depth_reads, reads_load_page|]. intros pg.
    apply keeps_depth_bind; [apply keeps_depth_lift|]. intros ns.
    apply keeps_depth_bind; [apply keeps_depth_lift|]. intros ns'.
    apply keeps_depth_store_page.
Qed.

Lemma keeps_depth_alloc (is_leaf : bool) :
  keeps_depth (if is_leaf then alloc_leaf_page else alloc_node_page).
Proof.
  intros t. destruct is_leaf.
  - unfold alloc_leaf_page, bind, get. by destruct (room (mm_leaves t)).
  - unfold alloc_node_page, bind, get. by destruct (room (mm_nodes t)).
Qed.

Lemma keeps_depth_move_idx p i : keeps_depth (move_idx p i).
Proof.
  apply keeps_depth_bind; [apply keeps_depth_reads, reads_load_page|]. intros pg.
  apply keeps_depth_bind; [apply keeps_depth_lift|]. intros ks.
  apply keeps_depth_store_page.
Qed.

Lemma keeps_depth_move_value p i : keeps_depth (move_value p i).
Proof.
  apply keeps_depth_bind; [apply keeps_depth_reads, reads_load_page|]. intros pg.
  apply keeps_depth_bind; [apply keeps_depth_lift|]. intros vs.
  apply keeps_depth_bind; [apply keeps_depth_lift|]. intros vs'.
  apply keeps_depth_store_page.
Qed.

Lemma keeps_depth_move_subnode p i : keeps_depth (move_subnode p i).
Proof.
  apply keeps_depth_bind; [apply keeps_depth_reads, reads_load_page|]. intros pg.
  apply keeps_depth_bind; [apply keeps_depth_lift|]. intros ns.
  apply keeps_depth_bind; [apply keeps_depth_lift|]. intros ns'.
  apply keeps_depth_store_page.
Qed.

Lemma keeps_depth_insert_pos idx p cnt : keeps_depth (insert_pos idx p cnt).
Proof.
  apply keeps_depth_bind; [apply keeps_depth_reads, reads_search_page|]. intros i.
  cbv zeta. destruct (u32 _ <? cnt); [|apply keeps_depth_ret].
  apply keeps_depth_bind; [apply keeps_depth_reads, reads_load_idx|]. intros k.
  apply keeps_depth_ret.
Qed.

Lemma keeps_depth_split_node n is_leaf : keeps_depth (split_node n is_leaf).
Proof.
  apply keeps_depth_bind; [apply keeps_depth_reads, reads_load_node|]. intros old.
  apply keeps_depth_bind; [apply keeps_depth_reads, reads_load_page|]. intros pg.
  apply keeps_depth_bind; [apply keeps_depth_lift|]. intros s.
  apply keeps_depth_bind; [apply keeps_depth_store_node|]. intros _.
  apply keeps_depth_bind; [apply keeps_depth_alloc|]. intros p.
  apply keeps_depth_bind; [apply keeps_depth_reads, reads_load_page|]. intros new_pg.
  apply keeps_depth_bind; [apply keeps_depth_reads, reads_load_page|]. intros old_pg.
  apply keeps_depth_bind; [apply keeps_depth_lift|]. intros ks.
  apply keeps_depth_bind; [apply keeps_depth_lift|]. intros bd.
  apply keeps_depth_bind; [apply keeps_depth_store_page|]. intros _.
  apply keeps_depth_ret.
Qed.

Lemma keeps_depth_split_choice n is_leaf (pick : Z -> bool) sibling (full : bool) :
  keeps_depth
    (if full then
       let* sib := split_node n is_leaf in
       let* k := load_idx (node_to_idx (ptr sib) 0) in
       ret (pick k, sib)
     else ret (false, sibling)).
Proof.
  destruct full; [|apply keeps_depth_ret].
  apply keeps_depth_bind; [apply keeps_depth_split_node|]. intros sib.
  apply keeps_depth_bind; [apply keeps_depth_reads, reads_load_idx|]. intros k.
  apply keeps_depth_ret.
Qed.

Lemma keeps_depth_insert_rec depth idx curnode sibling :
  keeps_depth (insert_rec depth idx curnode sibling).
Proof.
  revert curnode sibling. induction depth as [|depth IH]; intros curnode sibling;
    cbn [insert_rec].
  - apply keeps_depth_bind; [apply keeps_depth_reads, reads_load_node|]. intros cur.
    apply keeps_depth_bind.
    { apply (keeps_depth_split_choice curnode true (fun k => idx >=? k)). }
    intros [in_sibling sib]. cbn [fst snd].
    apply keeps_depth_bind.
    { destruct in_sibling;
        [apply keeps_depth_ret|apply keeps_depth_reads, reads_load_node]. }
    intros leaf.
    apply keeps_depth_bind; [apply keeps_depth_insert_pos|]. intros i.
    apply keeps_depth_bind.
    { destruct (u32 i <? count leaf); [|apply keeps_depth_ret].
      apply keeps_depth_bind; [apply keeps_depth_move_idx|]. intros _.
      apply keeps_depth_move_value. }
    intros _.
    apply keeps_depth_bind; [apply keeps_depth_store_idx|]. intros _.
    apply keeps_depth_bind.
    { destruct in_sibling; [apply keeps_depth_ret|].
      apply keeps_depth_bind; [apply keeps_depth_store_node|]. intros _.
      apply keeps_depth_ret. }
    intros sib'. apply keeps_depth_ret.
  - apply keeps_depth_bind; [apply keeps_depth_reads, reads_load_node|]. intros cur.
    apply keeps_depth_bind; [apply keeps_depth_reads, reads_search_page|]. intros i.
    cbv zeta.
    apply keeps_depth_bind; [apply IH|]. intros r.
    apply keeps_depth_bind; [apply keeps_depth_reads, reads_load_node|]. intros sub.
    apply keeps_depth_bind; [apply keeps_depth_reads, reads_load_idx|]. intros sub_idx.
    apply keeps_depth_bind; [apply keeps_depth_reads, reads_load_idx|]. intros ki.
    apply keeps_depth_bind.
    { destruct (sub_idx <? ki); [apply keeps_depth_store_idx|apply keeps_depth_ret]. }
    intros _.
    destruct (ptr (snd r)); [|apply keeps_depth_ret].
    apply keeps_depth_bind; [apply keeps_depth_reads, reads_load_idx|]. intros newleaf_idx.
    apply keeps_depth_bind; [apply keeps_depth_reads, reads_load_node|]. intros cur'.
    apply keeps_depth_bind.
    { apply (keeps_depth_split_choice curnode false (fun k => k >=? newleaf_idx)). }
    intros [in_sibling sib]. cbn [fst snd].
    apply keeps_depth_bind.
    { destruct in_sibling;
        [apply keeps_depth_ret|apply keeps_depth_reads, reads_load_node]. }
    intros node.
    apply keeps_depth_bind; [apply keeps_depth_insert_pos|]. intros i'.
    apply keeps_depth_bind.
    { destruct (u32 i' <? count node); [|apply keeps_depth_ret].
      apply keeps_depth_bind; [apply keeps_depth_move_idx|]. intros _.
      apply keeps_depth_move_subnode. }
    intros _. apply keeps_depth_ret.
Qed.

(** X9: one call of [insert] leaves the depth as it is or adds one to it
    (modulo 2^32), the latter when the call at the root handed back a
    sibling, and the depth is untouched when the call fails. *)
Lemma insert_depth idx t :
  match insert idx t with
  | Ret _ t' =>
      tree_depth t' = tree_depth t \/ tree_depth t' = u32 (tree_depth t + 1)
  | Throw t' => tree_depth t' = tree_depth t
  | Undef => True
  end.
Proof.
  unfold insert. unfold bind at 1, get.
  pose proof (keeps_depth_insert_rec (Z.to_nat (tree_depth t)) idx root_ptr
                (mk_node None 0) t) as H.
  unfold bind at 1.
  destruct (insert_rec _ idx root_ptr _ t) as [r t1| |]; [|done..].
  destruct (ptr (snd r)).
  - unfold bind, get, put, ret. simpl. right. by rewrite H.
  - unfold bind, ret. left. done.
Qed.

(** C3 at the failing input: 513 inserts of the keys 1 to 513 into a new
    tree.  The last one splits the root leaf; the depth becomes 1, but the
    root is still the old leaf page with 256 entries, no node page was
    allocated ([mm_nodes] is untouched, both pages are leaves), and the
    new sibling, page 1, is referenced from nowhere.  A [find] for the key
    just inserted reads child descriptors out of the value area of the
    leaf and has no defined result. *)
Theorem root_split_keeps_old_root :
  exists hs t,
    insert_all (ascending 513) (empty_tree 4 1 1) = Ret hs t /\
    tree_depth t = 1 /\
    tree_root t = mk_node (Some 0%nat) 256 /\
    mm_nodes t = mk_alloc 1 /\
    length (store t) = 2%nat /\
    Forall (fun pg => subnodes_of pg = None) (store t) /\
    last hs = Some (Some 1%nat, 256) /\
    find 513 0 t = Undef.
Proof.
  do 2 eexists. split; [vm_compute; reflexivity|].
  split; [reflexivity|]. split; [reflexivity|]. split; [reflexivity|].
  split; [reflexivity|]. split; [repeat constructor|].
  split; [reflexivity|]. vm_compute. reflexivity.
Qed.

(** C4 at the failing input: the tree [one_full_leaf] and the key 600.
    The leaf splits and a sibling page (address 2) is allocated, but the
    root node page still has one entry afterwards, its second slot holds a
    copy of the first descriptor instead of the sibling, and neither the
    key just inserted nor the key 512, found before the call, is found. *)
Theorem new_sibling_not_entered :
  exists h t pg ns,
    find 512 0 one_full_leaf = Ret (Some (Some 1%nat, 511)) one_full_leaf /\
    insert 600 one_full_leaf = Ret h t /\
    h = (Some 2%nat, 256) /\
    tree_root t = mk_node (Some 0%nat) 1 /\
    page_at t (Some 0%nat) = Some pg /\
    body pg = Subnodes ns /\
    take 3 ns = [Some (mk_node (Some 1%nat) 256);
                 Some (mk_node (Some 1%nat) 256); None] /\
    find 600 0 t = Ret None t /\
    find 512 0 t = Ret None t.
Proof.
  do 4 eexists. split; [vm_compute; reflexivity|].
  split; [vm_compute; reflexivity|].
  split; [reflexivity|]. split; [reflexivity|]. split; [reflexivity|].
  split; [reflexivity|]. split; [vm_compute; reflexivity|].
  split; vm_compute; reflexivity.
Qed.

(** ** The binary search on keys in any order *)

Section BinsearchAnyOrder.
Variables (ary : list (option Z)) (v cnt : Z).
Hypothesis Hcnt : 0 <= cnt <= 2 ^ 31.
Hypothesis Hdef : forall j, 0 <= j < cnt -> exists a, rd ary j = Some a.

Lemma binsearch_backup_any fuel mid :
  0 <= mid < cnt -> rd ary mid = Some v -> (Z.to_nat mid < fuel)%nat ->
  exists r, binsearch_backup fuel v ary mid = Some r /\
            0 <= r <= mid /\ rd ary r = Some v.
Proof.
  revert mid. induction fuel as [|fuel IH]; intros mid Hmid Hv Hfuel; [lia|].
  simpl. destruct (Z.eqb_spec mid 0) as [->|Hne].
  - exists 0. split; [done|]. split; [lia|done].
  - destruct (Hdef (mid - 1)) as [a Ha]; [lia|]. rewrite Ha.
    destruct (Z.eqb_spec a v) as [->|Hav].
    + rewrite u32_small by lia.
      destruct (IH (mid - 1)) as (r & Hr & Hle & Hrv); [lia|done|lia|].
      exists r. split; [done|]. split; [lia|done].
    + exists mid. split; [done|]. split; [lia|done].
Qed.

Lemma binsearch_loop_any fuel min max :
  0 <= min <= max -> max < cnt ->
  (min = 0 \/ exists a, rd ary (min - 1) = Some a /\ a < v) ->
  (Z.to_nat (max - min) < fuel)%nat ->
  exists r, binsearch_loop fuel v ary min max = Some r /\
            -1 <= r < cnt /\
            (0 <= r -> exists a, rd ary r = Some a /\ a <= v) /\
            (r = -1 -> exists a, rd ary 0 = Some a /\ v < a).
Proof.
  revert min max.
  induction fuel as [|fuel IH]; intros min max Hmm Hmax Hlow Hf; [lia|].
  cbn [binsearch_loop]. rewrite u32_small by lia.
  set (mid := (min + max) / 2).
  assert (Hmid : min <= mid <= max)
    by (subst mid; split; [apply Z.div_le_lower_bound|apply Z.div_le_upper_bound]; lia).
  destruct (Hdef mid) as [a Ha]; [lia|]. rewrite Ha.
  destruct (Z.gtb_spec a v) as [Hgt|Hle].
  - destruct (Z.eqb_spec mid 0) as [E|NE].
    { exists (-1). split; [done|]. split; [lia|]. split; [lia|].
      intros _. exists a. rewrite <- E. done. }
    destruct (Z.eqb_spec mid min) as [E|NE'].
    { rewrite u32_small, s32_small by lia. exists (mid - 1).
      split; [done|]. split; [lia|]. split; [|lia].
      intros _. destruct Hlow as [?|(b & Hb & Hbv)]; [lia|].
      exists b. rewrite E. split; [done|lia]. }
    rewrite u32_small by lia. apply IH; [lia|lia|done|lia].
  - destruct (Z.eqb_spec a v) as [->|Hne].
    + destruct (binsearch_backup_any (S (Z.to_nat mid)) mid) as (r & Hr & Hrm & Hrv);
        [lia|done|lia|].
      rewrite Hr. rewrite s32_small by lia. exists r.
      split; [done|]. split; [lia|]. split; [|lia].
      intros _. exists v. split; [done|lia].
    + destruct (Z.eqb_spec mid max) as [E|NE].
      { rewrite s32_small by lia. exists mid.
        split; [done|]. split; [lia|]. split; [|lia].
        intros _. exists a. split; [done|lia]. }
      rewrite u32_small by lia. apply IH; [lia|lia| |lia].
      right. exists a. replace (mid + 1 - 1) with mid by lia. split; [done|lia].
Qed.
End BinsearchAnyOrder.

(** X1: whatever the order of the keys, on an array whose first [cnt]
    cells are written ([cnt] up to 2^31) [binsearch_index] finishes with
    an index from -1 to [cnt - 1]; an index from 0 on is that of a key not
    above the target, and -1 on a page that is not empty means the first
    key is above the target. *)
Theorem binsearch_index_in_range (v : t_idx) (ary : list (option t_idx))
    (cnt : Z) :
  0 <= cnt <= 2 ^ 31 ->
  (forall j, 0 <= j < cnt -> exists a, rd ary j = Some a) ->
  exists r, binsearch_index v ary cnt = Some r /\
            -1 <= r < cnt /\
            (0 <= r -> exists a, rd ary r = Some a /\ a <= v) /\
            (r = -1 -> 0 < cnt -> exists a, rd ary 0 = Some a /\ v < a).
Proof.
  intros Hc Hdef. unfold binsearch_index.
  destruct (Z.eqb_spec cnt 0) as [->|Hne].
  - exists (-1). split; [done|]. split; [lia|]. split; lia.
  - rewrite u32_small by lia.
    destruct (binsearch_loop_any ary v cnt Hc Hdef (Z.to_nat cnt) 0 (cnt - 1))
      as (r & Hr & Hb & Hle & Hgt); [lia|lia|by left|lia|].
    exists r. split; [done|]. split; [done|]. split; [done|]. auto.
Qed.

Lemma binsearch_index_in_range_witness :
  exists r, binsearch_index 4 [Some 5; Some 1; Some 9; Some 3] 4 = Some r /\
            -1 <= r < 4 /\
            (0 <= r -> exists a, rd [Some 5; Some 1; Some 9; Some 3] r = Some a /\ a <= 4) /\
            (r = -1 -> 0 < 4 ->
               exists a, rd [Some 5; Some 1; Some 9; Some 3] 0 = Some a /\ 4 < a).
Proof.
  apply (binsearch_index_in_range 4 [Some 5; Some 1; Some 9; Some 3] 4).
  - lia.
  - apply (prefix_defined _ _ [5; 1; 9; 3]). reflexivity.
Defined.


(** ** What find returns on any tree *)

Lemma reads_to_ret {A} t (a : A) (Q : A -> Prop) : Q a -> reads_to t (ret a) Q.
Proof. intros H. split; [done|exact H]. Qed.

Lemma reads_to_undef {A} t (Q : A -> Prop) : reads_to t undef Q.
Proof. exact I. Qed.

Lemma reads_to_bind {A B} t (m : M A) (k : A -> M B) (Q : A -> Prop)
    (R : B -> Prop) :
  reads_to t m Q -> (forall a, Q a -> reads_to t (k a) R) ->
  reads_to t (bind m k) R.
Proof.
  unfold reads_to, bind. intros Hm Hk.
  destruct (m t) as [a t'| |]; [|done..].
  destruct Hm as [-> Ha]. apply Hk, Ha.
Qed.

Lemma reads_to_reads {A} t (m : M A) : reads m -> reads_to t m (fun _ => True).
Proof.
  intros H. unfold reads_to. specialize (H t).
  destruct (m t); [split|..]; done.
Qed.

Lemma reads_to_load_idx t p i :
  reads_to t (load_idx (node_to_idx p i)) (fun k => key_at t (p, i) k).
Proof.
  unfold reads_to, load_idx, load_page, bind, get, lift, node_to_idx, key_at.
  cbn [fst snd]. destruct (page_at t p) as [pg|] eqn:Hpg; [|done]. cbn.
  destruct (rd (keys pg) i) as [k|] eqn:Hk; [|done]. cbn.
  split; [done|]. by exists pg.
Qed.

Lemma find_run_key_at t rec fuel idx p cnt i s :
  (forall s' q c, reads_to t (rec s' q c)
     (fun r => forall h, fst r = Some h -> key_at t h idx)) ->
  reads_to t (find_run rec fuel idx p cnt i s)
    (fun r => forall h, fst r = Some h -> key_at t h idx).
Proof.
  intros Hrec. revert i s.
  induction fuel as [|fuel IH]; intros i s; cbn [find_run].
  - apply reads_to_undef.
  - destruct (u32 i <? cnt); [|by apply reads_to_ret].
    eapply reads_to_bind; [apply reads_to_reads, reads_load_idx|].
    intros k _. destruct (k =? idx); [|by apply reads_to_ret].
    eapply reads_to_bind; [apply reads_to_reads, reads_load_node|].
    intros n _.
    eapply reads_to_bind; [apply Hrec|].
    intros [[h|] s''] Hr; cbn [fst snd] in *.
    + apply reads_to_ret. cbn [fst]. exact Hr.
    + destruct (s'' <? 0); [by apply reads_to_ret|apply IH].
Qed.

Lemma find_rec_key_at t depth idx s p cnt :
  reads_to t (find_rec depth idx s p cnt)
    (fun r => forall h, fst r = Some h -> key_at t h idx).
Proof.
  revert s p cnt.
  induction depth as [|depth IH]; intros s p cnt; cbn [find_rec].
  - eapply reads_to_bind; [apply reads_to_reads, reads_search_page|].
    intros i _. destruct (i <? 0); [by apply reads_to_ret|].
    eapply reads_to_bind; [apply reads_to_reads, reads_load_idx|].
    intros k _. destruct (k =? idx); [|by apply reads_to_ret].
    destruct (u32 s <? u32 (cnt - i)); [|by apply reads_to_ret].
    eapply reads_to_bind; [apply reads_to_load_idx|].
    intros k' Hk'. destruct (Z.eqb_spec k' idx) as [->|_];
      [|by apply reads_to_ret].
    apply reads_to_ret. cbn [fst]. intros h [= <-]. exact Hk'.
  - eapply reads_to_bind; [apply reads_to_reads, reads_search_page|].
    intros i _. destruct (i <? 0); [by apply reads_to_ret|].
    eapply reads_to_bind; [apply reads_to_reads, reads_load_idx|].
    intros k _. destruct (k =? idx).
    + apply find_run_key_at. intros s' q c. apply IH.
    + eapply reads_to_bind; [apply reads_to_reads, reads_load_node|].
      intros n _. apply IH.
Qed.

(** X2: on any object, well formed or not, a pointer [find] returns
    designates a slot of an existing page whose key is the key asked for:
    [find] never hands out the slot of another key. *)
Theorem find_returns_slot_of_key (idx : t_idx) (sub_idx : Z)
    (t t' : page_tree) (h : handle) :
  find idx sub_idx t = Ret (Some h) t' ->
  exists pg, page_at t (fst h) = Some pg /\ rd (keys pg) (snd h) = Some idx.
Proof.
  unfold find, bind, get. intros H.
  pose proof (find_rec_key_at t (Z.to_nat (tree_depth t)) idx sub_idx
                (ptr (tree_root t)) (count (tree_root t))) as Hrec.
  unfold reads_to in Hrec.
  destruct (find_rec _ idx sub_idx _ _ t) as [r t1| |]; [|done..].
  destruct Hrec as [-> Hr]. cbn in H. injection H as Hh _.
  apply Hr, Hh.
Qed.

Lemma find_returns_slot_of_key_witness :
  exists pg, page_at three_leaves (fst (Some 3%nat, 0)) = Some pg /\
             rd (keys pg) (snd (Some 3%nat, 0)) = Some 5.
Proof.
  apply (find_returns_slot_of_key 5 4 three_leaves three_leaves (Some 3%nat, 0)).
  vm_compute. reflexivity.
Defined.

Lemma find_without_entries (idx : t_idx) (sub_idx : Z) (t : page_tree) :
  count (tree_root t) = 0 -> find idx sub_idx t = Ret None t.
Proof.
  intros Hc. unfold find, bind, get. rewrite Hc.
  destruct (Z.to_nat (tree_depth t)); cbn [find_rec]; unfold bind, search_page; cbn; done.
Qed.

(** ** Construction *)

(** X3: a constructor that returns leaves a well-formed tree without
    entries: the depth is 0, the root is a leaf page of the arena with
    count 0, [stored] is the empty list, and [find] returns [NULL] for
    every key and occurrence number. *)
Theorem constructed_tree_is_empty (vsize : Z) (nodes leaves : mmap_alloc)
    (t : page_tree) (idx : t_idx) (sub_idx : Z) :
  page_tree_body (page_tree_members vsize nodes leaves) = Ret tt t ->
  tree_depth t = 0 /\ tree_root t = mk_node (Some 0%nat) 0 /\
  stored t = Some [] /\ find idx sub_idx t = Ret None t.
Proof.
  destruct leaves as [[|r]]; [done|].
  intros [= <-]. split; [done|]. split; [done|]. split; [done|].
  by apply find_without_entries.
Qed.

Lemma constructed_tree_is_empty_witness :
  tree_depth (empty_tree 4 2 3) = 0 /\
  tree_root (empty_tree 4 2 3) = mk_node (Some 0%nat) 0 /\
  stored (empty_tree 4 2 3) = Some [] /\
  find 7 1 (empty_tree 4 2 3) = Ret None (empty_tree 4 2 3).
Proof.
  apply (constructed_tree_is_empty 4 (mk_alloc 2) (mk_alloc 4)).
  reflexivity.
Defined.

(** ** Where a sorted page is cut *)

(** X4: the cut of a page with sorted keys never falls inside a run of
    equal keys: either the page holds one key throughout and is cut in the
    middle, or the key before the cut is smaller than the key at it. *)
Theorem split_point_between_runs (ks : list (option t_idx)) (cnt : Z) :
  2 <= cnt <= 2 ^ 31 -> sorted_upto ks cnt ->
  exists s, split_point ks cnt = Some s /\ 1 <= s <= cnt - 1 /\
    ((s = cnt / 2 /\
      exists k, forall j, 0 <= j < cnt -> rd ks j = Some k) \/
     (exists a b, rd ks (s - 1) = Some a /\ rd ks s = Some b /\ a < b)).
Proof.
  intros Hc Hs.
  assert (Hdef : forall j, 0 <= j < cnt -> exists a, rd ks j = Some a)
    by (intros j Hj; by apply (sorted_upto_rd ks cnt)).
  assert (Hmid : 1 <= cnt / 2 <= cnt - 1).
  { split; [apply Z.div_le_lower_bound; lia|].
    assert (cnt / 2 < cnt) by (apply Z.div_lt_upper_bound; lia). lia. }
  destruct (split_point_spec ks cnt) as
    (s & km & k0 & kl & Hsp & Hkm & Hk0 & Hkl & Hb & Hone & Hfwd & Hbwd);
    [lia|done|lia|].
  exists s. split; [done|]. split; [done|].
  destruct (Z.eq_dec km k0) as [->|Hm0].
  - destruct (Z.eq_dec kl k0) as [->|Hl0].
    + left. split; [by apply Hone|]. exists k0. intros j Hj.
      destruct (Hdef j Hj) as [a Ha]. rewrite Ha. f_equal.
      pose proof (sorted_upto_le ks cnt 0 j k0 a Hs ltac:(lia) ltac:(lia) Hk0 Ha).
      pose proof (sorted_upto_le ks cnt j (cnt - 1) a k0 Hs ltac:(lia) ltac:(lia) Ha Hkl).
      lia.
    + right. destruct (Hfwd eq_refl Hl0) as (Hlt & Hne & Hrun).
      destruct (Hdef s) as [b Hb']; [lia|].
      exists k0, b. split; [apply Hrun; lia|]. split; [done|].
      pose proof (sorted_upto_le ks cnt 0 s k0 b Hs ltac:(lia) ltac:(lia) Hk0 Hb').
      assert (b <> k0) by congruence. lia.
  - right. destruct (Hbwd Hm0) as (Hle & Hne & Hrun).
    destruct (Hdef (s - 1)) as [a Ha]; [lia|].
    exists a, km. split; [done|]. split; [apply Hrun; lia|].
    pose proof (sorted_upto_le ks cnt (s - 1) (cnt / 2) a km Hs ltac:(lia) ltac:(lia) Ha Hkm).
    assert (a <> km) by congruence. lia.
Qed.

Lemma split_point_between_runs_witness :
  exists s, split_point (cells [1; 2; 2; 2; 2; 3]) 6 = Some s /\ 1 <= s <= 6 - 1 /\
    ((s = 6 / 2 /\
      exists k, forall j, 0 <= j < 6 -> rd (cells [1; 2; 2; 2; 2; 3]) j = Some k) \/
     (exists a b, rd (cells [1; 2; 2; 2; 2; 3]) (s - 1) = Some a /\
                  rd (cells [1; 2; 2; 2; 2; 3]) s = Some b /\ a < b)).
Proof.
  apply (split_point_between_runs (cells [1; 2; 2; 2; 2; 3]) 6).
  - lia.
  - apply (sorted_upto_prefix _ _ [1; 2; 2; 2; 2; 3]); reflexivity.
Defined.

(** ** The depth after an insert into a root leaf *)

Lemma bind_inv {A B} (m : M A) (k : A -> M B) t b t' :
  bind m k t = Ret b t' -> exists a t1, m t = Ret a t1 /\ k a t1 = Ret b t'.
Proof. unfold bind. destruct (m t) as [a t1| |]; [|done..]. eauto. Qed.

Lemma lift_inv {A} (o : option A) t a t' :
  lift o t = Ret a t' -> o = Some a /\ t' = t.
Proof. destruct o; [|done]. by intros [= -> ->]. Qed.

Lemma alloc_page_inv (is_leaf : bool) t p t' :
  (if is_leaf then alloc_leaf_page else alloc_node_page) t = Ret p t' ->
  p = Some (length (store t)) /\
  store t' = store t ++ [fresh_page is_leaf] /\
  tree_root t' = tree_root t /\ tree_depth t' = tree_depth t /\
  room (arena_for is_leaf t) = S (room (arena_for is_leaf t')).
Proof.
  destruct is_leaf; unfold alloc_leaf_page, alloc_node_page, bind, get, arena_for.
  - destruct (room (mm_leaves t)) as [|r] eqn:Hr; [done|]. by intros [= <- <-].
  - destruct (room (mm_nodes t)) as [|r] eqn:Hr; [done|]. by intros [= <- <-].
Qed.

Lemma split_node_ptr old_node is_leaf t sib t' :
  split_node old_node is_leaf t = Ret sib t' -> is_Some (ptr sib).
Proof.
  unfold split_node. intros H.
  apply bind_inv in H as (old & t1 & _ & H).
  apply bind_inv in H as (pg & t2 & _ & H).
  apply bind_inv in H as (s & t3 & _ & H).
  apply bind_inv in H as (? & t4 & _ & H).
  apply bind_inv in H as (p & t5 & Hp & H).
  apply alloc_page_inv in Hp as (-> & _).
  apply bind_inv in H as (npg & t6 & _ & H).
  apply bind_inv in H as (opg & t7 & _ & H).
  apply bind_inv in H as (ks & t8 & _ & H).
  apply bind_inv in H as (bd & t9 & _ & H).
  apply bind_inv in H as (? & t10 & _ & H).
  injection H as <- _. by eexists.
Qed.

Lemma insert_rec_leaf_sibling idx curnode sibling t cur t0 h sib' t' :
  load_node curnode t = Ret cur t0 ->
  insert_rec 0 idx curnode sibling t = Ret (h, sib') t' ->
  if count cur >=? max_entry_per_node then is_Some (ptr sib')
  else ptr sib' = ptr sibling.
Proof.
  intros Hcur H. cbn [insert_rec] in H.
  apply bind_inv in H as (cur' & t1 & Hcur' & H).
  rewrite Hcur in Hcur'. injection Hcur' as <- <-.
  apply bind_inv in H as ([in_sib sib] & t2 & Hch & H). cbn [fst snd] in H.
  apply bind_inv in H as (leaf & t3 & Hleaf & H).
  apply bind_inv in H as (i & t4 & _ & H).
  apply bind_inv in H as (? & t5 & _ & H).
  apply bind_inv in H as (? & t6 & _ & H).
  apply bind_inv in H as (sib2 & t7 & Hsib2 & H).
  injection H as _ <- _.
  assert (Hptr : ptr sib2 = ptr sib).
  { destruct in_sib.
    - injection Hleaf as -> _. by injection Hsib2 as <- _.
    - apply bind_inv in Hsib2 as (? & t8 & _ & Hsib2). by injection Hsib2 as <- _. }
  rewrite Hptr. destruct (count cur >=? max_entry_per_node).
  - apply bind_inv in Hch as (sb & t8 & Hsp & Hch).
    apply bind_inv in Hch as (k & t9 & _ & Hch). injection Hch as _ <- _.
    by eapply split_node_ptr.
  - by injection Hch as _ <- _.
Qed.

(** X5: on a tree whose root is a leaf, well formed or not, an [insert]
    that returns leaves the depth at 1 when the root held
    [max_entry_per_node] entries or more (it was split), and at 0
    otherwise. *)
Theorem insert_leaf_root_depth (idx : t_idx) (t t' : page_tree) (h : handle) :
  tree_depth t = 0 -> insert idx t = Ret h t' ->
  tree_depth t' =
    if count (tree_root t) >=? max_entry_per_node then 1 else 0.
Proof.
  intros Hd H. unfold insert in H.
  apply bind_inv in H as (t0 & t1 & [= <- <-] & H).
  rewrite Hd in H. change (Z.to_nat 0) with 0%nat in H.
  apply bind_inv in H as ([h' sib'] & t2 & Hrec & H).
  pose proof (keeps_depth_insert_rec 0 idx root_ptr (mk_node None 0) t) as Hkeep.
  rewrite Hrec in Hkeep.
  pose proof (insert_rec_leaf_sibling idx root_ptr (mk_node None 0) t
                (tree_root t) t h' sib' t2 eq_refl Hrec) as Hs.
  cbn [fst snd] in H.
  apply bind_inv in H as (u & t3 & Hup & H).
  assert (t' = t3) as -> by (unfold ret in H; congruence).
  destruct (count (tree_root t) >=? max_entry_per_node).
  - destruct Hs as [p Hp]. rewrite Hp in Hup.
    assert (t3 = set_depth t2 (u32 (tree_depth t2 + 1))) as ->
      by (unfold bind, get, put in Hup; congruence).
    cbn [tree_depth set_depth]. rewrite Hkeep, Hd. reflexivity.
  - cbn [ptr] in Hs. rewrite Hs in Hup.
    assert (t3 = t2) as -> by (unfold ret in Hup; congruence).
    congruence.
Qed.

Lemma insert_leaf_root_depth_witness :
  exists h t', insert 600 (full_leaf 1) = Ret h t' /\ tree_depth t' = 1.
Proof.
  destruct (insert 600 (full_leaf 1)) as [h t'| |] eqn:E;
    [|vm_compute in E; discriminate..].
  exists h, t'. split; [reflexivity|].
  exact (insert_leaf_root_depth 600 (full_leaf 1) t' h eq_refl E).
Defined.

(** ** insert into a root leaf with room, whatever the order of its keys *)

Lemma insert_pos_any t idx a pg cnt :
  page_at t (Some a) = Some pg -> 0 <= cnt <= 2 ^ 31 - 1 ->
  (forall j, 0 <= j < cnt -> exists k, rd (keys pg) j = Some k) ->
  exists p, insert_pos idx (Some a) cnt t = Ret p t /\ 0 <= p <= cnt.
Proof.
  intros Hp Hc Hdef.
  assert (Hbs : exists r, binsearch_index idx (keys pg) cnt = Some r /\
                          -1 <= r < cnt).
  { unfold binsearch_index. destruct (Z.eqb_spec cnt 0) as [->|Hne].
    - exists (-1). split; [done|lia].
    - rewrite u32_small by lia.
      destruct (binsearch_loop_any (keys pg) idx cnt ltac:(lia) Hdef
                  (Z.to_nat cnt) 0 (cnt - 1))
        as (r & Hr & Hb & _); [lia|lia|by left|lia|].
      by exists r. }
  destruct Hbs as (r & Hr & Hrb).
  unfold insert_pos.
  erewrite bind_Ret; [|by eapply search_page_Ret].
  set (i := if r <? 0 then 0 else r).
  assert (Hi : 0 <= i <= cnt /\ i <= 2 ^ 31)
    by (subst i; destruct (Z.ltb_spec r 0); lia).
  rewrite u32_small by lia. destruct (Z.ltb_spec i cnt).
  - destruct (Hdef i ltac:(lia)) as [k Hk].
    erewrite bind_Ret; [|by eapply load_idx_Ret].
    destruct (k <? idx).
    + rewrite s32_small by lia. exists (i + 1). split; [done|lia].
    + exists i. split; [done|lia].
  - exists i. split; [done|lia].
Qed.


Lemma leaf_put_values pg vs idx p c :
  Z.of_nat (length vs) = max_entry_per_node ->
  0 <= p <= c -> c < max_entry_per_node ->
  exists vs', body (leaf_put pg vs idx p c) = Values vs' /\
    Z.of_nat (length vs') = max_entry_per_node /\
    forall j, rd vs' j = if decide (j = p + 1 /\ p < c) then rd vs p else rd vs j.
Proof.
  intros Hl Hp Hc. unfold leaf_put. destruct (Z.ltb_spec p c); simpl.
  - eexists. split; [done|]. split; [rewrite shift1_length by lia; lia|].
    intros j. rewrite rd_shift1 by lia.
    destruct (decide (j = p + 1)), (decide (j = p + 1 /\ p < c)); try done; lia.
  - exists vs. split; [done|]. split; [done|]. intros j.
    destruct (decide (j = p + 1 /\ p < c)); [lia|done].
Qed.

Lemma leaf_put_length pg vs idx p c :
  Z.of_nat (length (keys pg)) = max_entry_per_node ->
  0 <= p <= c -> c < max_entry_per_node ->
  Z.of_nat (length (keys (leaf_put pg vs idx p c))) = max_entry_per_node.
Proof.
  intros Hl Hp Hc. unfold leaf_put. destruct (Z.ltb_spec p c); simpl.
  - rewrite length_insert, shift1_length by lia. done.
  - by rewrite length_insert.
Qed.




(** ** Keys inserted at the end of a root leaf *)

Lemma prefix_intro {A} (ary : list (option A)) cnt l :
  Z.of_nat (length l) = cnt -> cnt <= Z.of_nat (length ary) ->
  (forall j, 0 <= j < cnt -> rd ary j = l !! Z.to_nat j) ->
  prefix ary cnt = Some l.
Proof.
  intros Hl Hc Hrd. unfold prefix.
  destruct (Z.leb_spec 0 cnt); [|lia].
  destruct (Z.leb_spec cnt (Z.of_nat (length ary))); [|lia]. simpl.
  apply mapM_Some. apply Forall2_same_length_lookup_2.
  - rewrite length_take. lia.
  - intros i x y Hx Hy. apply lookup_take_Some in Hx as [Hx Hi].
    specialize (Hrd (Z.of_nat i) ltac:(lia)).
    rewrite rd_nat, Nat2Z.id, Hx, Hy in Hrd by lia. done.
Qed.

Lemma sortedb_cons a l :
  sortedb (a :: l) = true <->
  (forall b, head l = Some b -> a <= b) /\ sortedb l = true.
Proof.
  destruct l as [|b l]; simpl.
  - split; [done|done].
  - rewrite andb_true_iff, Z.leb_le. split.
    + intros [? ?]. split; [|done]. by intros ? [= <-].
    + intros [H ?]. split; [by apply H|done].
Qed.

Lemma sortedb_insert l1 l2 k :
  sortedb (l1 ++ l2) = true ->
  Forall (fun x => x < k) l1 -> Forall (fun x => k <= x) l2 ->
  sortedb (l1 ++ k :: l2) = true.
Proof.
  intros Hs H1 H2. induction l1 as [|a l1 IH].
  - simpl in *. apply sortedb_cons. split; [|done].
    intros b Hb. destruct l2 as [|c l2]; [done|]. injection Hb as <-.
    by apply Forall_cons in H2 as [? _].
  - apply Forall_cons in H1 as [Ha H1]. simpl in Hs.
    apply sortedb_cons in Hs as [Hhd Hs]. simpl. apply sortedb_cons.
    split; [|by apply IH].
    intros b Hb. destruct l1 as [|c l1]; simpl in *.
    + injection Hb as <-. lia.
    + injection Hb as <-. by apply Hhd.
Qed.

Lemma increasingb_cons a l :
  increasingb (a :: l) = true <->
  (forall b, head l = Some b -> a < b) /\ increasingb l = true.
Proof.
  destruct l as [|b l]; simpl.
  - split; [done|done].
  - rewrite andb_true_iff, Z.ltb_lt. split.
    + intros [? ?]. split; [|done]. by intros ? [= <-].
    + intros [H ?]. split; [by apply H|done].
Qed.

Lemma increasingb_head a l b :
  increasingb (a :: l) = true -> b ∈ l -> a < b.
Proof.
  revert a. induction l as [|c l IH]; intros a Hs Hb; [by apply elem_of_nil in Hb|].
  apply increasingb_cons in Hs as [Hac Hs]. specialize (Hac c eq_refl).
  apply elem_of_cons in Hb as [->|Hb]; [done|]. specialize (IH c Hs Hb). lia.
Qed.

Lemma increasingb_lookup ks i j a b :
  increasingb ks = true -> (i < j)%nat ->
  ks !! i = Some a -> ks !! j = Some b -> a < b.
Proof.
  revert i j. induction ks as [|c ks IH]; intros i j Hs Hij Ha Hb; [done|].
  destruct j as [|j]; [lia|]. destruct i as [|i]; simpl in *.
  - injection Ha as <-. eapply increasingb_head; [done|].
    by eapply list_elem_of_lookup_2.
  - apply increasingb_cons in Hs as [_ Hs]. eapply (IH i j); eauto. lia.
Qed.

Lemma increasingb_sortedb ks : increasingb ks = true -> sortedb ks = true.
Proof.
  induction ks as [|a ks IH]; [done|]. intros [Hh Hs]%increasingb_cons.
  apply sortedb_cons. split; [|by apply IH]. intros b Hb. specialize (Hh b Hb). lia.
Qed.

Lemma increasingb_app_l l1 l2 :
  increasingb (l1 ++ l2) = true -> increasingb l1 = true.
Proof.
  induction l1 as [|a l1 IH]; [done|]. simpl app.
  intros [Hh Hs]%increasingb_cons. apply increasingb_cons. split; [|by apply IH].
  intros b Hb. apply Hh. destruct l1; [done|]. done.
Qed.

Lemma increasingb_below l1 k l2 :
  increasingb (l1 ++ k :: l2) = true -> Forall (fun x => x < k) l1.
Proof.
  intros Hs. apply Forall_lookup_2. intros i x Hx.
  pose proof (lookup_lt_Some _ _ _ Hx) as Hi.
  apply (increasingb_lookup (l1 ++ k :: l2) i (length l1) x k Hs Hi).
  - by rewrite lookup_app_l.
  - rewrite lookup_app_r by lia. by rewrite Nat.sub_diag.
Qed.

Lemma split3_at_end ary (l1 l2 : list t_idx) k :
  prefix ary (Z.of_nat (length (l1 ++ l2))) = Some (l1 ++ l2) ->
  Forall (fun x => x < k) l1 -> Forall (fun x => k <= x) l2 ->
  (length l2 <= 1)%nat ->
  exists q, split3 ary k (Z.of_nat (length l1)) q (Z.of_nat (length (l1 ++ l2))).
Proof.
  intros (_ & _ & Hrd)%prefix_spec H1 H2 Hl2. rewrite length_app in *.
  assert (Hlow : forall j, 0 <= j < Z.of_nat (length l1) ->
                           exists a, rd ary j = Some a /\ a < k).
  { intros j Hj. rewrite Hrd by lia.
    destruct (lookup_lt_is_Some_2 l1 (Z.to_nat j)) as [x Hx]; [lia|].
    exists x. rewrite lookup_app_l by lia. split; [done|].
    by eapply (Forall_lookup_1 _ _ _ _ H1). }
  destruct l2 as [|x [|? ?]]; [| |simpl in Hl2; lia].
  - exists (Z.of_nat (length l1)). simpl. split; [lia|]. split; [lia|].
    split; [done|]. split; intros; lia.
  - apply Forall_cons in H2 as [Hx _].
    assert (Hlast : rd ary (Z.of_nat (length l1)) = Some x).
    { rewrite Hrd by (simpl; lia). rewrite Nat2Z.id.
      rewrite lookup_app_r by lia. by rewrite Nat.sub_diag. }
    destruct (Z.eq_dec x k) as [->|Hne].
    + exists (Z.of_nat (length l1) + 1). simpl. split; [lia|]. split; [lia|].
      split; [done|]. split.
      * intros j Hj. by replace j with (Z.of_nat (length l1)) by lia.
      * intros; lia.
    + exists (Z.of_nat (length l1)). simpl. split; [lia|]. split; [lia|].
      split; [done|]. split; [intros; lia|].
      intros j Hj. replace j with (Z.of_nat (length l1)) by lia.
      exists x. split; [done|lia].
Qed.

Lemma leaf_holds_values t a ks :
  leaf_holds t a ks ->
  exists pg vs, store t !! a = Some pg /\ body pg = Values vs /\
    Z.of_nat (length (keys pg)) = max_entry_per_node /\
    Z.of_nat (length vs) = max_entry_per_node /\
    prefix (keys pg) (Z.of_nat (length ks)) = Some ks.
Proof.
  intros (_ & _ & pg & Hp & [Hlk Hkind] & Hpre). exists pg.
  destruct (body pg) as [vs|ns] eqn:Hb; [|by destruct Hkind].
  exists vs. by destruct Hkind.
Qed.

Lemma insert_leaf_near_end t a l1 l2 k :
  leaf_holds t a (l1 ++ l2) ->
  Z.of_nat (length (l1 ++ l2)) < max_entry_per_node ->
  Forall (fun x => x < k) l1 -> Forall (fun x => k <= x) l2 ->
  (length l2 <= 1)%nat ->
  exists t', insert k t = Ret (Some a, Z.of_nat (length l1)) t' /\
             leaf_holds t' a (l1 ++ k :: l2) /\
             mm_nodes t' = mm_nodes t /\ mm_leaves t' = mm_leaves t.
Proof.
  intros Hh Hc H1 H2 Hl2.
  pose proof max_entry_per_node_eq as Hcap.
  destruct (leaf_holds_values _ _ _ Hh) as (pg & vs & Hp & Hb & Hlk & Hlv & Hpre).
  destruct Hh as (Hd & Hr & _).
  destruct (split3_at_end _ _ _ k Hpre H1 H2 Hl2) as [q Hs].
  set (c := Z.of_nat (length (l1 ++ l2))) in *.
  set (p := Z.of_nat (length l1)) in *.
  assert (Hpc : 0 <= p <= c) by (subst p c; rewrite length_app; lia).
  eexists. split.
  { apply (insert_leaf_root t a pg vs c k p q Hd Hr Hp Hb Hlk Hlv); [lia|exact Hs]. }
  split; [|done].
  split; [done|]. split.
  { cbn [tree_root set_root]. do 2 f_equal. subst c.
    rewrite !length_app. simpl. lia. }
  exists (leaf_put pg vs k p c). cbn [store set_root set_store].
  split; [apply list_lookup_insert_eq; by eapply lookup_lt_Some|].
  destruct (leaf_put_values pg vs k p c Hlv Hpc Hc) as (vs' & Hb' & Hlv' & _).
  split.
  { split; [by apply leaf_put_length|]. by rewrite Hb'. }
  apply prefix_spec in Hpre as (_ & _ & Hrd).
  apply prefix_intro.
  - done.
  - rewrite leaf_put_length by done. rewrite length_app in *. simpl. subst c.
    rewrite length_app in Hc. lia.
  - intros j Hj. rewrite leaf_put_keys by done.
    assert (Hlen : Z.of_nat (length (l1 ++ k :: l2)) = c + 1)
      by (subst c; rewrite !length_app; simpl; lia).
    destruct (decide (j = p)) as [->|Hjp].
    + subst p. rewrite Nat2Z.id, lookup_app_r by lia. by rewrite Nat.sub_diag.
    + destruct (decide (j = p + 1 /\ p < c)) as [[-> Hlt]|Hn].
      * rewrite Hrd by lia. subst p. rewrite Nat2Z.id.
        replace (Z.to_nat (Z.of_nat (length l1) + 1)) with (S (length l1)) by lia.
        rewrite !lookup_app_r by lia. rewrite Nat.sub_diag.
        by replace (S (length l1) - length l1)%nat with 1%nat by lia.
      * assert (j < p).
        { subst p c. rewrite length_app in *. simpl in Hj. lia. }
        rewrite Hrd by lia. subst p. by rewrite !lookup_app_l by lia.
Qed.

Lemma leaf_holds_stored t a ks :
  leaf_holds t a ks -> sortedb ks = true ->
  Z.of_nat (length ks) <= max_entry_per_node ->
  stored t = Some (imap (fun i k => (k, (Some a, Z.of_nat i))) ks).
Proof.
  intros Hh Hs Hc.
  destruct (leaf_holds_values _ _ _ Hh) as (pg & vs & Hp & Hb & _ & _ & Hpre).
  destruct Hh as (Hd & Hr & _).
  unfold stored. rewrite Hd. change (Z.to_nat 0) with 0%nat. simpl.
  rewrite Hr. cbn [ptr count page_at]. rewrite Hp.
  destruct (Z.leb_spec (Z.of_nat (length ks)) max_entry_per_node); [|lia].
  rewrite Hpre. unfold values_of. rewrite Hb, Hs. done.
Qed.

Lemma stored_leaf_holds t pg E :
  tree_depth t = 0 -> page_at t (ptr (tree_root t)) = Some pg ->
  page_of_kind true pg -> stored t = Some E ->
  exists a, ptr (tree_root t) = Some a /\
            Z.of_nat (length E) = count (tree_root t) /\
            leaf_holds t a (fst <$> E) /\ sortedb (fst <$> E) = true.
Proof.
  intros Hd Hp Hk Hst. unfold stored in Hst. rewrite Hd in Hst.
  change (Z.to_nat 0) with 0%nat in Hst. simpl in Hst.
  apply entries_of_leaf in Hst as (pg' & ks & vs & Hp' & Hc & Hpre & _ & Hs & ->).
  assert (pg' = pg) as -> by congruence.
  destruct (tree_root t) as [[a|] c] eqn:Hr; [|done]. cbn [ptr count] in *.
  exists a. rewrite fst_imap_entries.
  pose proof (prefix_spec _ _ _ Hpre) as (Hlen & _).
  split; [done|]. split; [by rewrite length_imap|]. split; [|done].
  split; [done|]. split; [by rewrite Hr, Hlen|].
  exists pg. by rewrite Hlen.
Qed.

(** X7: on a well-formed tree whose root is a leaf with room left, a key
    that is larger than all entries but at most the last one is inserted
    in order: the tree is well formed afterwards, its keys are the old
    ones with the new key at its place, and the pointer returned is the
    slot of the new entry: the slot number [length l1] of the root page,
    which holds the new key and is the place of the entry with this
    number in storage order. *)
Theorem insert_near_end_keeps_order (t : page_tree) (pg : page)
    (E : list entry) (l1 l2 : list t_idx) (k : t_idx) :
  tree_depth t = 0 ->
  page_at t (ptr (tree_root t)) = Some pg -> page_of_kind true pg ->
  count (tree_root t) < max_entry_per_node ->
  stored t = Some E -> fst <$> E = l1 ++ l2 ->
  Forall (fun x => x < k) l1 -> Forall (fun x => k <= x) l2 ->
  (length l2 <= 1)%nat ->
  exists h t' E',
    insert k t = Ret h t' /\
    h = (ptr (tree_root t), Z.of_nat (length l1)) /\
    (exists pg', page_at t' (fst h) = Some pg' /\
                 rd (keys pg') (snd h) = Some k) /\
    stored t' = Some E' /\
    fst <$> E' = l1 ++ k :: l2 /\
    E' !! length l1 = Some (k, (ptr (tree_root t), Z.of_nat (length l1))).
Proof.
  intros Hd Hp Hk Hc Hst HE H1 H2 Hl2.
  destruct (stored_leaf_holds t pg E Hd Hp Hk Hst) as (a & Ha & Hlen & Hh & Hs).
  rewrite HE in Hh, Hs.
  assert (Hc' : Z.of_nat (length (l1 ++ l2)) < max_entry_per_node).
  { rewrite <- HE, length_fmap. lia. }
  destruct (insert_leaf_near_end t a l1 l2 k Hh Hc' H1 H2 Hl2)
    as (t' & Hins & Hh' & _).
  pose proof (leaf_holds_stored t' a _ Hh') as Hst'.
  exists (Some a, Z.of_nat (length l1)), t'. eexists.
  split; [done|]. split; [by rewrite Ha|]. split.
  { destruct (leaf_holds_values _ _ _ Hh') as (pg' & vs' & Hp' & _ & _ & _ & Hpre).
    exists pg'. cbn [fst snd]. split; [done|].
    apply prefix_spec in Hpre as (_ & _ & Hrd).
    rewrite Hrd by (rewrite length_app; simpl; lia).
    rewrite Nat2Z.id, lookup_app_r by lia. by rewrite Nat.sub_diag. }
  split.
  - apply Hst'.
    + by apply sortedb_insert.
    + rewrite length_app in *. simpl. lia.
  - split; [apply fst_imap_entries|].
    rewrite list_lookup_imap. rewrite lookup_app_r by lia.
    rewrite Nat.sub_diag. simpl. by rewrite Ha.
Qed.

Lemma insert_near_end_keeps_order_witness :
  exists h t' E',
    insert 4 leaf_3_5 = Ret h t' /\
    h = (ptr (tree_root leaf_3_5), Z.of_nat (length [3])) /\
    (exists pg', page_at t' (fst h) = Some pg' /\
                 rd (keys pg') (snd h) = Some 4) /\
    stored t' = Some E' /\
    fst <$> E' = [3] ++ 4 :: [5] /\
    E' !! length [3]
    = Some (4, (ptr (tree_root leaf_3_5), Z.of_nat (length [3]))).
Proof.
  apply (insert_near_end_keeps_order leaf_3_5
           (mk_page (cells [3; 5]) (Values (cells [val_B; val_A])))
           [(3, (Some 0%nat, 0)); (5, (Some 0%nat, 1))] [3] [5] 4).
  - reflexivity.
  - reflexivity.
  - vm_compute. split; [reflexivity|]. split; reflexivity.
  - vm_compute. reflexivity.
  - vm_compute. reflexivity.
  - reflexivity.
  - apply Forall_cons. split; [lia|apply Forall_nil_2].
  - apply Forall_cons. split; [lia|apply Forall_nil_2].
  - simpl. lia.
Defined.

(** ** Keys inserted in ascending order *)

Lemma insert_all_ascending a ks1 : forall ks0 t,
  leaf_holds t a ks0 -> increasingb (ks0 ++ ks1) = true ->
  Z.of_nat (length (ks0 ++ ks1)) <= max_entry_per_node ->
  exists t',
    insert_all ks1 t
    = Ret (imap (fun i _ => (Some a, Z.of_nat (length ks0 + i))) ks1) t' /\
    leaf_holds t' a (ks0 ++ ks1).
Proof.
  induction ks1 as [|k ks1 IH]; intros ks0 t Hh Hs Hc.
  - exists t. rewrite app_nil_r. done.
  - assert (Hh0 : leaf_holds t a (ks0 ++ [])) by (by rewrite app_nil_r).
    destruct (insert_leaf_near_end t a ks0 [] k Hh0) as (t1 & Hins & Hh1 & _).
    { rewrite app_nil_r. rewrite length_app in Hc. simpl in Hc. lia. }
    { by eapply increasingb_below. }
    { apply Forall_nil_2. }
    { simpl. lia. }
    destruct (IH (ks0 ++ [k]) t1 Hh1) as (t2 & Hall & Hh2).
    { by rewrite <- app_assoc. }
    { by rewrite <- app_assoc. }
    exists t2. split; [|by rewrite <- app_assoc in Hh2].
    cbn [insert_all]. erewrite bind_Ret; [|exact Hins].
    erewrite bind_Ret; [|exact Hall]. unfold ret. f_equal. simpl.
    rewrite Nat.add_0_r. f_equal. apply imap_ext. intros i x _. simpl.
    rewrite length_app. simpl. do 2 f_equal. lia.
Qed.

Lemma find_in_ascending_leaf t a ks i k :
  leaf_holds t a ks -> increasingb ks = true ->
  Z.of_nat (length ks) <= max_entry_per_node ->
  ks !! i = Some k ->
  find k 0 t = Ret (Some (Some a, Z.of_nat i)) t.
Proof.
  intros Hh Hs Hc Hk. pose proof max_entry_per_node_eq as Hcap.
  destruct (leaf_holds_values _ _ _ Hh) as (pg & vs & Hp & _ & _ & _ & Hpre).
  destruct Hh as (Hd & Hr & _).
  apply prefix_spec in Hpre as (_ & _ & Hrd).
  pose proof (lookup_lt_Some _ _ _ Hk) as Hi.
  unfold find. unfold bind at 1, get. rewrite Hd, Hr.
  change (Z.to_nat 0) with 0%nat. cbn [ptr count].
  erewrite bind_Ret.
  2:{ eapply (find_rec_leaf_hit t (Some a) pg k (Z.of_nat i) (Z.of_nat i + 1)
                (Z.of_nat (length ks)) _ 0); [exact Hp| |by left|lia|lia].
      split; [lia|]. split; [lia|]. split; [|split].
      - intros j Hj. rewrite Hrd by lia.
        destruct (lookup_lt_is_Some_2 ks (Z.to_nat j)) as [x Hx]; [lia|].
        exists x. split; [done|].
        apply (increasingb_lookup ks (Z.to_nat j) i x k Hs); [lia|done|done].
      - intros j Hj. replace j with (Z.of_nat i) by lia.
        rewrite Hrd by lia. by rewrite Nat2Z.id.
      - intros j Hj. rewrite Hrd by lia.
        destruct (lookup_lt_is_Some_2 ks (Z.to_nat j)) as [x Hx]; [lia|].
        exists x. split; [done|].
        apply (increasingb_lookup ks i (Z.to_nat j) k x Hs); [lia|done|done]. }
  unfold ret, node_to_value. cbn [fst]. do 4 f_equal. lia.
Qed.

(** X8: up to [max_entry_per_node] keys inserted in strictly ascending
    order into a newly constructed tree all succeed; the i-th insert
    returns slot i of the root leaf, the tree is well formed afterwards
    with exactly these entries, and [find] for each key returns the
    pointer its insert returned. *)
Theorem insert_ascending_then_find (ks : list t_idx) (vsize : Z)
    (nodes leaves : nat) :
  increasingb ks = true ->
  Z.of_nat (length ks) <= max_entry_per_node ->
  exists hs t,
    insert_all ks (empty_tree vsize nodes leaves) = Ret hs t /\
    hs = imap (fun i _ => (Some 0%nat, Z.of_nat i)) ks /\
    stored t = Some (imap (fun i k => (k, (Some 0%nat, Z.of_nat i))) ks) /\
    forall i k h, ks !! i = Some k -> hs !! i = Some h ->
                  find k 0 t = Ret (Some h) t.
Proof.
  intros Hs Hc.
  assert (H0 : leaf_holds (empty_tree vsize nodes leaves) 0%nat []).
  { split; [done|]. split; [done|]. eexists. split; [done|].
    split; [|done].
    split; [exact fresh_cells_length|]. split; [done|exact fresh_cells_length]. }
  destruct (insert_all_ascending 0%nat ks [] _ H0 Hs Hc) as (t & Hall & Hh).
  simpl in Hall, Hh.
  eexists _, t. split; [exact Hall|]. split; [done|]. split.
  - apply leaf_holds_stored; [done|by apply increasingb_sortedb|done].
  - intros i k h Hk Hh'. rewrite list_lookup_imap, Hk in Hh'.
    injection Hh' as <-. by eapply find_in_ascending_leaf.
Qed.

Lemma insert_ascending_then_find_witness :
  exists hs t,
    insert_all [2; 3; 5; 8] (empty_tree 4 0 0) = Ret hs t /\
    hs = imap (fun i _ => (Some 0%nat, Z.of_nat i)) [2; 3; 5; 8] /\
    stored t = Some (imap (fun i k => (k, (Some 0%nat, Z.of_nat i))) [2; 3; 5; 8]) /\
    forall i k h, [2; 3; 5; 8] !! i = Some k -> hs !! i = Some h ->
                  find k 0 t = Ret (Some h) t.
Proof.
  apply (insert_ascending_then_find [2; 3; 5; 8] 4 0 0).
  - reflexivity.
  - vm_compute. discriminate.
Defined.


(** ** Pages taken by an insert *)

Lemma takes_pages_refl n t : takes_pages n t t.
Proof. unfold takes_pages. repeat split; lia. Qed.

Lemma takes_pages_trans n1 n2 n t1 t2 t3 :
  (n1 + n2 <= n)%nat ->
  takes_pages n1 t1 t2 -> takes_pages n2 t2 t3 -> takes_pages n t1 t3.
Proof.
  unfold takes_pages. intros Hn (? & ? & ? & ? & ?) (? & ? & ? & ? & ?).
  split; [congruence|]. repeat split; lia.
Qed.

Lemma allocates_weaken {A} n n' (m : M A) :
  (n <= n')%nat -> allocates n m -> allocates n' m.
Proof.
  intros Hn H t. specialize (H t).
  destruct (m t); [|  |done]; (eapply (takes_pages_trans n 0); [|exact H|apply takes_pages_refl]; lia).
Qed.

Lemma allocates_reads {A} n (m : M A) : reads m -> allocates n m.
Proof.
  intros H t. specialize (H t).
  destruct (m t); [subst; apply takes_pages_refl|done|done].
Qed.

Lemma allocates_ret {A} n (a : A) : allocates n (ret a).
Proof. intros t. apply takes_pages_refl. Qed.

Lemma allocates_bind {A B} n1 n2 n (m : M A) (k : A -> M B) :
  (n1 + n2 <= n)%nat ->
  allocates n1 m -> (forall a, allocates n2 (k a)) -> allocates n (bind m k).
Proof.
  intros Hn Hm Hk t. unfold bind. specialize (Hm t).
  destruct (m t) as [a t'| |]; [| |done].
  - specialize (Hk a t'). destruct (k a t'); [| |done];
      by eapply (takes_pages_trans n1 n2).
  - eapply (takes_pages_trans n1 0); [lia|exact Hm|apply takes_pages_refl].
Qed.

(** Steps that take no page in front of, or behind, one that may. *)
Lemma allocates_after {A B} n (m : M A) (k : A -> M B) :
  allocates 0 m -> (forall a, allocates n (k a)) -> allocates n (bind m k).
Proof. apply allocates_bind. lia. Qed.

Lemma allocates_before {A B} n (m : M A) (k : A -> M B) :
  allocates n m -> (forall a, allocates 0 (k a)) -> allocates n (bind m k).
Proof. apply allocates_bind. lia. Qed.

Lemma allocates_lift {A} n (o : option A) : allocates n (lift o).
Proof. apply allocates_reads, reads_lift. Qed.

Lemma allocates_store_page p pg : allocates 0 (store_page p pg).
Proof.
  intros t. unfold store_page, bind, get. destruct p as [a|]; [|done].
  destruct (decide (a < length (store t))%nat); [|done].
  unfold put, takes_pages. cbn. rewrite length_insert. repeat split; lia.
Qed.

Lemma allocates_store_idx p k : allocates 0 (store_idx p k).
Proof.
  apply allocates_after; [apply allocates_reads, reads_load_page|]. intros pg.
  apply allocates_after; [apply allocates_lift|]. intros ks.
  apply allocates_store_page.
Qed.

Lemma allocates_store_node n x : allocates 0 (store_node n x).
Proof.
  destruct n as [|p i]; simpl.
  - intros t. unfold takes_pages. cbn. repeat split; lia.
  - apply allocates_after; [apply allocates_reads, reads_load_page|]. intros pg.
    apply allocates_after; [apply allocates_lift|]. intros ns.
    apply allocates_after; [apply allocates_lift|]. intros ns'.
    apply allocates_store_page.
Qed.

Lemma allocates_alloc (is_leaf : bool) :
  allocates 1 (if is_leaf then alloc_leaf_page else alloc_node_page).
Proof.
  intros t. destruct is_leaf.
  - unfold alloc_leaf_page, bind, get.
    destruct (room (mm_leaves t)) as [|r] eqn:Hr; [apply takes_pages_refl|].
    unfold takes_pages. cbn. rewrite length_app, Hr. simpl. repeat split; lia.
  - unfold alloc_node_page, bind, get.
    destruct (room (mm_nodes t)) as [|r] eqn:Hr; [apply takes_pages_refl|].
    unfold takes_pages. cbn. rewrite length_app, Hr. simpl. repeat split; lia.
Qed.

Lemma allocates_move_idx p i : allocates 0 (move_idx p i).
Proof.
  apply allocates_after; [apply allocates_reads, reads_load_page|]. intros pg.
  apply allocates_after; [apply allocates_lift|]. intros ks.
  apply allocates_store_page.
Qed.

Lemma allocates_move_value p i : allocates 0 (move_value p i).
Proof.
  apply allocates_after; [apply allocates_reads, reads_load_page|]. intros pg.
  apply allocates_after; [apply allocates_lift|]. intros vs.
  apply allocates_after; [apply allocates_lift|]. intros vs'.
  apply allocates_store_page.
Qed.

Lemma allocates_move_subnode p i : allocates 0 (move_subnode p i).
Proof.
  apply allocates_after; [apply allocates_reads, reads_load_page|]. intros pg.
  apply allocates_after; [apply allocates_lift|]. intros ns.
  apply allocates_after; [apply allocates_lift|]. intros ns'.
  apply allocates_store_page.
Qed.

Lemma allocates_insert_pos idx p cnt : allocates 0 (insert_pos idx p cnt).
Proof.
  apply allocates_after; [apply allocates_reads, reads_search_page|]. intros i.
  cbv zeta. destruct (u32 _ <? cnt); [|apply allocates_ret].
  apply allocates_after; [apply allocates_reads, reads_load_idx|]. intros k.
  apply allocates_ret.
Qed.

Lemma allocates_split_node n is_leaf : allocates 1 (split_node n is_leaf).
Proof.
  apply allocates_after; [apply allocates_reads, reads_load_node|]. intros old.
  apply allocates_after; [apply allocates_reads, reads_load_page|]. intros pg.
  apply allocates_after; [apply allocates_lift|]. intros s.
  apply allocates_after; [apply allocates_store_node|]. intros _.
  apply allocates_before; [apply allocates_alloc|]. intros p.
  apply allocates_after; [apply allocates_reads, reads_load_page|]. intros new_pg.
  apply allocates_after; [apply allocates_reads, reads_load_page|]. intros old_pg.
  apply allocates_after; [apply allocates_lift|]. intros ks.
  apply allocates_after; [apply allocates_lift|]. intros bd.
  apply allocates_after; [apply allocates_store_page|]. intros _.
  apply allocates_ret.
Qed.

Lemma allocates_split_choice n is_leaf (pick : Z -> bool) sibling (full : bool) :
  allocates 1
    (if full then
       let* sib := split_node n is_leaf in
       let* k := load_idx (node_to_idx (ptr sib) 0) in
       ret (pick k, sib)
     else ret (false, sibling)).
Proof.
  destruct full; [|apply allocates_ret].
  apply allocates_before; [apply allocates_split_node|]. intros sib.
  apply allocates_after; [apply allocates_reads, reads_load_idx|]. intros k.
  apply allocates_ret.
Qed.

Lemma allocates_insert_rec depth idx curnode sibling :
  allocates (S depth) (insert_rec depth idx curnode sibling).
Proof.
  revert curnode sibling. induction depth as [|depth IH]; intros curnode sibling;
    cbn [insert_rec].
  - apply allocates_after; [apply allocates_reads, reads_load_node|]. intros cur.
    apply allocates_before.
    { apply (allocates_split_choice curnode true (fun k => idx >=? k)). }
    intros [in_sibling sib]. cbn [fst snd].
    apply allocates_after.
    { destruct in_sibling;
        [apply allocates_ret|apply allocates_reads, reads_load_node]. }
    intros leaf.
    apply allocates_after; [apply allocates_insert_pos|]. intros i.
    apply allocates_after.
    { destruct (u32 i <? count leaf); [|apply allocates_ret].
      apply allocates_after; [apply allocates_move_idx|]. intros _.
      apply allocates_move_value. }
    intros _.
    apply allocates_after; [apply allocates_store_idx|]. intros _.
    apply allocates_after.
    { destruct in_sibling; [apply allocates_ret|].
      apply allocates_after; [apply allocates_store_node|]. intros _.
      apply allocates_ret. }
    intros sib'. apply allocates_ret.
  - apply allocates_after; [apply allocates_reads, reads_load_node|]. intros cur.
    apply allocates_after; [apply allocates_reads, reads_search_page|]. intros i.
    cbv zeta.
    apply (allocates_bind (S depth) 1); [lia|apply IH|]. intros r.
    apply allocates_after; [apply allocates_reads, reads_load_node|]. intros sub.
    apply allocates_after; [apply allocates_reads, reads_load_idx|]. intros sub_idx.
    apply allocates_after; [apply allocates_reads, reads_load_idx|]. intros ki.
    apply allocates_after.
    { destruct (sub_idx <? ki); [apply allocates_store_idx|apply allocates_ret]. }
    intros _.
    destruct (ptr (snd r)); [|apply allocates_ret].
    apply allocates_after; [apply allocates_reads, reads_load_idx|]. intros newleaf_idx.
    apply allocates_after; [apply allocates_reads, reads_load_node|]. intros cur'.
    apply allocates_before.
    { apply (allocates_split_choice curnode false (fun k => k >=? newleaf_idx)). }
    intros [in_sibling sib]. cbn [fst snd].
    apply allocates_after.
    { destruct in_sibling;
        [apply allocates_ret|apply allocates_reads, reads_load_node]. }
    intros node.
    apply allocates_after; [apply allocates_insert_pos|]. intros i'.
    apply allocates_after.
    { destruct (u32 i' <? count node); [|apply allocates_ret].
      apply allocates_after; [apply allocates_move_idx|]. intros _.
      apply allocates_move_subnode. }
    intros _. apply allocates_ret.
Qed.

(** X10: however an [insert] ends, by returning or with [bad_alloc], on
    any object: no page is given back, every page the tree gained was
    taken from one of the two arenas, at most one page per level of the
    tree was taken ([tree_depth + 1] in all), and [value_malloc_size] is
    not changed. *)
Theorem insert_takes_pages (idx : t_idx) (t : page_tree) :
  match insert idx t with
  | Ret _ t' | Throw t' =>
      value_malloc_size t' = value_malloc_size t /\
      (room (mm_nodes t') <= room (mm_nodes t))%nat /\
      (room (mm_leaves t') <= room (mm_leaves t))%nat /\
      (length (store t') + room (mm_nodes t') + room (mm_leaves t')
       = length (store t) + room (mm_nodes t) + room (mm_leaves t))%nat /\
      (length (store t') <= length (store t) + S (Z.to_nat (tree_depth t)))%nat
  | Undef => True
  end.
Proof.
  assert (H : allocates (S (Z.to_nat (tree_depth t)))
                (let* r := insert_rec (Z.to_nat (tree_depth t)) idx root_ptr
                                      (mk_node None 0) in
                 (match ptr (snd r) with
                  | Some _ =>
                      let* t' := get in put (set_depth t' (u32 (tree_depth t' + 1)))
                  | None => ret tt
                  end) ;;
                 ret (fst r))).
  { apply allocates_before; [apply allocates_insert_rec|]. intros r.
    apply allocates_after; [|intros _; apply allocates_ret].
    destruct (ptr (snd r)); [|apply allocates_ret].
    intros t0. unfold takes_pages. cbn. repeat split; lia. }
  specialize (H t). unfold insert. unfold bind at 1, get.
  destruct (bind _ _ t); exact H.
Qed.

(** ** What split_node moves *)

Lemma load_page_inv p t pg t' :
  load_page p t = Ret pg t' -> page_at t p = Some pg /\ t' = t.
Proof.
  unfold load_page, bind, get. destruct (page_at t p); [|done].
  by intros [= -> ->].
Qed.

Lemma store_page_inv p pg t u t' :
  store_page p pg t = Ret u t' ->
  exists a, p = Some a /\ (a < length (store t))%nat /\
            t' = set_store t (<[a := pg]> (store t)).
Proof.
  unfold store_page, bind, get. destruct p as [a|]; [|done].
  destruct (decide (a < length (store t))%nat); [|done].
  intros [= _ <-]. by exists a.
Qed.

Lemma rd_memmove_front {A} (dst src : list (option A)) s n l j :
  memmove dst 0 src s n = Some l -> 0 <= j < n -> rd l j = rd src (s + j).
Proof.
  unfold memmove. intros H Hj.
  destruct (_ && _) eqn:Hc in H; [|done]. injection H as <-.
  repeat (apply andb_true_iff in Hc as [Hc ?]).
  repeat match goal with H : (_ <=? _) = true |- _ => apply Z.leb_le in H end.
  rewrite !rd_nat by lia. f_equal. simpl take at 1. simpl app.
  rewrite lookup_app_l by (rewrite length_take, length_drop; lia).
  rewrite lookup_take_lt by lia. rewrite lookup_drop. f_equal. lia.
Qed.

Lemma split_node_inv old_node is_leaf t sib t' :
  split_node old_node is_leaf t = Ret sib t' ->
  exists old pg s t1 t2 old_pg ks bd,
    load_node old_node t = Ret old t /\
    page_at t (ptr old) = Some pg /\
    split_point (keys pg) (count old) = Some s /\
    store_node old_node (mk_node (ptr old) s) t = Ret tt t1 /\
    (if is_leaf then alloc_leaf_page else alloc_node_page) t1
    = Ret (Some (length (store t1))) t2 /\
    page_at t2 (ptr old) = Some old_pg /\
    memmove (keys (fresh_page is_leaf)) 0 (keys old_pg) 0 (u32 (count old - s))
    = Some ks /\
    (if is_leaf then
       match body (fresh_page is_leaf), body old_pg with
       | Values d, Values s0 => Values <$> memmove d 0 s0 s (u32 (count old - s))
       | _, _ => None
       end
     else
       match body (fresh_page is_leaf), body old_pg with
       | Subnodes d, Subnodes s0 => Subnodes <$> memmove d 0 s0 s (u32 (count old - s))
       | _, _ => None
       end) = Some bd /\
    t' = set_store t2 (store t1 ++ [mk_page ks bd]) /\
    sib = mk_node (Some (length (store t1))) (u32 (count old - s)).
Proof.
  unfold split_node. intros H.
  apply bind_inv in H as (old & t0 & Hold & H).
  pose proof (reads_load_node old_node t) as Hrd. rewrite Hold in Hrd. subst t0.
  apply bind_inv in H as (pg & t0 & [Hpg ->]%load_page_inv & H).
  apply bind_inv in H as (s & t0 & [Hs ->]%lift_inv & H).
  apply bind_inv in H as ([] & t1 & Hst & H).
  apply bind_inv in H as (p & t2 & Hal & H).
  pose proof (alloc_page_inv _ _ _ _ Hal) as (-> & Hstore2 & _).
  apply bind_inv in H as (new_pg & t3 & [Hnew ->]%load_page_inv & H).
  apply bind_inv in H as (old_pg & t3 & [Hopg ->]%load_page_inv & H).
  apply bind_inv in H as (ks & t3 & [Hks ->]%lift_inv & H).
  apply bind_inv in H as (bd & t3 & [Hbd ->]%lift_inv & H).
  apply bind_inv in H as (u & t3 & Hsp & H).
  apply store_page_inv in Hsp as (a & [= <-] & _ & ->).
  injection H as <- <-.
  assert (new_pg = fresh_page is_leaf) as ->.
  { simpl in Hnew. rewrite Hstore2, lookup_app_r in Hnew by lia.
    rewrite Nat.sub_diag in Hnew. by injection Hnew. }
  exists old, pg, s, t1, t2, old_pg, ks, bd.
  repeat (split; [done|]). split; [|done].
  f_equal. rewrite Hstore2.
  rewrite insert_app_r_alt by lia. by rewrite Nat.sub_diag.
Qed.

Lemma memmove_length {A} (dst src : list A) d s n l :
  memmove dst d src s n = Some l -> length l = length dst.
Proof.
  unfold memmove. intros H.
  destruct (_ && _) eqn:Hc in H; [|done]. injection H as <-.
  repeat (apply andb_true_iff in Hc as [Hc ?]).
  repeat match goal with H : (_ <=? _) = true |- _ => apply Z.leb_le in H end.
  rewrite !length_app, !length_take, !length_drop. lia.
Qed.

Lemma alloc_page_other (is_leaf : bool) t p t' :
  (if is_leaf then alloc_leaf_page else alloc_node_page) t = Ret p t' ->
  arena_for (negb is_leaf) t' = arena_for (negb is_leaf) t.
Proof.
  destruct is_leaf; unfold alloc_leaf_page, alloc_node_page, bind, get, arena_for.
  - destruct (room (mm_leaves t)) as [|r] eqn:Hr; [done|]. by intros [= <- <-].
  - destruct (room (mm_nodes t)) as [|r] eqn:Hr; [done|]. by intros [= <- <-].
Qed.

Lemma split_node_new_page old_node is_leaf t sib t' :
  split_node old_node is_leaf t = Ret sib t' ->
  exists old s old_pg new_pg,
    load_node old_node t = Ret old t /\
    load_node old_node t' = Ret (mk_node (ptr old) s) t' /\
    sib = mk_node (Some (length (store t))) (u32 (count old - s)) /\
    length (store t') = S (length (store t)) /\
    page_at t' (ptr old) = Some old_pg /\
    page_at t' (ptr sib) = Some new_pg /\
    page_of_kind is_leaf new_pg /\
    (forall j, 0 <= j < count sib -> rd (keys new_pg) j = rd (keys old_pg) j) /\
    match body old_pg, body new_pg with
    | Values vs, Values vs' =>
        is_leaf = true /\
        forall j, 0 <= j < count sib -> rd vs' j = rd vs (s + j)
    | Subnodes ns, Subnodes ns' =>
        is_leaf = false /\
        forall j, 0 <= j < count sib -> rd ns' j = rd ns (s + j)
    | _, _ => False
    end.
Proof.
  intros H.
  apply split_node_inv in H
    as (old & pg & s & t1 & t2 & old_pg & ks & bd & Hold & Hpg & Hs & Hst & Hal
        & Hopg & Hks & Hbd & -> & ->).
  destruct (store_node_frame old_node (mk_node (ptr old) s) t old Hold)
    as (t1' & Hst' & Hold1 & _ & _ & Hlen1 & _).
  assert (t1' = t1) as -> by congruence.
  pose proof (alloc_page_inv _ _ _ _ Hal) as (_ & Hstore2 & Hroot2 & _).
  exists old, s, old_pg, (mk_page ks bd).
  assert (Hold_lt : exists a, ptr old = Some a /\ (a < length (store t1))%nat).
  { destruct (ptr old) as [a|]; [|done]. exists a. split; [done|].
    simpl in Hpg. apply lookup_lt_Some in Hpg. lia. }
  destruct Hold_lt as (a & Ha & Hlt).
  split; [done|]. split.
  { eapply (load_node_stable old_node t1); [done|simpl; congruence|].
    intros b pgb Hb. simpl. by rewrite lookup_app_l by (by eapply lookup_lt_Some). }
  split; [by rewrite Hlen1|].
  split; [simpl; rewrite length_app; simpl; lia|].
  split.
  { rewrite Ha in *. simpl in *. rewrite Hstore2 in Hopg.
    rewrite lookup_app_l in Hopg by lia. by rewrite lookup_app_l by lia. }
  split.
  { simpl. rewrite lookup_app_r by lia. by rewrite Nat.sub_diag. }
  cbn [count keys body].
  assert (Hlk : Z.of_nat (length ks) = max_entry_per_node).
  { rewrite (memmove_length _ _ _ _ _ _ Hks). destruct is_leaf; apply @fresh_cells_length. }
  destruct is_leaf; simpl in Hbd.
  - destruct (body old_pg) as [vs|ns]; [|done].
    destruct (memmove _ 0 vs s _) as [vs'|] eqn:Hmv; [|done].
    injection Hbd as <-.
    split.
    { split; [done|]. simpl. split; [done|].
      rewrite (memmove_length _ _ _ _ _ _ Hmv). apply @fresh_cells_length. }
    split; [intros j Hj; by rewrite (rd_memmove_front _ _ _ _ _ j Hks Hj)|].
    split; [done|].
    intros j Hj. by rewrite (rd_memmove_front _ _ _ _ _ j Hmv Hj).
  - destruct (body old_pg) as [vs|ns]; [done|].
    destruct (memmove _ 0 ns s _) as [ns'|] eqn:Hmv; [|done].
    injection Hbd as <-.
    split.
    { split; [done|]. simpl. split; [done|].
      rewrite (memmove_length _ _ _ _ _ _ Hmv). apply @fresh_cells_length. }
    split; [intros j Hj; by rewrite (rd_memmove_front _ _ _ _ _ j Hks Hj)|].
    split; [done|].
    intros j Hj. by rewrite (rd_memmove_front _ _ _ _ _ j Hmv Hj).
Qed.



(** ** insert into a full root leaf *)

(** The steps of [insert_rec] on the leaf page itself. *)
Lemma leaf_steps t b pgb vs n idx :
  store t !! b = Some pgb ->
  body pgb = Values vs ->
  Z.of_nat (length (keys pgb)) = max_entry_per_node ->
  Z.of_nat (length vs) = max_entry_per_node ->
  0 <= n < max_entry_per_node ->
  (forall j, 0 <= j < n -> exists k, rd (keys pgb) j = Some k) ->
  exists p tm,
    0 <= p <= n /\
    insert_pos idx (Some b) n t = Ret p t /\
    (if u32 p <? n then move_idx (Some b) p ;; move_value (Some b) p
     else ret tt) t = Ret tt tm /\
    store_idx (node_to_idx (Some b) p) idx tm
    = Ret tt (set_store t (<[b := leaf_put pgb vs idx p n]> (store t))).
Proof.
  intros Hp Hb Hlk Hlv Hn Hdef.
  pose proof max_entry_per_node_eq as Hcap.
  destruct (insert_pos_any t idx b pgb n Hp ltac:(lia) Hdef) as (p & Hpos & Hpn).
  exists p. rewrite u32_small by lia. unfold leaf_put.
  pose proof (lookup_lt_Some _ _ _ Hp) as Hlt.
  destruct (Z.ltb_spec p n) as [Hpc|Hpc].
  - eexists. split; [done|]. split; [done|]. split.
    + erewrite bind_Ret; [|apply (move_idx_Ret _ _ _ _ Hp); lia].
      apply move_value_Ret with (vs := vs); simpl;
        [by rewrite list_lookup_insert_eq|done|lia|lia].
    + erewrite store_idx_Ret; simpl;
        [|by rewrite list_lookup_insert_eq by (by rewrite length_insert)
         |simpl; rewrite shift1_length by lia; lia].
      simpl. by rewrite !list_insert_insert_eq.
  - exists t. split; [done|]. split; [done|]. split; [done|].
    erewrite store_idx_Ret; [|exact Hp|lia]. by rewrite Hb.
Qed.

Lemma insert_rec_full_leaf_root t a pg idx r sib0 :
  tree_depth t = 0 ->
  tree_root t = mk_node (Some a) max_entry_per_node ->
  store t !! a = Some pg ->
  page_of_kind true pg ->
  (forall j, 0 <= j < max_entry_per_node -> exists k, rd (keys pg) j = Some k) ->
  room (mm_leaves t) = S r ->
  exists h sib t',
    insert_rec 0 idx root_ptr sib0 t = Ret (h, sib) t' /\
    ptr sib = Some (length (store t)) /\
    key_at t' h idx /\
    (fst h = Some a \/ fst h = Some (length (store t))) /\
    tree_depth t' = 0 /\
    ptr (tree_root t') = Some a /\
    length (store t') = S (length (store t)) /\
    room (mm_leaves t') = r /\ mm_nodes t' = mm_nodes t.
Proof.
  intros Hd Hr Hp Hk Hdef Hroom.
  pose proof max_entry_per_node_eq as Hcap.
  set (c := max_entry_per_node) in *.
  destruct (split_node_Ret t root_ptr true a pg c r)
    as (s & t1 & Hsp & Hsplit & Hload1 & Hp1);
    [by rewrite load_node_root, Hr|done|done|done|lia|done|done|].
  destruct (split_point_spec (keys pg) c) as (s' & _ & _ & _ & Hs' & _ & _ & _ & Hbs & _);
    [lia|done|lia|].
  assert (s' = s) as -> by congruence.
  destruct (split_node_new_page _ _ _ _ _ Hsplit)
    as (old & s' & old_pg & new_pg & Hold & Hload1' & Hsib & Hlen1 & Hopg & Hnpg
        & [Hnlk Hnkind] & Hnkeys & Hbody).
  assert (old = mk_node (Some a) c) as -> by (rewrite load_node_root, Hr in Hold; congruence).
  cbn [ptr count] in *.
  assert (s' = s) as -> by (rewrite Hload1 in Hload1'; by injection Hload1').
  clear Hload1' Hsib.
  assert (old_pg = pg) as -> by (simpl in Hopg; congruence).
  destruct Hk as [Hlk Hkind].
  destruct (body pg) as [vs|] eqn:Hb; [|by destruct Hkind].
  destruct Hkind as [_ Hlv].
  destruct (body new_pg) as [vs'|] eqn:Hnb; [|done].
  destruct Hnkind as [_ Hnlv]. clear Hbody.
  (* the state after the split *)
  pose proof (keeps_depth_split_node root_ptr true t) as Hd1. rewrite Hsplit in Hd1.
  pose proof (allocates_split_node root_ptr true t) as Hal1. rewrite Hsplit in Hal1.
  destruct Hal1 as (_ & Hn1 & Hl1 & Hsum1 & _).
  assert (Hmn1 : mm_nodes t1 = mm_nodes t).
  { apply split_node_inv in Hsplit
      as (? & ? & ? & t0 & t2 & ? & ? & ? & Ho & _ & _ & Hst & Hal & _ & _ & _ & -> & _).
    simpl in Hst. injection Hst as <-.
    apply (alloc_page_other true) in Hal. simpl in Hal. done. }
  assert (Hml1 : room (mm_leaves t1) = r) by (rewrite Hmn1 in Hsum1; lia).
  apply load_node_inv in Hload1 as [_ Hroot1]. simpl in Hroot1.
  set (nw := length (store t)) in *.
  destruct (Hdef 0 ltac:(lia)) as [k0 Hk0].
  assert (Hnk0 : rd (keys new_pg) 0 = Some k0) by (rewrite Hnkeys by lia; done).
  cbn [insert_rec].
  rewrite (bind_Ret _ _ _ _ _ (load_node_root t)). rewrite Hr. cbn [count].
  destruct (Z.geb_spec c max_entry_per_node); [|lia].
  erewrite (bind_Ret (let* sib := split_node root_ptr true in _));
    [|erewrite bind_Ret; [|exact Hsplit];
      erewrite bind_Ret; [|by eapply load_idx_Ret]; reflexivity].
  cbn [fst snd].
  destruct (idx >=? k0).
  - (* the entry goes to the new page *)
    destruct (leaf_steps t1 nw new_pg vs' (c - s) idx Hnpg Hnb Hnlk Hnlv)
      as (p & tm & Hpn & Hpos & Hmv & Hst); [lia| |].
    { intros j Hj. rewrite Hnkeys by lia. apply Hdef. lia. }
    unfold ret at 1. unfold bind at 1. cbn [ptr count].
    erewrite bind_Ret; [|exact Hpos].
    erewrite bind_Ret; [|exact Hmv].
    erewrite bind_Ret; [|exact Hst].
    unfold bind, ret. cbn.
    eexists _, _, _. split; [reflexivity|].
    apply lookup_lt_Some in Hnpg as Hnlt.
    split; [done|]. split.
    { eexists. cbn. split; [by apply list_lookup_insert_eq|].
      rewrite leaf_put_keys by (done || lia). by destruct (decide (p = p)). }
    split; [by right|]. cbn. rewrite Hd1, Hd.
    split; [done|]. split; [by rewrite Hroot1|].
    split; [by rewrite length_insert|]. split; [done|done].
  - (* the entry goes to the old page *)
    destruct (leaf_steps t1 a pg vs s idx Hp1 Hb Hlk Hlv)
      as (p & tm & Hpn & Hpos & Hmv & Hst); [lia| |].
    { intros j Hj. apply Hdef. lia. }
    rewrite (bind_Ret _ _ _ _ _ (load_node_root t1)). rewrite Hroot1.
    cbn [ptr count].
    erewrite bind_Ret; [|exact Hpos].
    erewrite bind_Ret; [|exact Hmv].
    erewrite bind_Ret; [|exact Hst].
    unfold bind, ret, get, put. cbn.
    eexists _, _, _. split; [reflexivity|].
    apply lookup_lt_Some in Hp1 as Hlt.
    split; [done|]. split.
    { eexists. cbn. split; [by apply list_lookup_insert_eq|].
      rewrite leaf_put_keys by (done || lia). by destruct (decide (p = p)). }
    split; [by left|]. cbn. rewrite Hd1, Hd.
    split; [done|]. split; [done|].
    split; [by rewrite length_insert|]. split; [done|done].
Qed.

(** X12: on a tree whose root is a full leaf with all keys written, in
    any order, and with a block left in the leaf arena, [insert] returns:
    it takes one leaf page, the pointer returned is a slot of the old or
    of the new page whose key is then the key inserted, and the depth is 1
    afterwards while the root descriptor still points at the old leaf. *)
Theorem insert_full_leaf_with_room (t : page_tree) (a : addr) (pg : page)
    (idx : t_idx) (r : nat) :
  tree_depth t = 0 ->
  tree_root t = mk_node (Some a) max_entry_per_node ->
  store t !! a = Some pg ->
  page_of_kind true pg ->
  (forall j, 0 <= j < max_entry_per_node -> exists k, rd (keys pg) j = Some k) ->
  room (mm_leaves t) = S r ->
  exists h t',
    insert idx t = Ret h t' /\
    key_at t' h idx /\
    (fst h = Some a \/ fst h = Some (length (store t))) /\
    tree_depth t' = 1 /\
    ptr (tree_root t') = Some a /\
    length (store t') = S (length (store t)) /\
    room (mm_leaves t') = r /\ mm_nodes t' = mm_nodes t.
Proof.
  intros Hd Hr Hp Hk Hdef Hroom.
  destruct (insert_rec_full_leaf_root t a pg idx r (mk_node None 0)
              Hd Hr Hp Hk Hdef Hroom)
    as (h & sib & t1 & Hrec & Hsib & Hkey & Hh & Hd1 & Hroot1 & Hlen1 & Hl1 & Hn1).
  unfold insert. unfold bind at 1, get. rewrite Hd. change (Z.to_nat 0) with 0%nat.
  erewrite bind_Ret; [|exact Hrec]. cbn [fst snd]. rewrite Hsib.
  unfold bind, get, put, ret.
  eexists _, _. split; [reflexivity|].
  split; [exact Hkey|]. split; [done|]. cbn. rewrite Hd1.
  split; [done|]. done.
Qed.

Lemma insert_full_leaf_with_room_witness :
  exists h t',
    insert 600 (full_leaf 1) = Ret h t' /\
    key_at t' h 600 /\
    (fst h = Some 0%nat \/ fst h = Some (length (store (full_leaf 1)))) /\
    tree_depth t' = 1 /\
    ptr (tree_root t') = Some 0%nat /\
    length (store t') = S (length (store (full_leaf 1))) /\
    room (mm_leaves t') = 0%nat /\ mm_nodes t' = mm_nodes (full_leaf 1).
Proof.
  apply (insert_full_leaf_with_room (full_leaf 1) 0%nat
           (mk_page (cells (ascending 512)) (Values (cells (replicate 512 val_A))))
           600 0).
  - reflexivity.
  - reflexivity.
  - reflexivity.
  - vm_compute. split; [reflexivity|]. split; reflexivity.
  - apply (prefix_defined _ _ (ascending 512)). vm_compute. reflexivity.
  - reflexivity.
Defined.

(** ** find with a negative occurrence number *)

Lemma u32_negative z : - 2 ^ 32 <= z < 0 -> u32 z = z + 2 ^ 32.
Proof.
  intros H. unfold u32.
  replace z with (z + 2 ^ 32 + (-1) * 2 ^ 32) at 1 by lia.
  rewrite Z_mod_plus_full. apply Z.mod_small. lia.
Qed.

Lemma binsearch_index_defined v ary cnt :
  0 <= cnt <= 2 ^ 31 ->
  (forall j, 0 <= j < cnt -> exists a, rd ary j = Some a) ->
  exists r, binsearch_index v ary cnt = Some r /\ -1 <= r < cnt.
Proof.
  intros Hc Hdef. unfold binsearch_index.
  destruct (Z.eqb_spec cnt 0) as [->|Hne].
  - exists (-1). split; [done|lia].
  - rewrite u32_small by lia.
    destruct (binsearch_loop_any ary v cnt Hc Hdef (Z.to_nat cnt) 0 (cnt - 1))
      as (r & Hr & Hb & _); [lia|lia|by left|lia|].
    by exists r.
Qed.

Lemma find_rec_negative t idx d : forall n E s,
  entries_of t d n = Some E ->
  - 2 ^ 31 + max_entry_per_node <= s < 0 ->
  exists s', find_rec d idx s (ptr n) (count n) t = Ret (None, s') t /\
             s - max_entry_per_node <= s' < 0.
Proof.
  pose proof max_entry_per_node_eq as Hcap.
  induction d as [|d IH]; intros n E s HE Hs.
  - apply entries_of_leaf in HE as (pg & ks & vs & Hp & Hc & Hks & _).
    pose proof (prefix_spec _ _ _ Hks) as (Hlen & _ & _).
    pose proof (prefix_defined _ _ _ Hks) as Hdef.
    destruct (binsearch_index_defined idx (keys pg) (count n)) as (r & Hr & Hrb);
      [lia|done|].
    cbn [find_rec].
    erewrite bind_Ret; [|by eapply search_page_Ret].
    destruct (Z.ltb_spec r 0); [exists s; split; [done|lia]|].
    destruct (Hdef r ltac:(lia)) as [k Hk].
    erewrite bind_Ret; [|by eapply load_idx_Ret].
    destruct (k =? idx); [|exists s; split; [done|lia]].
    rewrite u32_negative by lia. rewrite (u32_small (count n - r)) by lia.
    destruct (Z.ltb_spec (s + 2 ^ 32) (count n - r)); [lia|].
    rewrite s32_small by lia. eexists. split; [done|lia].
  - apply entries_of_node in HE
      as (pg & ks & ns & cs & Es & Hp & Hc & Hks & Hb & Hcs & HEs & _).
    pose proof (prefix_spec _ _ _ Hks) as (Hlen & _ & _).
    pose proof (prefix_defined _ _ _ Hks) as Hdef.
    pose proof (prefix_spec _ _ _ Hcs) as (Hlc & _ & Hrc).
    destruct (binsearch_index_defined idx (keys pg) (count n)) as (r & Hr & Hrb);
      [lia|done|].
    cbn [find_rec].
    erewrite bind_Ret; [|by eapply search_page_Ret].
    destruct (Z.ltb_spec r 0); [exists s; split; [done|lia]|].
    destruct (Hdef r ltac:(lia)) as [k Hk].
    erewrite bind_Ret; [|by eapply load_idx_Ret].
    (* the child the search leads to *)
    apply mapM_Some in HEs.
    destruct (lookup_lt_is_Some_2 cs (Z.to_nat r)) as [c Hcr]; [lia|].
    destruct (Forall2_lookup_l _ _ _ _ _ HEs Hcr) as (Ec & _ & Hent).
    assert (Hchild : load_node (node_to_subnode (ptr n) r) t = Ret c t).
    { eapply load_node_subnode; [done|done|]. by rewrite Hrc by lia. }
    destruct (IH c Ec s Hent Hs) as (s' & Hrec & Hs').
    destruct (Z.eqb_spec k idx) as [->|Hne].
    + cbn [find_run]. rewrite u32_small by lia.
      destruct (Z.ltb_spec r (count n)); [|lia].
      erewrite bind_Ret; [|by eapply load_idx_Ret].
      rewrite Z.eqb_refl.
      erewrite bind_Ret; [|exact Hchild].
      erewrite bind_Ret; [|exact Hrec].
      cbn [fst snd]. destruct (Z.ltb_spec s' 0); [|lia].
      exists s'. split; [done|lia].
    + erewrite bind_Ret; [|exact Hchild].
      exists s'. split; [done|lia].
Qed.

(** X13: on a well-formed tree [find] with a negative occurrence number
    (down to [-2^31 + max_entry_per_node]) returns [NULL], whatever the
    key. *)
Theorem find_negative_occurrence (t : page_tree) (E : list entry)
    (idx : t_idx) (sub_idx : Z) :
  stored t = Some E ->
  - 2 ^ 31 + max_entry_per_node <= sub_idx < 0 ->
  find idx sub_idx t = Ret None t.
Proof.
  intros HE Hs. unfold stored in HE.
  destruct (0 <=? tree_depth t); [|done].
  destruct (find_rec_negative t idx _ _ _ sub_idx HE Hs) as (s' & Hrec & _).
  unfold find. unfold bind at 1, get.
  erewrite bind_Ret; [|exact Hrec]. done.
Qed.

Lemma find_negative_occurrence_witness :
  find 5 (-1) three_leaves = Ret None three_leaves.
Proof.
  apply (find_negative_occurrence three_leaves
           [(1, (Some 1%nat, 0)); (3, (Some 1%nat, 1));
            (5, (Some 2%nat, 0)); (5, (Some 2%nat, 1));
            (5, (Some 2%nat, 2)); (5, (Some 2%nat, 3));
            (5, (Some 3%nat, 0)); (5, (Some 3%nat, 1));
            (7, (Some 3%nat, 2))] 5 (-1)).
  - vm_compute. reflexivity.
  - vm_compute. split; [discriminate|reflexivity].
Defined.


(** ** The root pointer is never changed *)

Lemma root_at_ret {A} rp (a : A) (Q : A -> Prop) : Q a -> root_at rp (ret a) Q.
Proof. intros H t Ht. by split. Qed.

Lemma root_at_bind {A B} rp (m : M A) (k : A -> M B) (Q : A -> Prop)
    (R : B -> Prop) :
  root_at rp m Q -> (forall a, Q a -> root_at rp (k a) R) ->
  root_at rp (bind m k) R.
Proof.
  intros Hm Hk t Ht. unfold bind. specialize (Hm t Ht).
  destruct (m t) as [a t'| |]; [|done..].
  destruct Hm as [Ht' Ha]. apply (Hk a Ha t' Ht').
Qed.

Lemma root_at_weaken {A} rp (m : M A) (Q R : A -> Prop) :
  root_at rp m Q -> (forall a, Q a -> R a) -> root_at rp m R.
Proof.
  intros Hm HQR t Ht. specialize (Hm t Ht).
  destruct (m t) as [a t'| |]; [|done..]. destruct Hm. split; auto.
Qed.

Lemma root_at_reads {A} rp (m : M A) : reads m -> root_at rp m (fun _ => True).
Proof.
  intros H t Ht. specialize (H t). destruct (m t); [by subst|done|done].
Qed.

Lemma root_at_lift {A} rp (o : option A) : root_at rp (lift o) (fun _ => True).
Proof. apply root_at_reads, reads_lift. Qed.

Lemma root_at_load_node rp n :
  root_at rp (load_node n) (fun x => n = root_ptr -> ptr x = rp).
Proof.
  intros t Ht. pose proof (reads_load_node n t) as Hr.
  destruct (load_node n t) as [x t'| |] eqn:E; [|done..]. subst t'.
  split; [done|]. intros ->. simpl in E. injection E as <-. done.
Qed.

Lemma root_at_store_page rp p pg : root_at rp (store_page p pg) (fun _ => True).
Proof.
  intros t Ht. unfold store_page, bind, get. destruct p as [a|]; [|done].
  destruct (decide (a < length (store t))%nat); done.
Qed.

Lemma root_at_store_idx rp p k : root_at rp (store_idx p k) (fun _ => True).
Proof.
  eapply root_at_bind; [apply root_at_reads, reads_load_page|]. intros pg _.
  eapply root_at_bind; [apply root_at_lift|]. intros ks _.
  apply root_at_store_page.
Qed.

Lemma root_at_store_node rp n x :
  (n = root_ptr -> ptr x = rp) -> root_at rp (store_node n x) (fun _ => True).
Proof.
  intros Hx. destruct n as [|p i]; simpl.
  - intros t Ht. split; [by apply Hx|done].
  - eapply root_at_bind; [apply root_at_reads, reads_load_page|]. intros pg _.
    eapply root_at_bind; [apply root_at_lift|]. intros ns _.
    eapply root_at_bind; [apply root_at_lift|]. intros ns' _.
    apply root_at_store_page.
Qed.

Lemma root_at_alloc rp (is_leaf : bool) :
  root_at rp (if is_leaf then alloc_leaf_page else alloc_node_page)
          (fun _ => True).
Proof.
  intros t Ht. destruct is_leaf.
  - unfold alloc_leaf_page, bind, get. by destruct (room (mm_leaves t)).
  - unfold alloc_node_page, bind, get. by destruct (room (mm_nodes t)).
Qed.

Lemma root_at_move_idx rp p i : root_at rp (move_idx p i) (fun _ => True).
Proof.
  eapply root_at_bind; [apply root_at_reads, reads_load_page|]. intros pg _.
  eapply root_at_bind; [apply root_at_lift|]. intros ks _.
  apply root_at_store_page.
Qed.

Lemma root_at_move_value rp p i : root_at rp (move_value p i) (fun _ => True).
Proof.
  eapply root_at_bind; [apply root_at_reads, reads_load_page|]. intros pg _.
  eapply root_at_bind; [apply root_at_lift|]. intros vs _.
  eapply root_at_bind; [apply root_at_lift|]. intros vs' _.
  apply root_at_store_page.
Qed.

Lemma root_at_move_subnode rp p i : root_at rp (move_subnode p i) (fun _ => True).
Proof.
  eapply root_at_bind; [apply root_at_reads, reads_load_page|]. intros pg _.
  eapply root_at_bind; [apply root_at_lift|]. intros ns _.
  eapply root_at_bind; [apply root_at_lift|]. intros ns' _.
  apply root_at_store_page.
Qed.

Lemma root_at_insert_pos rp idx p cnt :
  root_at rp (insert_pos idx p cnt) (fun _ => True).
Proof.
  eapply root_at_bind; [apply root_at_reads, reads_search_page|]. intros i _.
  cbv zeta. destruct (u32 _ <? cnt); [|by apply root_at_ret].
  eapply root_at_bind; [apply root_at_reads, reads_load_idx|]. intros k _.
  by apply root_at_ret.
Qed.

Lemma root_at_split_node rp n is_leaf :
  root_at rp (split_node n is_leaf) (fun _ => True).
Proof.
  eapply root_at_bind; [apply root_at_load_node|]. intros old Hold.
  eapply root_at_bind; [apply root_at_reads, reads_load_page|]. intros pg _.
  eapply root_at_bind; [apply root_at_lift|]. intros s _.
  eapply root_at_bind; [by apply root_at_store_node|]. intros _ _.
  eapply root_at_bind; [apply root_at_alloc|]. intros p _.
  eapply root_at_bind; [apply root_at_reads, reads_load_page|]. intros new_pg _.
  eapply root_at_bind; [apply root_at_reads, reads_load_page|]. intros old_pg _.
  eapply root_at_bind; [apply root_at_lift|]. intros ks _.
  eapply root_at_bind; [apply root_at_lift|]. intros bd _.
  eapply root_at_bind; [apply root_at_store_page|]. intros _ _.
  by apply root_at_ret.
Qed.

Lemma root_at_split_choice rp n is_leaf (pick : Z -> bool) sibling (full : bool) :
  root_at rp
    (if full then
       let* sib := split_node n is_leaf in
       let* k := load_idx (node_to_idx (ptr sib) 0) in
       ret (pick k, sib)
     else ret (false, sibling))
    (fun _ => True).
Proof.
  destruct full; [|by apply root_at_ret].
  eapply root_at_bind; [apply root_at_split_node|]. intros sib _.
  eapply root_at_bind; [apply root_at_reads, reads_load_idx|]. intros k _.
  by apply root_at_ret.
Qed.

Lemma root_at_insert_rec rp depth idx curnode sibling :
  root_at rp (insert_rec depth idx curnode sibling) (fun _ => True).
Proof.
  revert curnode sibling. induction depth as [|depth IH]; intros curnode sibling;
    cbn [insert_rec].
  - eapply root_at_bind; [apply root_at_reads, reads_load_node|]. intros cur _.
    eapply root_at_bind.
    { apply (root_at_split_choice rp curnode true (fun k => idx >=? k)). }
    intros [in_sibling sib] _. cbn [fst snd].
    eapply root_at_bind with
      (Q := fun leaf => in_sibling = false -> curnode = root_ptr -> ptr leaf = rp).
    { destruct in_sibling; [by apply root_at_ret|].
      eapply root_at_weaken; [apply root_at_load_node|]. auto. }
    intros leaf Hleaf.
    eapply root_at_bind; [apply root_at_insert_pos|]. intros i _.
    eapply root_at_bind with (Q := fun _ => True).
    { destruct (u32 i <? count leaf); [|by apply root_at_ret].
      eapply root_at_bind; [apply root_at_move_idx|]. intros _ _.
      apply root_at_move_value. }
    intros _ _.
    eapply root_at_bind; [apply root_at_store_idx|]. intros _ _.
    eapply root_at_bind with (Q := fun _ => True).
    { destruct in_sibling; [by apply root_at_ret|].
      eapply root_at_bind; [apply root_at_store_node; by apply Hleaf|].
      intros _ _. by apply root_at_ret. }
    intros sib' _. by apply root_at_ret.
  - eapply root_at_bind; [apply root_at_reads, reads_load_node|]. intros cur _.
    eapply root_at_bind; [apply root_at_reads, reads_search_page|]. intros i _.
    cbv zeta.
    eapply root_at_bind; [apply IH|]. intros r _.
    eapply root_at_bind; [apply root_at_reads, reads_load_node|]. intros sub _.
    eapply root_at_bind; [apply root_at_reads, reads_load_idx|]. intros sub_idx _.
    eapply root_at_bind; [apply root_at_reads, reads_load_idx|]. intros ki _.
    eapply root_at_bind with (Q := fun _ => True).
    { destruct (sub_idx <? ki); [apply root_at_store_idx|by apply root_at_ret]. }
    intros _ _.
    destruct (ptr (snd r)); [|by apply root_at_ret].
    eapply root_at_bind; [apply root_at_reads, reads_load_idx|]. intros newleaf_idx _.
    eapply root_at_bind; [apply root_at_reads, reads_load_node|]. intros cur' _.
    eapply root_at_bind.
    { apply (root_at_split_choice rp curnode false (fun k => k >=? newleaf_idx)). }
    intros [in_sibling sib] _. cbn [fst snd].
    eapply root_at_bind with (Q := fun _ => True).
    { destruct in_sibling;
        [by apply root_at_ret|apply root_at_reads, reads_load_node]. }
    intros node _.
    eapply root_at_bind; [apply root_at_insert_pos|]. intros i' _.
    eapply root_at_bind with (Q := fun _ => True).
    { destruct (u32 i' <? count node); [|by apply root_at_ret].
      eapply root_at_bind; [apply root_at_move_idx|]. intros _ _.
      apply root_at_move_subnode. }
    intros _ _. by apply root_at_ret.
Qed.

(** X14: [insert] never changes the pointer of the root descriptor: on
    any object and however the call ends, by returning or with
    [bad_alloc], the root page is the page it was before, so the tree
    never gets a new root. *)
Theorem insert_keeps_root_pointer (idx : t_idx) (t : page_tree) :
  match insert idx t with
  | Ret _ t' | Throw t' => ptr (tree_root t') = ptr (tree_root t)
  | Undef => True
  end.
Proof.
  assert (H : root_at (ptr (tree_root t))
                (let* r := insert_rec (Z.to_nat (tree_depth t)) idx root_ptr
                                      (mk_node None 0) in
                 (match ptr (snd r) with
                  | Some _ =>
                      let* t' := get in put (set_depth t' (u32 (tree_depth t' + 1)))
                  | None => ret tt
                  end) ;;
                 ret (fst r)) (fun _ => True)).
  { eapply root_at_bind; [apply root_at_insert_rec|]. intros r _.
    eapply root_at_bind with (Q := fun _ => True); [|intros _ _; by apply root_at_ret].
    destruct (ptr (snd r)); [|by apply root_at_ret].
    intros t0 Ht0. by split. }
  specialize (H t eq_refl). unfold insert. unfold bind at 1, get.
  destruct (bind _ _ t) as [h t'| |]; [by destruct H|done|done].
Qed.

(** ** The slot an insert into a root leaf returns *)

Lemma store_idx_inv p i k t u t' :
  store_idx (node_to_idx p i) k t = Ret u t' ->
  key_at t' (p, i) k /\ tree_root t' = tree_root t.
Proof.
  unfold store_idx, node_to_idx. cbn [fst snd]. intros H.
  apply bind_inv in H as (pg & t0 & [Hpg ->]%load_page_inv & H).
  apply bind_inv in H as (ks & t0 & [Hks ->]%lift_inv & H).
  apply store_page_inv in H as (a & -> & Hlt & ->).
  split; [|done]. exists (mk_page ks (body pg)). cbn.
  split; [by apply list_lookup_insert_eq|].
  unfold wr in Hks. destruct (_ && _) eqn:Hc in Hks; [|done].
  injection Hks as <-. apply andb_true_iff in Hc as [H0 H1].
  apply Z.leb_le in H0. apply Z.ltb_lt in H1. apply rd_insert_eq. lia.
Qed.

Lemma key_at_store_node n x t u t' h k :
  store_node n x t = Ret u t' ->
  key_at t h k -> key_at t' h k.
Proof.
  destruct n as [|p i]; simpl.
  - intros [= _ <-]. done.
  - intros H (pgh & Hpgh & Hk).
    apply bind_inv in H as (pg & t0 & [Hpg ->]%load_page_inv & H).
    apply bind_inv in H as (ns & t0 & [Hns ->]%lift_inv & H).
    apply bind_inv in H as (ns' & t0 & [Hns' ->]%lift_inv & H).
    apply store_page_inv in H as (a & -> & Hlt & ->).
    destruct h as [[b|] j]; [|done]. simpl in *.
    destruct (decide (b = a)) as [->|Hne].
    + exists (mk_page (keys pg) (Subnodes ns')). simpl.
      split; [by apply list_lookup_insert_eq|]. congruence.
    + exists pgh. cbn. split; [by rewrite list_lookup_insert_ne|done].
Qed.

(** X15: on any object whose depth is 0, whatever its pages hold, the
    pointer an [insert] returns designates a slot whose key is then the
    key inserted. *)
Theorem insert_leaf_returns_slot_of_key (idx : t_idx) (t t' : page_tree)
    (h : handle) :
  tree_depth t = 0 -> insert idx t = Ret h t' ->
  exists pg, page_at t' (fst h) = Some pg /\ rd (keys pg) (snd h) = Some idx.
Proof.
  intros Hd H. unfold insert in H.
  apply bind_inv in H as (t0 & t1 & [= <- <-] & H).
  rewrite Hd in H. change (Z.to_nat 0) with 0%nat in H.
  apply bind_inv in H as ([h' sib'] & t2 & Hrec & H). cbn [fst snd] in H.
  apply bind_inv in H as (u & t3 & Hup & H).
  assert (h' = h /\ t3 = t') as [-> ->] by (unfold ret in H; split; congruence).
  assert (Hkey : key_at t2 h idx).
  { cbn [insert_rec] in Hrec.
    apply bind_inv in Hrec as (cur & s1 & _ & Hrec).
    apply bind_inv in Hrec as ([in_sib sib] & s2 & _ & Hrec). cbn [fst snd] in Hrec.
    apply bind_inv in Hrec as (leaf & s3 & _ & Hrec).
    apply bind_inv in Hrec as (i & s4 & _ & Hrec).
    apply bind_inv in Hrec as (? & s5 & _ & Hrec).
    apply bind_inv in Hrec as (? & s6 & Hst & Hrec).
    apply bind_inv in Hrec as (sib2 & s7 & Hcnt & Hrec).
    injection Hrec as <- _ <-.
    apply store_idx_inv in Hst as [Hk _].
    destruct in_sib.
    - by injection Hcnt as _ <-.
    - apply bind_inv in Hcnt as (? & s8 & Hsn & Hcnt). injection Hcnt as _ <-.
      by eapply key_at_store_node. }
  destruct (ptr sib').
  - unfold bind, get, put in Hup. injection Hup as _ <-. exact Hkey.
  - unfold ret in Hup. injection Hup as _ <-. exact Hkey.
Qed.

Lemma insert_leaf_returns_slot_of_key_witness :
  exists h t', insert 4 leaf_3_5 = Ret h t' /\
    exists pg, page_at t' (fst h) = Some pg /\ rd (keys pg) (snd h) = Some 4.
Proof.
  destruct (insert 4 leaf_3_5) as [h t'| |] eqn:E;
    [|vm_compute in E; discriminate..].
  exists h, t'. split; [reflexivity|].
  exact (insert_leaf_returns_slot_of_key 4 leaf_3_5 t' h eq_refl E).
Defined.

(** ** insert below a root node *)

Lemma store_node_subnode_Ret t a pg ns i x :
  store t !! a = Some pg -> body pg = Subnodes ns ->
  0 <= i < Z.of_nat (length ns) ->
  store_node (subnode_ptr (Some a) i) x t
  = Ret tt (set_store t
      (<[a := mk_page (keys pg) (Subnodes (<[Z.to_nat i := Some x]> ns))]>
         (store t))).
Proof.
  intros Hp Hb Hi. pose proof (lookup_lt_Some _ _ _ Hp) as Hlt. simpl.
  erewrite bind_Ret; [|by apply (load_page_Ret t (Some a) pg)].
  unfold subnodes_of. rewrite Hb. simpl lift. unfold bind at 1, ret at 1.
  rewrite wr_Some by done. simpl lift. unfold bind at 1, ret at 1.
  by apply store_page_Ret.
Qed.

Lemma insert_rec_below_root t a pgr ns c idx sib0 :
  tree_root t = mk_node (Some a) c -> 1 <= c <= max_entry_per_node ->
  store t !! a = Some pgr -> body pgr = Subnodes ns ->
  Z.of_nat (length (keys pgr)) = max_entry_per_node ->
  Z.of_nat (length ns) = max_entry_per_node ->
  (forall j, 0 <= j < c -> exists k, rd (keys pgr) j = Some k) ->
  (forall j, 0 <= j < c ->
     exists b cb pgb,
       rd ns j = Some (mk_node (Some b) cb) /\ b <> a /\
       store t !! b = Some pgb /\ page_of_kind true pgb /\
       0 <= cb < max_entry_per_node /\
       forall l, 0 <= l < cb -> exists k, rd (keys pgb) l = Some k) ->
  exists r i b cb pgb vs p ki k0,
    binsearch_index idx (keys pgr) c = Some r /\
    i = (if r <? 0 then 0 else r) /\
    0 <= i < c /\ rd ns i = Some (mk_node (Some b) cb) /\ b <> a /\
    store t !! b = Some pgb /\ body pgb = Values vs /\
    0 <= p <= cb /\ cb < max_entry_per_node /\
    Z.of_nat (length (keys pgb)) = max_entry_per_node /\
    Z.of_nat (length vs) = max_entry_per_node /\
    rd (keys pgr) i = Some ki /\
    rd (keys (leaf_put pgb vs idx p cb)) 0 = Some k0 /\
    insert_rec 1 idx root_ptr sib0 t
    = Ret ((Some b, p), sib0)
        (set_store t
           (<[a := mk_page (if k0 <? ki then <[Z.to_nat i := Some k0]> (keys pgr)
                            else keys pgr)
                           (Subnodes (<[Z.to_nat i := Some (mk_node (Some b) (cb + 1))]> ns))]>
              (<[b := leaf_put pgb vs idx p cb]> (store t)))).
Proof.
  intros Hr Hc Hp Hb Hlk Hln Hdef Hch.
  pose proof max_entry_per_node_eq as Hcap.
  destruct (binsearch_index_defined idx (keys pgr) c) as (r & Hbs & Hrb);
    [lia|done|].
  set (i := if r <? 0 then 0 else r).
  assert (Hi : 0 <= i < c) by (subst i; destruct (Z.ltb_spec r 0); lia).
  destruct (Hch i Hi) as (b & cb & pgb & Hci & Hba & Hpb & [Hblk Hbkind] & Hcb & Hbdef).
  destruct (body pgb) as [vs|] eqn:Hbb; [|by destruct Hbkind].
  destruct Hbkind as [_ Hblv].
  destruct (Hdef i Hi) as [ki Hki].
  destruct (leaf_steps t b pgb vs cb idx Hpb Hbb Hblk Hblv Hcb Hbdef)
    as (p & tm & Hpc & Hpos & Hmv & Hst).
  assert (Hk0 : exists k0, rd (keys (leaf_put pgb vs idx p cb)) 0 = Some k0).
  { rewrite leaf_put_keys by (done || lia).
    destruct (decide (0 = p)); [by eexists|].
    destruct (decide (0 = p + 1 /\ p < cb)); [lia|]. apply Hbdef. lia. }
  destruct Hk0 as [k0 Hk0].
  exists r, i, b, cb, pgb, vs, p, ki, k0.
  do 13 (split; [done || lia|]).
  pose proof (lookup_lt_Some _ _ _ Hp) as Halt.
  pose proof (lookup_lt_Some _ _ _ Hpb) as Hblt.
  set (t1 := set_store t (<[b := leaf_put pgb vs idx p cb]> (store t))) in *.
  assert (Hp1 : store t1 !! a = Some pgr).
  { subst t1. simpl. by rewrite list_lookup_insert_ne. }
  set (child' := mk_node (Some b) (cb + 1)).
  set (ns' := <[Z.to_nat i := Some child']> ns).
  set (t2 := set_store t1 (<[a := mk_page (keys pgr) (Subnodes ns')]> (store t1))).
  assert (Hsub : load_node (subnode_ptr (Some a) i) t = Ret (mk_node (Some b) cb) t).
  { by eapply (load_node_subnode t (Some a) i pgr ns). }
  (* the call for the child *)
  assert (Hrec : insert_rec 0 idx (subnode_ptr (Some a) i) (mk_node None 0) t
                 = Ret ((Some b, p), mk_node None 0) t2).
  { cbn [insert_rec].
    erewrite bind_Ret; [|exact Hsub]. cbn [count].
    destruct (Z.geb_spec cb max_entry_per_node); [lia|].
    unfold bind at 1. unfold ret at 1. cbn [fst snd].
    erewrite bind_Ret; [|exact Hsub]. cbn [ptr count].
    erewrite bind_Ret; [|exact Hpos].
    erewrite bind_Ret; [|exact Hmv].
    erewrite bind_Ret; [|exact Hst].
    rewrite u32_small by lia.
    erewrite bind_Ret.
    2:{ erewrite bind_Ret;
          [|by apply (store_node_subnode_Ret t1 a pgr ns i); [..|lia]].
        reflexivity. }
    reflexivity. }
  cbn [insert_rec].
  rewrite (bind_Ret _ _ _ _ _ (load_node_root t)). rewrite Hr. cbn [ptr count].
  erewrite bind_Ret; [|by eapply search_page_Ret]. fold i.
  unfold node_to_subnode.
  erewrite bind_Ret; [|exact Hrec]. cbn [fst snd].
  assert (Hp2 : store t2 !! a = Some (mk_page (keys pgr) (Subnodes ns'))).
  { subst t2. simpl. apply list_lookup_insert_eq. by rewrite length_insert. }
  assert (Hb2 : store t2 !! b = Some (leaf_put pgb vs idx p cb)).
  { subst t2 t1. simpl. rewrite list_lookup_insert_ne by done.
    by apply list_lookup_insert_eq. }
  erewrite bind_Ret.
  2:{ eapply (load_node_subnode t2 (Some a) i); [exact Hp2|done|].
      subst ns'. apply rd_insert_eq. lia. }
  cbn [ptr].
  erewrite bind_Ret; [|by eapply load_idx_Ret].
  erewrite bind_Ret; [|by eapply load_idx_Ret].
  subst t2 t1. destruct (k0 <? ki).
  - erewrite bind_Ret; [|eapply store_idx_Ret; [exact Hp2|simpl; lia]].
    unfold ret. cbn. rewrite !list_insert_insert_eq. done.
  - unfold bind, ret. cbn. done.
Qed.

(** X16: on a tree of depth 1 whose root is a node page with [c >= 1]
    children, all of them leaf pages with room left and written keys,
    [insert] returns a slot [p] of the child [i] the search of the root
    keys leads to: [i] is the index [binsearch_index] returns for the key
    on the [c] keys of the root page, or 0 when that is -1.  The key of
    the slot returned is then the key inserted.  The count of that child
    goes up by one, its key in the root is lowered to the first key of
    the child when that is smaller, and nothing else in the root page, no
    other page, the root descriptor, the depth or the arenas change. *)
Theorem insert_below_root (t : page_tree) (a : addr) (pgr : page)
    (ns : list (option t_node)) (c : Z) (idx : t_idx) :
  tree_depth t = 1 ->
  tree_root t = mk_node (Some a) c -> 1 <= c <= max_entry_per_node ->
  store t !! a = Some pgr -> body pgr = Subnodes ns ->
  Z.of_nat (length (keys pgr)) = max_entry_per_node ->
  Z.of_nat (length ns) = max_entry_per_node ->
  (forall j, 0 <= j < c -> exists k, rd (keys pgr) j = Some k) ->
  (forall j, 0 <= j < c ->
     exists b cb pgb,
       rd ns j = Some (mk_node (Some b) cb) /\ b <> a /\
       store t !! b = Some pgb /\ page_of_kind true pgb /\
       0 <= cb < max_entry_per_node /\
       forall l, 0 <= l < cb -> exists k, rd (keys pgb) l = Some k) ->
  exists r i b cb p t' pgr' ns' ki k0,
    insert idx t = Ret (Some b, p) t' /\
    binsearch_index idx (keys pgr) c = Some r /\
    i = (if r <? 0 then 0 else r) /\
    0 <= i < c /\ rd ns i = Some (mk_node (Some b) cb) /\ 0 <= p <= cb /\
    key_at t' (Some b, p) idx /\
    tree_depth t' = 1 /\ tree_root t' = tree_root t /\
    mm_nodes t' = mm_nodes t /\ mm_leaves t' = mm_leaves t /\
    length (store t') = length (store t) /\
    (forall d, d <> a -> d <> b -> store t' !! d = store t !! d) /\
    store t' !! a = Some pgr' /\ body pgr' = Subnodes ns' /\
    rd ns' i = Some (mk_node (Some b) (cb + 1)) /\
    (forall j, j <> i -> rd ns' j = rd ns j) /\
    rd (keys pgr) i = Some ki /\ key_at t' (Some b, 0) k0 /\
    rd (keys pgr') i = Some (Z.min ki k0) /\
    (forall j, j <> i -> rd (keys pgr') j = rd (keys pgr) j).
Proof.
  intros Hd Hr Hc Hp Hb Hlk Hln Hdef Hch.
  pose proof max_entry_per_node_eq as Hcap.
  destruct (insert_rec_below_root t a pgr ns c idx (mk_node None 0)
              Hr Hc Hp Hb Hlk Hln Hdef Hch)
    as (r & i & b & cb & pgb & vs & p & ki & k0 & Hbs & Hir & Hi & Hci & Hba
        & Hpb & Hbb & Hpc
        & Hcb & Hblk & Hblv & Hki & Hk0 & Hrec).
  pose proof (lookup_lt_Some _ _ _ Hp) as Halt.
  pose proof (lookup_lt_Some _ _ _ Hpb) as Hblt.
  exists r, i, b, cb, p. eexists. eexists. eexists. exists ki, k0.
  split.
  { unfold insert. unfold bind at 1, get. rewrite Hd.
    change (Z.to_nat 1) with 1%nat.
    erewrite bind_Ret; [|exact Hrec]. reflexivity. }
  cbn [store set_store tree_depth tree_root mm_nodes mm_leaves].
  assert (Hb' : <[a := mk_page (if k0 <? ki then <[Z.to_nat i := Some k0]> (keys pgr)
                                else keys pgr)
                   (Subnodes (<[Z.to_nat i := Some (mk_node (Some b) (cb + 1))]> ns))]>
                  (<[b := leaf_put pgb vs idx p cb]> (store t)) !! b
                = Some (leaf_put pgb vs idx p cb)).
  { rewrite list_lookup_insert_ne by done. by apply list_lookup_insert_eq. }
  split; [done|]. split; [done|].
  split; [done|]. split; [done|]. split; [done|].
  split.
  { eexists. cbn. split; [exact Hb'|].
    rewrite leaf_put_keys by (done || lia). by destruct (decide (p = p)). }
  split; [done|]. split; [done|]. split; [done|]. split; [done|].
  split; [by rewrite !length_insert|].
  split; [intros d Hda Hdb; by rewrite !list_lookup_insert_ne|].
  split; [apply list_lookup_insert_eq; by rewrite length_insert|].
  split; [reflexivity|].
  split; [apply rd_insert_eq; lia|].
  split; [intros j Hj; apply rd_insert_ne; lia|].
  split; [done|].
  split; [eexists; cbn; split; [exact Hb'|exact Hk0]|].
  cbn [keys]. destruct (Z.ltb_spec k0 ki).
  - rewrite Z.min_r by lia. split; [apply rd_insert_eq; lia|].
    intros j Hj. apply rd_insert_ne; lia.
  - rewrite Z.min_l by lia. split; [done|]. done.
Qed.

Lemma insert_below_root_witness :
  exists r i b cb p t' pgr' ns' ki k0,
    insert 6 three_leaves = Ret (Some b, p) t' /\
    binsearch_index 6
      (keys (mk_page (cells [1; 5; 5])
               (Subnodes (cells [mk_node (Some 1%nat) 2;
                                 mk_node (Some 2%nat) 4;
                                 mk_node (Some 3%nat) 3])))) 3 = Some r /\
    i = (if r <? 0 then 0 else r) /\
    0 <= i < 3 /\
    rd (cells [mk_node (Some 1%nat) 2; mk_node (Some 2%nat) 4;
               mk_node (Some 3%nat) 3]) i = Some (mk_node (Some b) cb) /\
    0 <= p <= cb /\
    key_at t' (Some b, p) 6 /\
    tree_depth t' = 1 /\ tree_root t' = tree_root three_leaves /\
    mm_nodes t' = mm_nodes three_leaves /\
    mm_leaves t' = mm_leaves three_leaves /\
    length (store t') = length (store three_leaves) /\
    (forall d, d <> 0%nat -> d <> b -> store t' !! d = store three_leaves !! d) /\
    store t' !! 0%nat = Some pgr' /\ body pgr' = Subnodes ns' /\
    rd ns' i = Some (mk_node (Some b) (cb + 1)) /\
    (forall j, j <> i ->
       rd ns' j = rd (cells [mk_node (Some 1%nat) 2; mk_node (Some 2%nat) 4;
                             mk_node (Some 3%nat) 3]) j) /\
    rd (keys (mk_page (cells [1; 5; 5])
                (Subnodes (cells [mk_node (Some 1%nat) 2;
                                  mk_node (Some 2%nat) 4;
                                  mk_node (Some 3%nat) 3])))) i = Some ki /\
    key_at t' (Some b, 0) k0 /\
    rd (keys pgr') i = Some (Z.min ki k0) /\
    (forall j, j <> i ->
       rd (keys pgr') j
       = rd (keys (mk_page (cells [1; 5; 5])
                     (Subnodes (cells [mk_node (Some 1%nat) 2;
                                       mk_node (Some 2%nat) 4;
                                       mk_node (Some 3%nat) 3])))) j).
Proof.
  apply (insert_below_root three_leaves 0%nat
           (mk_page (cells [1; 5; 5])
              (Subnodes (cells [mk_node (Some 1%nat) 2; mk_node (Some 2%nat) 4;
                                mk_node (Some 3%nat) 3])))
           (cells [mk_node (Some 1%nat) 2; mk_node (Some 2%nat) 4;
                   mk_node (Some 3%nat) 3]) 3 6).
  - reflexivity.
  - reflexivity.
  - vm_compute. split; discriminate.
  - reflexivity.
  - reflexivity.
  - vm_compute. reflexivity.
  - vm_compute. reflexivity.
  - apply (prefix_defined _ _ [1; 5; 5]). vm_compute. reflexivity.
  - intros j Hj.
    assert (j = 0 \/ j = 1 \/ j = 2) as [ -> | [ -> | -> ] ] by lia.
    + exists 1%nat, 2, (mk_page (cells [1; 3]) (Values (cells [[10]; [30]]))).
      split; [reflexivity|]. split; [discriminate|]. split; [reflexivity|].
      split; [vm_compute; split; [reflexivity|split; reflexivity]|].
      split; [vm_compute; split; [discriminate|reflexivity]|].
      apply (prefix_defined _ _ [1; 3]). vm_compute. reflexivity.
    + exists 2%nat, 4,
        (mk_page (cells [5; 5; 5; 5]) (Values (cells [[50]; [51]; [52]; [53]]))).
      split; [reflexivity|]. split; [discriminate|]. split; [reflexivity|].
      split; [vm_compute; split; [reflexivity|split; reflexivity]|].
      split; [vm_compute; split; [discriminate|reflexivity]|].
      apply (prefix_defined _ _ [5; 5; 5; 5]). vm_compute. reflexivity.
    + exists 3%nat, 3,
        (mk_page (cells [5; 5; 7]) (Values (cells [[54]; [55]; [70]]))).
      split; [reflexivity|]. split; [discriminate|]. split; [reflexivity|].
      split; [vm_compute; split; [reflexivity|split; reflexivity]|].
      split; [vm_compute; split; [discriminate|reflexivity]|].
      apply (prefix_defined _ _ [5; 5; 7]). vm_compute. reflexivity.
Defined.


(** ** The pages of a tree built by inserts *)

























